(** * Umzugshilfe job auto-applier: subject parsing, de-duplication,
      mailbox watching, notifications, listing lookup and the single-flight
      job handler, embedded from the JavaScript sources and verified. *)

From Stdlib Require Import NArith Ascii String Decimal.
From stdpp Require Import base list gmap.

Local Open Scope N_scope.
Local Open Scope list_scope.

(** ** JavaScript strings

    A string is the sequence of its Unicode code points.  None of the
    patterns below can tell a surrogate pair from one astral character:
    both are neither digits, white space nor word characters. *)

Module Js.

Definition char := N.
Definition str := list char.

(** ASCII source literals. *)
Definition lit (s : string) : str := map N_of_ascii (list_ascii_of_string s).

Definition in_range (lo hi c : char) : bool := (lo <=? c) && (c <=? hi).

(** [\d] *)
Definition is_digit (c : char) : bool := in_range 48 57 c.

Definition is_upper (c : char) : bool := in_range 65 90 c.
Definition is_lower (c : char) : bool := in_range 97 122 c.
Definition is_ascii_alpha (c : char) : bool := is_upper c || is_lower c.

(** [\w], the word characters that [\b] looks at: [A-Za-z0-9_]. *)
Definition is_word (c : char) : bool :=
  is_ascii_alpha c || is_digit c || (c =? 95).

(** [\s] and the characters removed by [trim()]: ECMAScript WhiteSpace and
    LineTerminator. *)
Definition is_space (c : char) : bool :=
  in_range 9 13 c || (c =? 32) || (c =? 160) || (c =? 5760)
  || in_range 8192 8202 c || (c =? 8232) || (c =? 8233) || (c =? 8239)
  || (c =? 8287) || (c =? 12288) || (c =? 65279).

(** Case folding of the [i] flag without the [u] flag: a character matches a
    pattern letter when their upper-case forms agree, and a non-ASCII
    character never folds onto an ASCII one.  For the letters that occur in
    the patterns of this program (ASCII letters and a-umlaut) that leaves
    the letter itself and its other case. *)
Definition other_case (c : char) : char :=
  if is_upper c then c + 32
  else if is_lower c then c - 32
  else if in_range 192 222 c && negb (c =? 215) then c + 32
  else if in_range 224 254 c && negb (c =? 247) then c - 32
  else c.

Definition eq_ci (p c : char) : bool := (c =? p) || (c =? other_case p).

Fixpoint drop_while (p : char -> bool) (s : str) : str :=
  match s with
  | [] => []
  | c :: r => if p c then drop_while p r else s
  end.

(** [s.trim()] *)
Definition trim (s : str) : str :=
  rev (drop_while is_space (rev (drop_while is_space s))).

(** [s.padStart(2, "0")] *)
Definition padStart2 (s : str) : str :=
  match s with
  | [] => [48; 48]
  | [c] => [48; c]
  | _ => s
  end.

Fixpoint uint_digits (u : Decimal.uint) : str :=
  match u with
  | Nil => []
  | D0 u => 48 :: uint_digits u
  | D1 u => 49 :: uint_digits u
  | D2 u => 50 :: uint_digits u
  | D3 u => 51 :: uint_digits u
  | D4 u => 52 :: uint_digits u
  | D5 u => 53 :: uint_digits u
  | D6 u => 54 :: uint_digits u
  | D7 u => 55 :: uint_digits u
  | D8 u => 56 :: uint_digits u
  | D9 u => 57 :: uint_digits u
  end.

(** [String(n)] for a non-negative integer. *)
Definition of_number (n : N) : str := uint_digits (N.to_uint n).

(** [s.startsWith(p)] *)
Fixpoint startsWith (p s : str) : bool :=
  match p, s with
  | [], _ => true
  | _ :: _, [] => false
  | a :: p', b :: s' => (a =? b) && startsWith p' s'
  end.

Definition str_eqb (a b : str) : bool := bool_decide (a = b).

(** [hay.includes(needle)] *)
Fixpoint includes (needle hay : str) : bool :=
  startsWith needle hay ||
  match hay with
  | [] => false
  | _ :: r => includes needle r
  end.

End Js.

Import Js.

(** ** Regular expressions

    The fragment of ECMAScript patterns the program uses, with the
    backtracking order made explicit: [run] lists the ways a pattern can
    match at a position, first choice first, so the match JavaScript finds
    is the head of the list. *)

Module Re.

Inductive regex :=
| Eps
| Cls (p : char -> bool)                                (* one character of a class *)
| Rep (p : char -> bool) (lo : nat) (hi : option nat) (greedy : bool)
                                                        (* class{lo,hi}, class+, class*?, ... *)
| Opt (r : regex)                                       (* r? *)
| Seq (a b : regex)
| Alt (a b : regex)
| Cap (n : nat) (r : regex)                             (* capture group n *)
| Bow                                                   (* \b *)
| Bol                                                   (* ^ *)
| Eol                                                   (* $ *)
| NotAhead (r : regex).                                 (* (?!r) *)

(** A literal, and a literal under the [i] flag. *)
Fixpoint Lit (s : str) : regex :=
  match s with
  | [] => Eps
  | [c] => Cls (N.eqb c)
  | c :: s' => Seq (Cls (N.eqb c)) (Lit s')
  end.

Fixpoint LitCI (s : str) : regex :=
  match s with
  | [] => Eps
  | [c] => Cls (eq_ci c)
  | c :: s' => Seq (Cls (eq_ci c)) (LitCI s')
  end.

Definition Chr (c : char) : regex := Cls (N.eqb c).

(** Matcher state: the text before the position (nearest character
    first), the text after it, and the captures made so far. *)
Record mstate := MState {
  before : list char;
  after : list char;
  caps : list (nat * str)
}.

Definition nat_pred_opt (hi : option nat) : option nat :=
  match hi with
  | Some n => Some (Nat.pred n)
  | None => None
  end.

(** The runs a quantified class can take from [input], each with the text
    it leaves, in the order the matcher tries them: longest first when
    greedy, shortest first when lazy. *)
Fixpoint rep_choices (p : char -> bool) (lo : nat) (hi : option nat)
    (greedy : bool) (input : list char) : list (str * list char) :=
  let stop := match lo with O => [([], input)] | S _ => [] end in
  let more :=
    match hi with
    | Some O => []
    | _ =>
      match input with
      | c :: rest =>
        if p c
        then map (fun wr => (c :: fst wr, snd wr))
                 (rep_choices p (Nat.pred lo) (nat_pred_opt hi) greedy rest)
        else []
      | [] => []
      end
    end in
  if greedy then more ++ stop else stop ++ more.

Definition word_at (l : list char) : bool :=
  match l with
  | c :: _ => is_word c
  | [] => false
  end.

Definition at_boundary (st : mstate) : bool :=
  xorb (word_at (before st)) (word_at (after st)).

Definition consume (w : str) (rest : list char) (st : mstate) : mstate :=
  MState (rev_append w (before st)) rest (caps st).

Definition set_cap (n : nat) (w : str) (st : mstate) : mstate :=
  MState (before st) (after st) ((n, w) :: caps st).

Fixpoint run (r : regex) (st : mstate) : list (str * mstate) :=
  match r with
  | Eps => [([], st)]
  | Cls p =>
    match after st with
    | c :: rest => if p c then [([c], consume [c] rest st)] else []
    | [] => []
    end
  | Rep p lo hi greedy =>
    map (fun wr => (fst wr, consume (fst wr) (snd wr) st))
        (rep_choices p lo hi greedy (after st))
  | Opt r => run r st ++ [([], st)]
  | Seq a b =>
    flat_map (fun x => map (fun y => (fst x ++ fst y, snd y)) (run b (snd x)))
             (run a st)
  | Alt a b => run a st ++ run b st
  | Cap n r => map (fun x => (fst x, set_cap n (fst x) (snd x))) (run r st)
  | Bow => if at_boundary st then [([], st)] else []
  | Bol => match before st with [] => [([], st)] | _ => [] end
  | Eol => match after st with [] => [([], st)] | _ => [] end
  | NotAhead r => match run r st with [] => [([], st)] | _ => [] end
  end.

(** The result of [s.match(re)] for a pattern without the [g] flag. *)
Record match_result := MatchResult {
  m_pre : str;                 (* text before the match *)
  m_all : str;                 (* m[0] *)
  m_post : str;                (* text after the match *)
  m_caps : list (nat * str)
}.

Fixpoint exec_from (r : regex) (pre_rev rest : list char) : option match_result :=
  match run r (MState pre_rev rest []) with
  | (w, st) :: _ => Some (MatchResult (rev pre_rev) w (after st) (caps st))
  | [] =>
    match rest with
    | [] => None
    | c :: rest' => exec_from r (c :: pre_rev) rest'
    end
  end.

(** [s.match(re)]: the leftmost match, [None] for [null]. *)
Definition exec (r : regex) (s : str) : option match_result := exec_from r [] s.

(** [re.test(s)] *)
Definition test (r : regex) (s : str) : bool :=
  match exec r s with Some _ => true | None => false end.

Fixpoint assoc (n : nat) (l : list (nat * str)) : option str :=
  match l with
  | [] => None
  | (k, w) :: l' => if Nat.eqb k n then Some w else assoc n l'
  end.

(** [m[n]] for a group that took part in the match (every group the
    program reads does, whenever its pattern matches). *)
Definition group (n : nat) (m : match_result) : str :=
  match assoc n (m_caps m) with Some w => w | None => [] end.

(** [s.replace(re, repl)] without the [g] flag: the first match only. *)
Definition replace_first (r : regex) (repl s : str) : str :=
  match exec r s with
  | Some m => m_pre m ++ repl ++ m_post m
  | None => s
  end.

(** [s.replace(re, repl)] with the [g] flag.  [skip] counts the characters
    still covered by the match found last. *)
Fixpoint replace_all_from (r : regex) (repl : str) (skip : nat)
    (pre_rev rest : list char) : str :=
  match skip with
  | S k =>
    match rest with
    | [] => []
    | c :: rest' => replace_all_from r repl k (c :: pre_rev) rest'
    end
  | O =>
    match run r (MState pre_rev rest []) with
    | [] =>
      match rest with
      | [] => []
      | c :: rest' => c :: replace_all_from r repl O (c :: pre_rev) rest'
      end
    | (w, _) :: _ =>
      repl ++
      match rest with
      | [] => []
      | c :: rest' =>
        match w with
        | [] => c :: replace_all_from r repl O (c :: pre_rev) rest'
        | _ :: w' => replace_all_from r repl (length w') (c :: pre_rev) rest'
        end
      end
    end
  end.

Definition replace_all (r : regex) (repl s : str) : str :=
  replace_all_from r repl O [] s.

End Re.

Import Re.

Infix ">-" := Seq (at level 62, right associativity).

(** ** The subject parser (email-watcher-smtp-new.js) *)

Record JobRecord := Job {
  date : str;
  time : str;
  zip : str;
  city : str
}.

(** Code points of the non-ASCII letters the patterns name. *)
Definition c_Auml : char := 196.
Definition c_Ouml : char := 214.
Definition c_Uuml : char := 220.
Definition c_auml : char := 228.
Definition c_ouml : char := 246.
Definition c_uuml : char := 252.
Definition c_szlig : char := 223.
Definition c_nbsp : char := 160.

Module Parser.

Section WithUnicode.

(** The Unicode character database is not part of the program: which
    non-ASCII code points have General_Category Letter is a parameter.  On
    ASCII the category is exactly [A-Za-z]. *)
Variable letter_table : char -> bool.

(** [\p{L}] *)
Definition is_L (c : char) : bool :=
  if c <? 128 then is_ascii_alpha c else letter_table c.

(** [/\s+/g] *)
Definition rx_ws : regex := Rep is_space 1 None true.

(** [/registrierung|registration|verify|best[äa]tig/i] *)
Definition rx_nonjob : regex :=
  Alt (LitCI (lit "registrierung"))
  (Alt (LitCI (lit "registration"))
  (Alt (LitCI (lit "verify"))
       (LitCI (lit "best") >- Cls (fun c => eq_ci c_auml c || eq_ci 97 c)
          >- LitCI (lit "tig")))).

(** [/\bmorgen,?\s*/i] *)
Definition rx_morgen : regex :=
  Bow >- LitCI (lit "morgen") >- Opt (Chr 44) >- Rep is_space 0 None true.

Definition d12 : regex := Rep is_digit 1 (Some 2%nat) true.   (* \d{1,2} *)
Definition d2 : regex := Rep is_digit 2 (Some 2%nat) true.    (* \d{2} *)
Definition d4 : regex := Rep is_digit 4 (Some 4%nat) true.    (* \d{4} *)
Definition d5 : regex := Rep is_digit 5 (Some 5%nat) true.    (* \d{5} *)
Definition ws1 : regex := Rep is_space 1 None true.           (* \s+ *)
Definition ws0 : regex := Rep is_space 0 None true.           (* \s* *)
Definition dot : regex := Chr 46.                             (* \. *)
Definition colon : regex := Chr 58.
(** [(?:um|ab)] under the [i] flag *)
Definition um_ab : regex := Alt (LitCI (lit "um")) (LitCI (lit "ab")).
(** [[^0-9.]] *)
Definition not_digit_dot (c : char) : bool := negb (is_digit c || (c =? 46)).

(** [/\b(\d{1,2})\.(\d{1,2})\.(\d{4})\b/] *)
Definition rx_date_year : regex :=
  Bow >- Cap 1 d12 >- dot >- Cap 2 d12 >- dot >- Cap 3 d4 >- Bow.

(** [/\b(\d{1,2})\.(\d{1,2})\.?\b/] *)
Definition rx_date_noyear : regex :=
  Bow >- Cap 1 d12 >- dot >- Cap 2 d12 >- Opt dot >- Bow.

(** [/\b(?:um|ab)\s+(\d{1,2}):(\d{2})\b/i] *)
Definition rx_time_colon : regex :=
  Bow >- um_ab >- ws1 >- Cap 1 d12 >- colon >- Cap 2 d2 >- Bow.

(** [/\b(?:um|ab)\s+(\d{1,2})\.(\d{2})(?!\.)\b/i] *)
Definition rx_time_dot : regex :=
  Bow >- um_ab >- ws1 >- Cap 1 d12 >- dot >- Cap 2 d2 >- NotAhead dot >- Bow.

(** [/\b(?:um|ab)\s+(\d{1,2})(?:\s*Uhr)?\b/i] *)
Definition rx_time_hour : regex :=
  Bow >- um_ab >- ws1 >- Cap 1 d12 >- Opt (ws0 >- LitCI (lit "Uhr")) >- Bow.

(** [/(^|[^0-9.])(\d{1,2}):(\d{2})\b/] *)
Definition rx_time_bare_colon : regex :=
  Cap 1 (Alt Bol (Cls not_digit_dot)) >- Cap 2 d12 >- colon >- Cap 3 d2 >- Bow.

(** [/(^|[^0-9.])(\d{1,2})\.(\d{2})\b(?!\.)/] *)
Definition rx_time_bare_dot : regex :=
  Cap 1 (Alt Bol (Cls not_digit_dot)) >- Cap 2 d12 >- dot >- Cap 3 d2
    >- Bow >- NotAhead dot.

(** [[\p{L}\-.'()\/\s]] *)
Definition city_char (c : char) : bool :=
  is_L c || (c =? 45) || (c =? 46) || (c =? 39) || (c =? 40) || (c =? 41)
  || (c =? 47) || is_space c.

(** [/\b(\d{5})\s+([\p{L}\-.'()\/\s]+?)(?:\s+gesucht\b|$)/u] *)
Definition rx_loc : regex :=
  Bow >- Cap 1 d5 >- ws1 >- Cap 2 (Rep city_char 1 None false)
    >- Alt (ws1 >- Lit (lit "gesucht") >- Bow) Eol.

(** [const z2 = (n) => String(n).padStart(2, "0")] *)
Definition z2 (n : str) : str := padStart2 n.

(** JavaScript truthiness of a variable holding [null] or a string. *)
Definition truthy (v : option str) : bool :=
  match v with
  | Some (_ :: _) => true
  | _ => false
  end.

(** The date block: a date with its year, or else day and month with the
    year of the clock. *)
Definition parse_date (now_year : N) (s : str) : option str :=
  match exec rx_date_year s with
  | Some m => Some (z2 (group 1 m) ++ [46] ++ z2 (group 2 m) ++ [46] ++ group 3 m)
  | None =>
    match exec rx_date_noyear s with
    | None => None
    | Some m =>
      let y := of_number now_year in
      Some (z2 (group 1 m) ++ [46] ++ z2 (group 2 m) ++ [46] ++ y)
    end
  end.

(** One step of the time block: [if (!hh && (m = s.match(re)))]. *)
Definition try_time (re : regex) (gh gm : nat) (fixed_mm : option str)
    (s : str) (hm : option str * option str) : option str * option str :=
  if truthy (fst hm) then hm
  else match exec re s with
       | Some m =>
         (Some (group gh m),
          match fixed_mm with Some mm => Some mm | None => Some (group gm m) end)
       | None => hm
       end.

Definition parse_time (s : str) : option str * option str :=
  let hm := (None, None) in
  let hm := match exec rx_time_colon s with
            | Some m => (Some (group 1 m), Some (group 2 m))
            | None => hm
            end in
  let hm := try_time rx_time_dot 1 2 None s hm in
  let hm := try_time rx_time_hour 1 0 (Some (lit "00")) s hm in
  let hm := try_time rx_time_bare_colon 2 3 None s hm in
  let hm := try_time rx_time_bare_dot 2 3 None s hm in
  hm.

(** [parseJobDetailsFromSubject(subject, internalDate = new Date())].
    [now_year] is what [new Date().getFullYear()] returns when the function
    runs; [None] stands for [null]. *)
Definition parseJobDetailsFromSubject (now_year : N) (subject : str)
    (internalDate : N) : option JobRecord :=
  match subject with
  | [] => None
  | _ =>
    let s := trim (replace_all rx_ws [32] subject) in
    if test rx_nonjob s then None
    else
      let s := replace_first rx_morgen [] s in
      match parse_date now_year s with
      | None => None
      | Some dateStr =>
        let (hh, mm) := parse_time s in
        if negb (truthy hh) then None
        else
          let timeStr :=
            z2 (default [] hh) ++ [58] ++ (if truthy mm then default [] mm else lit "00") in
          match exec rx_loc s with
          | None => None
          | Some loc =>
            let zip := group 1 loc in
            let city := trim (replace_all rx_ws [32] (group 2 loc)) in
            Some (Job dateStr timeStr zip city)
          end
      end
  end.

End WithUnicode.

(** ** The subject parser of the earlier watcher (parseJobDetailsFromText) *)

(** [[A-ZÄÖÜa-zäöüß\-\.\s]]; the [i] flag adds nothing to this class, both
    cases of every letter are listed and sharp s has no one-character upper
    case. *)
Definition city_char_de (c : char) : bool :=
  is_upper c || (c =? c_Auml) || (c =? c_Ouml) || (c =? c_Uuml)
  || is_lower c || (c =? c_auml) || (c =? c_ouml) || (c =? c_uuml)
  || (c =? c_szlig) || (c =? 45) || (c =? 46) || is_space c.

(** [/(\d+)\s+Umzugshelfer\s+am\s+(\d{1,2}\.\d{1,2}\.\d{4})\s+ab\s+(\d{1,2}:\d{2})\s+Uhr\s+in\s+(\d{5})\s+([A-ZÄÖÜa-zäöüß\-\.\s]+?)\s+gesucht/i] *)
Definition subjectPattern : regex :=
  Cap 1 (Rep is_digit 1 None true) >- ws1 >- LitCI (lit "Umzugshelfer") >- ws1
    >- LitCI (lit "am") >- ws1
    >- Cap 2 (d12 >- dot >- d12 >- dot >- d4) >- ws1
    >- LitCI (lit "ab") >- ws1
    >- Cap 3 (d12 >- colon >- d2) >- ws1
    >- LitCI (lit "Uhr") >- ws1 >- LitCI (lit "in") >- ws1
    >- Cap 4 d5 >- ws1
    >- Cap 5 (Rep city_char_de 1 None false) >- ws1 >- LitCI (lit "gesucht").

(** [/\s+(gesucht|neu|wartend|new)$/i] *)
Definition rx_trailing_status : regex :=
  ws1 >- Cap 1 (Alt (LitCI (lit "gesucht")) (Alt (LitCI (lit "neu"))
                  (Alt (LitCI (lit "wartend")) (LitCI (lit "new"))))) >- Eol.

(** [/[.,!?]+$/] *)
Definition rx_trailing_punct : regex :=
  Rep (fun c => (c =? 46) || (c =? 44) || (c =? 33) || (c =? 63)) 1 None true >- Eol.

(** [s.split(":")] *)
Fixpoint split_colon (cur : str) (s : str) : list str :=
  match s with
  | [] => [rev cur]
  | c :: r => if c =? 58 then rev cur :: split_colon [] r else split_colon (c :: cur) r
  end.

Definition parseJobDetailsFromText (text : str) : option JobRecord :=
  match text with
  | [] => None
  | _ =>
    let cleanText := trim (replace_all rx_ws [32] text) in
    match exec subjectPattern cleanText with
    | None => None
    | Some subjectMatch =>
      let date := group 2 subjectMatch in
      let time := group 3 subjectMatch in
      let zip := group 4 subjectMatch in
      let city := trim (group 5 subjectMatch) in
      let formattedTime :=
        match split_colon [] time with
        | [hours; minutes] => padStart2 hours ++ [58] ++ minutes
        | _ => time
        end in
      let cleanCity :=
        trim (replace_first rx_trailing_punct []
                (replace_first rx_trailing_status [] city)) in
      Some (Job date formattedTime zip cleanCity)
    end
  end.

End Parser.

Import Parser.

(** A letter table for examples: the letters of Latin-1 Supplement and
    Latin Extended-A. *)
Definition latin_letters (c : char) : bool :=
  (in_range 192 591 c && negb (c =? 215) && negb (c =? 247))
  || (c =? 170) || (c =? 181) || (c =? 186).

Definition scenario_A : str :=
  Eval cbv in lit "2 Umzugshelfer am 23.08.2025 ab 15:00 Uhr in 58452 Witten gesucht".

Definition scenario_B : str :=
  Eval cbv in lit "2 Umzugshelfer am 23.08. ab 9 Uhr in 58452 Witten gesucht".

(** ** Effects: a computation runs in a world and returns or throws *)

Module Eff.

Inductive outcome (A : Type) :=
| Returned (a : A)
| Thrown (e : str).
Arguments Returned {A} a.
Arguments Thrown {A} e.

Definition M (W A : Type) : Type := W -> outcome A * W.

Definition ret {W A} (a : A) : M W A := fun w => (Returned a, w).
Definition throw {W A} (e : str) : M W A := fun w => (Thrown e, w).

Definition bind {W A B} (m : M W A) (k : A -> M W B) : M W B :=
  fun w =>
    match m w with
    | (Returned a, w') => k a w'
    | (Thrown e, w') => (Thrown e, w')
    end.

(** [try { m } catch (e) { h e }] *)
Definition try_catch {W A} (m : M W A) (h : str -> M W A) : M W A :=
  fun w =>
    match m w with
    | (Thrown e, w') => h e w'
    | r => r
    end.

(** [m.catch(() => {})] *)
Definition swallow {W} (m : M W unit) : M W unit :=
  try_catch m (fun _ => ret tt).

Definition modify {W} (f : W -> W) : M W unit := fun w => (Returned tt, f w).

End Eff.

Import Eff.

Notation "'do' x <- m ; k" := (bind m (fun x => k))
  (at level 10, x name, m at level 100, k at level 200).
Notation "m ;; k" := (bind m (fun _ => k))
  (at level 100, k at level 200, right associativity).

(** ** The set of processed job keys (Dedup Tracker) *)

Module Dedup.

Abbreviation JobKey := str (only parsing).

(** A JavaScript [Set] of strings: its elements in insertion order, each
    once. *)
Abbreviation JsSet := (list str) (only parsing).

Definition set_has (k : JobKey) (s : JsSet) : bool := bool_decide (k ∈ s).

Definition set_add (k : JobKey) (s : JsSet) : JsSet :=
  if set_has k s then s else s ++ [k].

(** [arr.slice(-n)] *)
Definition slice_last {A} (n : nat) (l : list A) : list A :=
  drop (length l - n) l.

Definition cap : nat := 1000.
Definition keep : nat := 500.

Definition isJobAlreadyProcessed (jobKey : JobKey) (processedJobs : JsSet) : bool :=
  set_has jobKey processedJobs.

Definition markJobAsProcessed (jobKey : JobKey) (processedJobs : JsSet) : JsSet :=
  let processedJobs := set_add jobKey processedJobs in
  if (cap <? length processedJobs)%nat then
    let jobsArray := processedJobs in
    foldl (fun acc job => set_add job acc) [] (slice_last keep jobsArray)
  else processedJobs.

(** The set after [markJobAsProcessed] was called with each key of [ks] in
    turn, from the empty set. *)
Definition run_marks (ks : list JobKey) : JsSet :=
  foldl (fun acc j => markJobAsProcessed j acc) [] ks.

(** A thousand and more different keys. *)
Definition numbered_keys (n : nat) : list JobKey :=
  map (fun i => [N.of_nat i]) (seq 0 n).

End Dedup.

Import Dedup.

(** [`${details.date}_${details.time}_${details.zip}`] *)
Definition jobKey_of (details : JobRecord) : JobKey :=
  date details ++ [95] ++ time details ++ [95] ++ zip details.

(** [{ successful: [...], failed: [...] }] *)
Record Results := MkResults {
  successful : list str;
  failed : list str
}.

(** ** The mailbox watcher: checkForNewEmails *)

Module Watcher.

(** What the job handler resolves to: [result] and [result.results] may
    each be missing. *)
Definition HandlerReturn := option (option Results).

(** [result && result.results && result.results.successful.length > 0] *)
Definition reports_success (result : HandlerReturn) : bool :=
  match result with
  | Some (Some r) => (0 <? length (successful r))%nat
  | _ => false
  end.

(** The watcher's own state and the \Seen flags it sets on the server. *)
Record Watcher := MkWatcher {
  processedJobs : JsSet;
  emailRetryCount : gmap N nat;
  seen : gset N
}.

(** [this.emailRetryCount.get(uid) || 0] *)
Definition getEmailRetryCount (uid : N) (w : Watcher) : nat :=
  default 0%nat (emailRetryCount w !! uid).

Definition incrementEmailRetryCount (uid : N) (w : Watcher) : Watcher :=
  let current := getEmailRetryCount uid w in
  MkWatcher (processedJobs w) (<[uid := (current + 1)%nat]> (emailRetryCount w)) (seen w).

Definition clearEmailRetryCount (uid : N) (w : Watcher) : Watcher :=
  MkWatcher (processedJobs w) (delete uid (emailRetryCount w)) (seen w).

Definition mark_processed (k : JobKey) (w : Watcher) : Watcher :=
  MkWatcher (markJobAsProcessed k (processedJobs w)) (emailRetryCount w) (seen w).

Definition set_seen (uid : N) (w : Watcher) : Watcher :=
  MkWatcher (processedJobs w) (emailRetryCount w) ({[uid]} ∪ seen w).

Section WithServer.

(** The mail server and the downstream handler are the environment. *)
Variable fetchSubject : N -> outcome str.        (* the subject header of a message *)
Variable jobHandler : JobRecord -> outcome HandlerReturn.
Variable addSeenFlag : N -> outcome unit.        (* imap.addFlags(uid, ["\\Seen"]) *)

(** [markAsRead(uid)] *)
Definition markAsRead (uid : N) : M Watcher unit :=
  fun w =>
    match addSeenFlag uid with
    | Returned _ => (Returned tt, set_seen uid w)
    | Thrown e => (Thrown e, w)
    end.

Definition lift {A} (o : outcome A) : M Watcher A := fun w => (o, w).

(** The retry bookkeeping shared by the failure branches:
    [if (retryCount >= limit) shouldMarkAsRead = true; else increment]. *)
Definition retry_or_give_up (limit : nat) (uid : N) : M Watcher bool :=
  fun w =>
    let retryCount := getEmailRetryCount uid w in
    if (limit <=? retryCount)%nat then (Returned true, w)
    else (Returned false, incrementEmailRetryCount uid w).

(** The body of the [for (const uid of uids)] loop of the watcher that
    carries retry counters (the listing without a file name): the [try]
    block computes [shouldMarkAsRead]. *)
Definition decide_mark (uid : N) : M Watcher bool :=
  try_catch
    (do emailSubject <- lift (fetchSubject uid);
     match parseJobDetailsFromText emailSubject with
     | Some details =>
       let jobKey := jobKey_of details in
       do already <- (fun w => (Returned (isJobAlreadyProcessed jobKey (processedJobs w)), w));
       if already then ret true
       else
         do result <- lift (jobHandler details);
         if reports_success result then
           modify (mark_processed jobKey);; ret true
         else retry_or_give_up 3 uid
     | None => retry_or_give_up 2 uid
     end)
    (fun _ => retry_or_give_up 2 uid).

Definition process_uid (uid : N) : M Watcher unit :=
  do shouldMarkAsRead <- decide_mark uid;
  if shouldMarkAsRead then
    try_catch (markAsRead uid;; modify (clearEmailRetryCount uid))
              (fun _ => ret tt)
  else ret tt.

Fixpoint for_each {W} (body : N -> M W unit) (uids : list N) : M W unit :=
  match uids with
  | [] => ret tt
  | uid :: rest => body uid;; for_each body rest
  end.

(** [checkForNewEmails] from the search result on. *)
Definition checkForNewEmails (uids : list N) : M Watcher unit :=
  for_each process_uid uids.

(** The loop body of email-watcher-smtp-new.js. *)
Variable letter_table : char -> bool.
Variable now_year : N.
Variable internalDate_of : N -> N.

Definition process_uid_new (uid : N) : M Watcher unit :=
  try_catch
    (do subject <- lift (fetchSubject uid);
     match parseJobDetailsFromSubject letter_table now_year subject (internalDate_of uid) with
     | Some details =>
       do _r <- lift (jobHandler details);
       markAsRead uid
     | None => ret tt
     end)
    (fun _ => ret tt).

Definition checkForNewEmails_new (uids : list N) : M Watcher unit :=
  for_each process_uid_new uids.

End WithServer.

(** An environment in which every message carries the subject of
    scenario A, the handler reports failure and the server accepts the
    flag. *)
Definition failing_handler : JobRecord -> outcome HandlerReturn :=
  fun details => Returned (Some (Some (MkResults [] [jobKey_of details]))).
Definition subject_A : N -> outcome str := fun _ => Returned scenario_A.
Definition flag_ok : N -> outcome unit := fun _ => Returned tt.

(** A watcher that has seen nothing yet. *)
Definition fresh : Watcher := MkWatcher [] ∅ ∅.

End Watcher.

(** ** Notifications: sendSuccessNotification, sendErrorNotification,
       sendTestEmail *)

Module Notifier.

Record Mail := MkMail {
  mail_from : str;
  mail_to : str;
  mail_subject : str;
  mail_text : str
}.

Inductive LogLine :=
| Log (msg : str)                     (* console.log *)
| LogError (msg : str) (err : str).   (* console.error *)

(** What the notifier does to the outside: the [sendMail] calls it made
    and the console lines it wrote. *)
Record World := MkWorld {
  sendMail_calls : list Mail;
  console : list LogLine
}.

(** A transport answers a mail with [None] (accepted) or the error it
    rejects with. *)
Definition Transport := Mail -> option str.

Record JsError := MkError {
  message : str;
  stack : str
}.

(** [arr.join(", ")] *)
Fixpoint join_comma (l : list str) : str :=
  match l with
  | [] => []
  | [x] => x
  | x :: l' => x ++ [44; 32] ++ join_comma l'
  end.

Definition nl : str := [10].

Section WithConfig.

Variable user : str.        (* this.config.smtp.auth.user *)
Variable smtp_host : str.   (* this.config.smtp.host *)
Variable smtp_port : N.     (* this.config.smtp.port *)
Variable now_iso : str.     (* new Date().toISOString() *)

Definition sendMail (t : Transport) (m : Mail) : M World unit :=
  fun w =>
    let w' := MkWorld (sendMail_calls w ++ [m]) (console w) in
    match t m with
    | None => (Returned tt, w')
    | Some e => (Thrown e, w')
    end.

Definition console_log (msg : str) : M World unit :=
  modify (fun w => MkWorld (sendMail_calls w) (console w ++ [Log msg])).

Definition console_error (msg e : str) : M World unit :=
  modify (fun w => MkWorld (sendMail_calls w) (console w ++ [LogError msg e])).

Definition success_mail (successfulJobs : list str) (responseTime : N) : Mail :=
  let n := of_number (N.of_nat (length successfulJobs)) in
  let ms := of_number responseTime in
  MkMail user user
    ([9989] ++ lit " Job Applications Successful - " ++ n ++ lit " jobs")
    (lit "Success! Applied to " ++ n ++ lit " jobs in " ++ ms ++ lit "ms." ++ nl ++ nl
     ++ lit "Job IDs: " ++ join_comma successfulJobs ++ nl
     ++ lit "Response time: " ++ ms ++ lit "ms" ++ nl
     ++ lit "Timestamp: " ++ now_iso ++ nl).

Definition error_mail (error : JsError) (jobIds : list str) : Mail :=
  let n := of_number (N.of_nat (length jobIds)) in
  MkMail user user
    ([10060] ++ lit " Job Application Error - " ++ n ++ lit " jobs failed")
    (lit "Error occurred while processing jobs:" ++ nl ++ nl
     ++ lit "Job IDs: " ++ join_comma jobIds ++ nl
     ++ lit "Error: " ++ message error ++ nl
     ++ lit "Stack: " ++ stack error ++ nl ++ nl
     ++ lit "Timestamp: " ++ now_iso ++ nl).

Definition test_mail : Mail :=
  MkMail user user
    ([129514] ++ lit " Test Email - Umzugshilfe Bot")
    (lit "This is a test email from your Umzugshilfe job application bot." ++ nl ++ nl
     ++ lit "SMTP Host: " ++ smtp_host ++ nl
     ++ lit "SMTP Port: " ++ of_number smtp_port ++ nl
     ++ lit "Email: " ++ user ++ nl ++ nl
     ++ lit "Timestamp: " ++ now_iso ++ nl).

Definition sendSuccessNotification (transporter : option Transport)
    (successfulJobs : list str) (responseTime : N) : M World unit :=
  match transporter with
  | None => ret tt
  | Some t =>
    try_catch
      (sendMail t (success_mail successfulJobs responseTime);;
       console_log ([9989] ++ lit " Success notification sent"))
      (fun e => console_error ([10060] ++ lit " Failed to send success notification:") e)
  end.

Definition sendErrorNotification (transporter : option Transport)
    (error : JsError) (jobIds : list str) : M World unit :=
  match transporter with
  | None => ret tt
  | Some t =>
    try_catch
      (sendMail t (error_mail error jobIds);;
       console_log ([128231] ++ lit " Error notification sent"))
      (fun e => console_error ([10060] ++ lit " Failed to send error notification:") e)
  end.

Definition sendTestEmail (transporter : option Transport) : M World unit :=
  match transporter with
  | None => throw (lit "SMTP transporter not initialized")
  | Some t =>
    sendMail t test_mail;;
    console_log ([128231] ++ lit " Test email sent successfully")
  end.

End WithConfig.

(** A transport that refuses every mail with the error [e]. *)
Definition refusing (e : str) : Transport := fun _ => Some e.

End Notifier.

(** ** The browser automator: applyToJobByDetails and processJobs *)

Module Automator.

(** One [div.entry] of the listings page, as far as the program looks at
    it. *)
Record Entry := MkEntry {
  entry_text : str;              (* the text it displays *)
  data_status : option str;      (* the data-status attribute *)
  has_date_location : bool;      (* contains a span.date.location *)
  accept_controls : nat;         (* accept buttons inside its form *)
  cancel_marks : nat             (* "x" buttons, .btn.red, .accepted-state *)
}.

(** A locator is a query, evaluated against the page each time it is used. *)
Definition Locator := Entry -> bool.

(** [div.entry[data-status="new"], div.entry[data-status="neu"]] *)
Definition is_new (e : Entry) : bool :=
  match data_status e with
  | Some s => str_eqb s (lit "new") || str_eqb s (lit "neu")
  | None => false
  end.

(** [/(waiting|wartend|accepted|pending)/i] *)
Definition rx_accepted : regex :=
  Cap 1 (Alt (LitCI (lit "waiting")) (Alt (LitCI (lit "wartend"))
          (Alt (LitCI (lit "accepted")) (LitCI (lit "pending"))))).

(** [/\u00A0/g] *)
Definition rx_nbsp : regex := Chr c_nbsp.

(** [const norm = (s) => s.replace(/\u00A0/g, " ").replace(/\s+/g, " ").trim()] *)
Definition norm (s : str) : str :=
  trim (replace_all rx_ws [32] (replace_all rx_nbsp [32] s)).

Section WithBrowser.

(** The browser and the website behind it are the environment: a world
    [W], the entries of the page it shows, Playwright's text filter, and
    the actions the program performs on it. *)
Context {W : Type}.
Variable entries : W -> list Entry.
Variable hasText : str -> Entry -> bool.
Variable click_accept : Locator -> M W unit.     (* submit.first().click() *)
Variable settle : M W unit.                      (* the race of waitForURL and a timeout *)
Variable reload : M W unit.                      (* page.reload(...) *)
Variable wait_for_entries : M W unit.            (* page.waitForSelector("div.entry") *)
Variable click_and_navigate : Locator -> M W unit.
                    (* Promise.all([page.waitForNavigation(...), submit.first().click()]) *)
Variable debug_mode : bool.                      (* process.env.DEBUG_MODE === "true" *)
Variable screenshot : M W unit.                  (* page.screenshot(...) *)

(** [_maybeScreenshot(tag)] *)
Definition maybeScreenshot : M W unit :=
  if debug_mode then try_catch screenshot (fun _ => ret tt) else ret tt.

(** [await locator.count()]: the answer of the query.  That the query can
    reject instead, on a closed page, is [awaited] below, for the file that
    runs its queries outside any [try]; in automator-simple.js every query
    sits in a [try] block whose handler returns false whatever was thrown. *)
Definition count (l : Locator) : M W nat :=
  fun w => (Returned (length (filter (fun e => l e = true) (entries w))), w).

(** What [locator.first()] resolves to. *)
Definition first_of (l : Locator) : M W (option Entry) :=
  fun w => (Returned (head (filter (fun e => l e = true) (entries w))), w).

(** [(await entry.first().getAttribute("data-status")) || ""] *)
Definition status_of (l : Locator) : M W str :=
  do e <- first_of l;
  ret (match e with
       | Some e => default [] (data_status e)
       | None => []
       end).

Definition sub_count (f : Entry -> nat) (l : Locator) : M W nat :=
  do e <- first_of l;
  ret (match e with Some e => f e | None => 0%nat end).

(** *** automator-simple-new.js *)

Section New.

Variable goToMeineJobs : M W bool.
Variable closed : W -> option str.
        (* the error a locator query rejects with while the page, the context
           or the browser is closed *)

(** An awaited locator query ([await entry.count()],
    [await entry.first().getAttribute(...)]) as this file runs it, outside
    any [try]: it answers from the page, or rejects. *)
Definition awaited {A} (query : M W A) : M W A :=
  fun w =>
    match closed w with
    | Some e => (Thrown e, w)
    | None => query w
    end.

Definition submitAcceptInEntry (entry : Locator) : M W bool :=
  do submit <- awaited (sub_count accept_controls entry);
  if (submit =? 0)%nat then ret false
  else
    swallow (click_accept entry);;
    settle;;
    do c <- awaited (count entry);
    if (c =? 0)%nat then ret true
    else
      do statusAfter <- awaited (status_of entry);
      if test rx_accepted statusAfter then ret true
      else
        do hasX <- awaited (sub_count cancel_marks entry);
        if (0 <? hasX)%nat then ret true
        else
          swallow reload;;
          swallow wait_for_entries;;
          do stillThere <- awaited (count entry);
          if (stillThere =? 0)%nat then ret true
          else
            do statusReload <- awaited (status_of entry);
            ret (test rx_accepted statusReload).

Definition needle_of (job : JobRecord) : str :=
  norm (lit "Am " ++ date job ++ lit " um " ++ time job ++ lit " in " ++ zip job).

Definition applyToJobByDetails (job : JobRecord) : M W bool :=
  do _ok <- goToMeineJobs;
  let needle := needle_of job in
  let entry : Locator :=
    fun e => is_new e && has_date_location e && hasText needle e in
  do c <- awaited (count entry);
  if (c =? 0)%nat then
    let entry : Locator := fun e => is_new e && hasText needle e in
    do c <- awaited (count entry);
    if (c =? 0)%nat then ret false
    else submitAcceptInEntry entry
  else submitAcceptInEntry entry.

End New.

(** *** automator-simple.js *)

Section Old.

Variable goToMeineJobs : M W unit.

Definition submitAcceptInEntry_old (entry : Locator) (statusBefore : str) : M W bool :=
  do submit <- sub_count accept_controls entry;
  if (submit =? 0)%nat then ret false
  else
    click_and_navigate entry;;
    do stillThere <- count entry;
    if (stillThere =? 0)%nat then ret true
    else
      do statusAfter <- status_of entry;
      if negb (str_eqb statusBefore statusAfter) then ret true
      else
        do hasX <- sub_count cancel_marks entry;
        ret (0 <? hasX)%nat.

Definition needle_with_city (job : JobRecord) : str :=
  lit "Am " ++ date job ++ lit " um " ++ time job ++ lit " in " ++ zip job
    ++ lit " " ++ city job.

Definition needle_without_city (job : JobRecord) : str :=
  lit "Am " ++ date job ++ lit " um " ++ time job ++ lit " in " ++ zip job.

Definition applyToJobByDetails_old (job : JobRecord) : M W bool :=
  try_catch
    (goToMeineJobs;;
     let entry : Locator := fun e => is_new e && hasText (needle_with_city job) e in
     do c <- count entry;
     if (c =? 0)%nat then
       let entry : Locator := fun e => is_new e && hasText (needle_without_city job) e in
       do c <- count entry;
       if (c =? 0)%nat then ret false
       else
         do statusBefore <- status_of entry;
         submitAcceptInEntry_old entry statusBefore
     else
       do statusBefore <- status_of entry;
       submitAcceptInEntry_old entry statusBefore)
    (fun _ => maybeScreenshot;; ret false).

(** [applyToJob(jobId)]: the row that shows "#<jobId>". *)
Definition applyToJob (jobId : str) : M W bool :=
  try_catch
    (goToMeineJobs;;
     let entry : Locator := fun e => hasText ([35] ++ jobId) e in
     do c <- count entry;
     if (c =? 0)%nat then ret false
     else
       do statusBefore <- status_of entry;
       submitAcceptInEntry_old entry statusBefore)
    (fun _ => maybeScreenshot;; ret false).

Definition push_successful (jobId : str) (r : Results) : Results :=
  MkResults (successful r ++ [jobId]) (failed r).

Definition push_failed (jobId : str) (r : Results) : Results :=
  MkResults (successful r) (failed r ++ [jobId]).

(** [jobId === "TEST123" || String(jobId).startsWith("TEST")] *)
Definition is_test_id (jobId : str) : bool :=
  str_eqb jobId (lit "TEST123") || startsWith (lit "TEST") jobId.

(** The [for (const jobId of jobIds)] loop of [processJobs]. *)
Fixpoint processJobs_loop (jobIds : list str) (results : Results) : M W Results :=
  match jobIds with
  | [] => ret results
  | jobId :: rest =>
    do results <-
      try_catch
        (if is_test_id jobId then ret (push_successful jobId results)
         else
           do ok <- applyToJob jobId;
           ret (if ok then push_successful jobId results
                else push_failed jobId results))
        (fun _ => ret (push_failed jobId results));
    processJobs_loop rest results
  end.

Definition processJobs (ready isLoggedIn : bool) (jobIds : list str) : M W Results :=
  if negb ready || negb isLoggedIn
  then throw (lit "Automator not ready or not logged in")
  else processJobs_loop jobIds (MkResults [] []).

End Old.

End WithBrowser.

(** The ids that are not test ids. *)
Definition real_ids (jobIds : list str) : list str :=
  filter (fun j => is_test_id j = false) jobIds.

(** A page held as the list of its entries, searched by plain inclusion,
    on which every action succeeds and changes nothing. *)
Definition text_includes (needle : str) (e : Entry) : bool :=
  includes needle (entry_text e).
Definition no_op : M (list Entry) unit := ret tt.
Definition no_click : Locator -> M (list Entry) unit := fun _ => ret tt.

(** A page that lists one new job, not the one of scenario A. *)
Definition page_other : list Entry :=
  [MkEntry (lit "Am 24.08.2025 um 09:00 in 44137 Dortmund") (Some (lit "new")) true 1 0].

End Automator.

(** ** The service: handleNewJobs (app.js)

    JavaScript runs one piece of code at a time and switches only at an
    [await] or when a function returns.  The service is therefore modelled
    by what each uninterrupted piece does to its fields: the events are the
    calls of [handleNewJobs], the firing of a pending [setTimeout], and the
    settling of a promise an activation waits for. *)

Module Service.

Record Stats := MkStats {
  totalJobsProcessed : nat;
  successCount : nat;
  failCount : nat
}.

(** Where an activation of [handleNewJobs] that has set the flag is
    suspended. *)
Inductive phase :=
| AwaitProcessJobs                    (* await this.automator.processJobs(jobIds) *)
| AwaitSuccessMail (r : Results)      (* await sendSuccessNotification(...) *)
| AwaitErrorMail (e : str).           (* await sendErrorNotification(...), then rethrow *)

Record Activation := MkActivation {
  act_jobIds : list str;
  act_phase : phase
}.

(** How an activation ended. *)
Inductive terminal :=
| Completed (jobIds : list str) (r : Results)
| Failed (jobIds : list str) (e : str).

Record Service := MkService {
  isProcessing : bool;
  stats : Stats;
  in_flight : list Activation;       (* activations inside the try block *)
  timers : list (list str);          (* pending setTimeout(() => handleNewJobs(jobIds), 1000) *)
  finished : list terminal           (* activations that left the try block, oldest first *)
}.

Definition init : Service :=
  MkService false (MkStats 0 0 0) [] [] [].

Inductive event :=
| Call (jobIds : option (list str))              (* handleNewJobs(jobIds) is called *)
| TimerFires (i : nat)                           (* the i-th pending timer runs its callback *)
| ProcessJobsSettles (i : nat) (r : outcome Results)
                                                 (* processJobs of in-flight activation i settles *)
| MailSettles (i : nat).                         (* its notification mail settles (it never rejects) *)

(** [handleNewJobs] from its first line to its first [await]. *)
Definition enter (jobIds : option (list str)) (s : Service) : Service :=
  match jobIds with
  | None | Some [] => s                              (* if (!jobIds || jobIds.length === 0) return *)
  | Some ids =>
    if isProcessing s then
      MkService (isProcessing s) (stats s) (in_flight s) (timers s ++ [ids]) (finished s)
    else
      MkService true (stats s)
                (in_flight s ++ [MkActivation ids AwaitProcessJobs]) (timers s) (finished s)
  end.

(** The [finally] block, and the activation leaves. *)
Definition leave (i : nat) (t : terminal) (s : Service) : Service :=
  MkService false (stats s) (delete i (in_flight s)) (timers s) (finished s ++ [t]).

Definition set_phase (i : nat) (a : Activation) (st : Stats) (s : Service) : Service :=
  MkService (isProcessing s) st (<[i := a]> (in_flight s)) (timers s) (finished s).

Definition step (s : Service) (ev : event) : Service :=
  match ev with
  | Call jobIds => enter jobIds s
  | TimerFires i =>
    match timers s !! i with
    | Some ids =>
      enter (Some ids)
        (MkService (isProcessing s) (stats s) (in_flight s) (delete i (timers s)) (finished s))
    | None => s
    end
  | ProcessJobsSettles i r =>
    match in_flight s !! i with
    | Some (MkActivation ids AwaitProcessJobs) =>
      match r with
      | Returned results =>
        let st := MkStats (totalJobsProcessed (stats s) + length ids)
                          (successCount (stats s) + length (successful results))
                          (failCount (stats s) + length (failed results)) in
        if (0 <? length (successful results))%nat then
          set_phase i (MkActivation ids (AwaitSuccessMail results)) st s
        else
          leave i (Completed ids results)
            (MkService (isProcessing s) st (in_flight s) (timers s) (finished s))
      | Thrown e =>
        let st := MkStats (totalJobsProcessed (stats s)) (successCount (stats s))
                          (failCount (stats s) + length ids) in
        set_phase i (MkActivation ids (AwaitErrorMail e)) st s
      end
    | _ => s
    end
  | MailSettles i =>
    match in_flight s !! i with
    | Some (MkActivation ids (AwaitSuccessMail results)) => leave i (Completed ids results) s
    | Some (MkActivation ids (AwaitErrorMail e)) => leave i (Failed ids e) s
    | _ => s
    end
  end.

Definition run_events (s : Service) (evs : list event) : Service :=
  foldl step s evs.

(** The batches that are in the "processing" state. *)
Definition processing (s : Service) : list (list str) :=
  map act_jobIds (in_flight s).

(** As many activations are in flight as the flag says: one or none. *)
Definition single_flight (s : Service) : Prop :=
  length (in_flight s) = if isProcessing s then 1%nat else 0%nat.

End Service.

(** ** What a pattern matches

    [semc r b w a cs]: pattern [r] matches the text [w] when [b] is the text
    before it (nearest character first) and [a] the text after it, and
    [cs] are the captures it makes (latest first). *)

Module ReSem.

Definition all_in (p : char -> bool) (w : str) : Prop :=
  Forall (fun c => p c = true) w.

Definition within (lo : nat) (hi : option nat) (n : nat) : Prop :=
  (lo <= n)%nat /\ match hi with Some h => (n <= h)%nat | None => True end.

Fixpoint semc (r : regex) (b : list char) (w : str) (a : list char)
    (cs : list (nat * str)) : Prop :=
  match r with
  | Eps => w = [] /\ cs = []
  | Cls p => (exists c, w = [c] /\ p c = true) /\ cs = []
  | Rep p lo hi _ => all_in p w /\ within lo hi (length w) /\ cs = []
  | Opt r => semc r b w a cs \/ (w = [] /\ cs = [])
  | Seq x y =>
    exists w1 w2 c1 c2,
      w = w1 ++ w2 /\ cs = c2 ++ c1 /\
      semc x b w1 (w2 ++ a) c1 /\ semc y (rev w1 ++ b) w2 a c2
  | Alt x y => semc x b w a cs \/ semc y b w a cs
  | Cap n r => exists c', cs = (n, w) :: c' /\ semc r b w a c'
  | Bow => w = [] /\ cs = [] /\ xorb (word_at b) (word_at a) = true
  | Bol => w = [] /\ cs = [] /\ b = []
  | Eol => w = [] /\ cs = [] /\ a = []
  | NotAhead r =>
    w = [] /\ cs = [] /\ forall w' a' c', a = w' ++ a' -> ~ semc r b w' a' c'
  end.

(** The pattern occurs somewhere in [s]. *)
Definition occurs (r : regex) (s : str) : Prop :=
  exists p w a cs, s = p ++ w ++ a /\ semc r (rev p) w a cs.

End ReSem.


(** ** Tokens of a subject, in words

    The date, time and place tokens the parser looks for, stated as the
    shapes of text they are, to be compared with the patterns of the
    source. *)

Module Tokens.

Import ReSem.

Definition digits (w : str) : Prop := all_in is_digit w.

(** One or two digits: a day, a month or an hour. *)
Definition one_or_two_digits (h : str) : Prop :=
  digits h /\ (1 <= length h <= 2)%nat.

Definition n_digits (n : nat) (m : str) : Prop := digits m /\ length m = n.

(** White space, at least one character. *)
Definition blanks (w : str) : Prop := w <> [] /\ all_in is_space w.

(** The anchor word "um" or "ab", in either case. *)
Definition um_or_ab (k : str) : Prop :=
  exists c1 c2, k = [c1; c2] /\
    ((eq_ci 117 c1 = true /\ eq_ci 109 c2 = true) \/
     (eq_ci 97 c1 = true /\ eq_ci 98 c2 = true)).

(** "Uhr" in either case, after optional white space; or nothing. *)
Definition optional_uhr (u : str) : Prop :=
  u = [] \/
  exists sp x y z, u = sp ++ [x; y; z] /\ all_in is_space sp /\
    eq_ci 85 x = true /\ eq_ci 104 y = true /\ eq_ci 114 z = true.

(** The text before/after a token ends/starts with a word character. *)
Definition ends_in_word (pre : str) : bool := word_at (rev pre).
Definition starts_with_word (post : str) : bool := word_at post.

Definition starts_with_dot (post : str) : bool :=
  match post with
  | c :: _ => c =? 46
  | [] => false
  end.

(** Not immediately preceded by a digit or a dot. *)
Definition not_after_digit_or_dot (pre : str) : bool :=
  match rev pre with
  | c :: _ => not_digit_dot c
  | [] => true
  end.

(** A date with its year: D.M.YYYY standing alone. *)
Definition full_date (s : str) : Prop :=
  exists pre d mo y post,
    s = pre ++ d ++ [46] ++ mo ++ [46] ++ y ++ post /\
    ends_in_word pre = false /\ one_or_two_digits d /\ one_or_two_digits mo /\
    n_digits 4 y /\ starts_with_word post = false.

(** A date without a year, with its day and month: "D.M" or "D.M.". *)
Definition short_date (s d mo : str) : Prop :=
  exists pre t post,
    s = pre ++ d ++ [46] ++ mo ++ t ++ post /\
    ends_in_word pre = false /\ one_or_two_digits d /\ one_or_two_digits mo /\
    ((t = [] /\ starts_with_word post = false) \/
     (t = [46] /\ starts_with_word post = true)).

(** "um H:MM" / "ab H:MM" *)
Definition anchored_colon (s h m : str) : Prop :=
  exists pre k sp post,
    s = pre ++ k ++ sp ++ h ++ [58] ++ m ++ post /\
    ends_in_word pre = false /\ um_or_ab k /\ blanks sp /\
    one_or_two_digits h /\ n_digits 2 m /\ starts_with_word post = false.

(** "um H.MM" / "ab H.MM", not running on into a date *)
Definition anchored_dot (s h m : str) : Prop :=
  exists pre k sp post,
    s = pre ++ k ++ sp ++ h ++ [46] ++ m ++ post /\
    ends_in_word pre = false /\ um_or_ab k /\ blanks sp /\
    one_or_two_digits h /\ n_digits 2 m /\
    starts_with_dot post = false /\ starts_with_word post = false.

(** "um H" / "ab H", with or without "Uhr" *)
Definition anchored_hour (s h : str) : Prop :=
  exists pre k sp u post,
    s = pre ++ k ++ sp ++ h ++ u ++ post /\
    ends_in_word pre = false /\ um_or_ab k /\ blanks sp /\
    one_or_two_digits h /\ optional_uhr u /\ starts_with_word post = false.

(** A standing-alone H:MM not immediately after a digit or dot *)
Definition standalone_colon (s h m : str) : Prop :=
  exists pre post,
    s = pre ++ h ++ [58] ++ m ++ post /\
    not_after_digit_or_dot pre = true /\
    one_or_two_digits h /\ n_digits 2 m /\ starts_with_word post = false.

(** A standing-alone H.MM not immediately after a digit or dot *)
Definition standalone_dot (s h m : str) : Prop :=
  exists pre post,
    s = pre ++ h ++ [46] ++ m ++ post /\
    not_after_digit_or_dot pre = true /\
    one_or_two_digits h /\ n_digits 2 m /\
    starts_with_word post = false /\ starts_with_dot post = false.

Definition has_time_token (s : str) : Prop :=
  (exists h m, anchored_colon s h m) \/ (exists h m, anchored_dot s h m) \/
  (exists h, anchored_hour s h) \/
  (exists h m, standalone_colon s h m) \/ (exists h m, standalone_dot s h m).

(** A five-digit postal code, white space, and a place: one or more
    characters that are letters, "-", ".", "'", "(", ")", "/" or white
    space, up to " gesucht" or the end of the text. *)
Definition place_token (letter_table : char -> bool) (s z c : str) : Prop :=
  exists pre sp tl post,
    s = pre ++ z ++ sp ++ c ++ tl ++ post /\
    ends_in_word pre = false /\ n_digits 5 z /\ blanks sp /\
    c <> [] /\ all_in (city_char letter_table) c /\
    ((tl = [] /\ post = []) \/
     (exists sp', tl = sp' ++ lit "gesucht" /\ blanks sp' /\
                  starts_with_word post = false)).

(** The text the parser applies its date, time and place patterns to:
    white space collapsed and trimmed, the first "morgen" word removed. *)
Definition prepared (subject : str) : str :=
  replace_first rx_morgen [] (trim (replace_all rx_ws [32] subject)).

End Tokens.


Module Readings.

Import ReSem Tokens.

(** A five-digit postal code followed by a letter word, read as loosely
    as the words allow: five digits, white space, one or more letters. *)
Definition zip_then_letter_word (letter_table : char -> bool) (s : str) : Prop :=
  exists pre z sp w post,
    s = pre ++ z ++ sp ++ w ++ post /\
    n_digits 5 z /\ blanks sp /\ w <> [] /\ all_in (is_L letter_table) w.

(** The same shape as a pattern, to decide it. *)
Definition rx_zip_letter (letter_table : char -> bool) : regex :=
  d5 >- ws1 >- Cls (is_L letter_table).

End Readings.


(** ** The canonical subject line *)

Module Template.

Import ReSem Tokens.

(** Words joined by single spaces. *)
Fixpoint join_sp (ws : list str) : str :=
  match ws with
  | [] => []
  | [w] => w
  | w :: ws' => w ++ [32] ++ join_sp ws'
  end.

Definition letter_word (letter_table : char -> bool) (w : str) : Prop :=
  w <> [] /\ all_in (is_L letter_table) w.

(** "N Umzugshelfer am DD.MM.YYYY ab HH:MM Uhr in ZZZZZ City gesucht" *)
Definition canonical_subject (n dd mm yyyy hh mi zip : str) (city_words : list str) : str :=
  n ++ lit " Umzugshelfer am " ++ dd ++ [46] ++ mm ++ [46] ++ yyyy
    ++ lit " ab " ++ hh ++ [58] ++ mi ++ lit " Uhr in " ++ zip ++ [32]
    ++ join_sp city_words ++ lit " gesucht".

(** Any count, a DD.MM.YYYY date, an HH:MM time, a five-digit zip, a city
    of letter words. *)
Definition canonical (letter_table : char -> bool)
    (n dd mm yyyy hh mi zip : str) (city_words : list str) : Prop :=
  n <> [] /\ digits n /\
  n_digits 2 dd /\ n_digits 2 mm /\ n_digits 4 yyyy /\
  n_digits 2 hh /\ n_digits 2 mi /\ n_digits 5 zip /\
  city_words <> [] /\ Forall (letter_word letter_table) city_words.

(** The record the claim expects. *)
Definition expected_record (dd mm yyyy hh mi zip : str) (city_words : list str) : JobRecord :=
  Job (dd ++ [46] ++ mm ++ [46] ++ yyyy) (hh ++ [58] ++ mi) zip (join_sp city_words).

End Template.


(** ** Auxiliary definitions of the proofs *)

Import ReSem Tokens Readings Template.

(** The matcher state after [w] has been consumed with captures [c]. *)
Definition st_after (st : mstate) (w : str) (a : list char) (cs : list (nat * str)) : mstate :=
  MState (rev w ++ before st) a (cs ++ caps st).

(** *** A lazy class followed by a continuation

    What the continuation [K] yields once the class, captured as group [n],
    has taken [w]. *)
Definition after_class (K : regex) (n : nat) (b : list char) (cs : list (nat * str))
    (w : str) (rest : list char) : list (str * mstate) :=
  map (fun y => (w ++ y.1, y.2)) (run K (MState (rev w ++ b) rest ((n, w) :: cs))).

(** [K] finds nothing at the text [r], whatever came before. *)
Definition fail_at (K : regex) (r : list char) : Prop :=
  forall b cs, run K (MState b r cs) = [].

(** [K] finds nothing at any position inside [w] when [rest] follows. *)
Fixpoint all_suffixes_fail (K : regex) (w : str) (rest : list char) : Prop :=
  match w with
  | [] => True
  | c :: w' => fail_at K (c :: w' ++ rest) /\ all_suffixes_fail K w' rest
  end.

Definition s_gesucht : str := [103; 101; 115; 117; 99; 104; 116].

(** The end of the place pattern: [(?:\s+gesucht\b|$)] *)
Definition place_end : regex :=
  Alt (Rep is_space 1 None true >- Lit s_gesucht >- Bow) Eol.

(** The place pattern after the zip and its white space. *)
Definition loc_tail (table : char -> bool) : regex :=
  Cap 2 (Rep (city_char table) 1 None false) >- place_end.

(** Every word of [ws] preceded by a space. *)
Fixpoint sp_join (ws : list str) : str :=
  match ws with
  | [] => []
  | w :: ws' => 32 :: w ++ sp_join ws'
  end.

(** A word: not empty, no white space in it. *)
Definition plain_word (w : str) : Prop :=
  w <> [] /\ all_in (fun c => negb (is_space c)) w.

(** *** Text whose words are separated by single spaces *)

Definition next_not_space (r : str) : Prop :=
  match r with
  | [] => True
  | x :: _ => is_space x = false
  end.

Fixpoint single_spaced (s : str) : Prop :=
  match s with
  | [] => True
  | c :: r => (is_space c = false \/ (c = 32 /\ next_not_space r)) /\ single_spaced r
  end.

(** *** The canonical subject, character by character *)

Section Pieces.

Variables n1 d1 d2 m1 m2 y1 y2 y3 y4 h1 h2 i1 i2 z1 z2 z3 z4 z5 : char.
Variable ns : list char.
Variable town : str.

(** "ZZZZZ City gesucht" *)
Definition tail3 : str :=
  z1 :: z2 :: z3 :: z4 :: z5 :: 32 :: town ++ [32; 103; 101; 115; 117; 99; 104; 116].
(** "HH:MM Uhr in " and the rest *)
Definition tail2 : str :=
  h1 :: h2 :: 58 :: i1 :: i2 :: 32 :: 85 :: 104 :: 114 :: 32 :: 105 :: 110 :: 32 :: tail3.
(** "DD.MM.YYYY ab " and the rest *)
Definition tail1 : str :=
  d1 :: d2 :: 46 :: m1 :: m2 :: 46 :: y1 :: y2 :: y3 :: y4 :: 32 :: 97 :: 98 :: 32 :: tail2.
(** " Umzugshelfer am " and the rest *)
Definition head0 : str :=
  32 :: 85 :: 109 :: 122 :: 117 :: 103 :: 115 :: 104 :: 101 :: 108 :: 102 :: 101
    :: 114 :: 32 :: 97 :: 109 :: 32 :: tail1.
Definition whole : str := n1 :: ns ++ head0.

(** The words of the canonical subject. *)
Definition subject_words (city_words : list str) : list str :=
  (n1 :: ns) :: lit "Umzugshelfer" :: lit "am"
    :: [d1; d2; 46; m1; m2; 46; y1; y2; y3; y4] :: lit "ab"
    :: [h1; h2; 58; i1; i2] :: lit "Uhr" :: lit "in" :: [z1; z2; z3; z4; z5]
    :: city_words ++ [lit "gesucht"].

End Pieces.

(** *** Subjects the theorems are tried on *)

Definition record_A : JobRecord :=
  Job (lit "23.08.2025") (lit "15:00") (lit "58452") (lit "Witten").

Definition subject_alt : str :=
  Eval cbv in
    lit "2 Umzugshelfer am 23.08.2025 ab 15:00 Uhr in 58452 Alt gesucht Neu gesucht".

Definition subject_verify : str :=
  Eval cbv in lit "2 Umzugshelfer am 23.08.2025 ab 15:00 Uhr in 58452 Verify gesucht".

Definition subject_morgenitz : str :=
  Eval cbv in lit "2 Umzugshelfer am 23.08.2025 ab 15:00 Uhr in 17459 Morgenitz gesucht".

Definition subject_dash : str :=
  Eval cbv in lit "2 Umzugshelfer am 23.08.2025 ab 15:00 Uhr in 58452 -".
Definition subject_no_time : str :=
  Eval cbv in lit "Umzug am 23.08.2025 in 58452 Witten".
Definition subject_no_place : str :=
  Eval cbv in lit "2 Umzugshelfer am 23.08.2025 ab 15:00 Uhr gesucht".


(** * Further definitions: runs of the watcher *)

Module Polls.

Import Watcher.

(** The watcher after [n] polls that each find the message [uid] unread:
    the loop body of the watcher with retry counters, run [n] times. *)
Definition polls (fetchSubject : N -> outcome str)
    (jobHandler : JobRecord -> outcome HandlerReturn)
    (addSeenFlag : N -> outcome unit) (n : nat) (uid : N) (w : Watcher) : Watcher :=
  Nat.iter n (fun w => snd (process_uid fetchSubject jobHandler addSeenFlag uid w)) w.

(** Environments to try the theorems on. *)
Definition subject_unreadable : N -> outcome str := fun _ => Returned (lit "Hallo").
Definition handler_ok : JobRecord -> outcome HandlerReturn :=
  fun details => Returned (Some (Some (MkResults [jobKey_of details] []))).

(** A server that fails on message 5 and delivers the subject of scenario A
    for every other message. *)
Definition subject_fails_on_5 : N -> outcome str :=
  fun uid => if uid =? 5 then Thrown (lit "connection lost") else Returned scenario_A.

End Polls.

(** * Further definitions: the books of the service *)

Module Ledger.

Import Service.

(** The batches that [handleNewJobs] was called with from outside and did
    not ignore. *)
Fixpoint submitted (evs : list event) : list (list str) :=
  match evs with
  | [] => []
  | Call (Some (j :: ids)) :: rest => (j :: ids) :: submitted rest
  | _ :: rest => submitted rest
  end.

Definition terminal_ids (t : terminal) : list str :=
  match t with
  | Completed ids _ => ids
  | Failed ids _ => ids
  end.

(** Where a batch can be: in flight, waiting on a timer, or finished. *)
Definition accounted (s : Service) : list (list str) :=
  map act_jobIds (in_flight s) ++ timers s ++ map terminal_ids (finished s).

(** What an activation has added to the statistics so far. *)
Definition tally_phase (ids : list str) (p : phase) : Stats :=
  match p with
  | AwaitProcessJobs => MkStats 0 0 0
  | AwaitSuccessMail r => MkStats (length ids) (length (successful r)) (length (failed r))
  | AwaitErrorMail _ => MkStats 0 0 (length ids)
  end.

Definition tally_terminal (t : terminal) : Stats :=
  match t with
  | Completed ids r => MkStats (length ids) (length (successful r)) (length (failed r))
  | Failed ids _ => MkStats 0 0 (length ids)
  end.

Definition add_stats (a b : Stats) : Stats :=
  MkStats (totalJobsProcessed a + totalJobsProcessed b)
          (successCount a + successCount b) (failCount a + failCount b).

Definition sum_stats (l : list Stats) : Stats := foldr add_stats (MkStats 0 0 0) l.

Definition tally_activation (a : Activation) : Stats :=
  tally_phase (act_jobIds a) (act_phase a).

(** The statistics as the batches account for them: the jobs of every
    batch whose processJobs returned, the successes and failures it
    reported, and as failures all jobs of every batch whose processJobs
    threw. *)
Definition tally (s : Service) : Stats :=
  add_stats (sum_stats (map tally_activation (in_flight s)))
            (sum_stats (map tally_terminal (finished s))).

Definition books_agree (s : Service) : Prop := stats s = tally s.

(** Every pending timer holds a batch that is not empty. *)
Definition timers_hold_batches (s : Service) : Prop :=
  Forall (fun ids => ids <> []) (timers s).

End Ledger.

(** * Further definitions: white space *)

Module Space.

Fixpoint take_while (p : char -> bool) (s : str) : str :=
  match s with
  | [] => []
  | c :: r => if p c then c :: take_while p r else []
  end.

(** [s.replace(/\s+/g, " ").trim()], the first step of every parser and
    normaliser of the program. *)
Definition normalise (s : str) : str := trim (replace_all rx_ws [32] s).

(** Scenario A with tabs, a no-break space, doubled spaces and white space
    around it. *)
Definition scenario_A_spaced : str :=
  [32; 9] ++ lit "2" ++ [160] ++ lit "Umzugshelfer  am" ++ [9]
    ++ lit "23.08.2025 ab   15:00 Uhr in 58452" ++ [10] ++ lit "Witten gesucht  ".

End Space.

(** * Further definitions: the shape of a job record *)

Module Shape.

Import ReSem Tokens.

(** "DD.MM." and a year *)
Definition date_parts (d dd mm yyyy : str) : Prop :=
  d = dd ++ [46] ++ mm ++ [46] ++ yyyy /\ n_digits 2 dd /\ n_digits 2 mm /\ digits yyyy.

(** "HH:MM" *)
Definition time_shape (t : str) : Prop :=
  exists hh mi, t = hh ++ [58] ++ mi /\ n_digits 2 hh /\ n_digits 2 mi.

(** "DD.MM.YYYY" *)
Definition date_shape (d : str) : Prop :=
  exists dd mm yyyy, date_parts d dd mm yyyy /\ length yyyy = 4%nat.

(** A date as the subject has it: "D.M.YYYY", day and month of one or two
    digits. *)
Definition date_as_written (d : str) : Prop :=
  exists dd mm yyyy, d = dd ++ [46] ++ mm ++ [46] ++ yyyy /\
    one_or_two_digits dd /\ one_or_two_digits mm /\ n_digits 4 yyyy.

(** What the time block of the subject parser holds after each of its
    steps: nothing yet, or an hour of one or two digits and minutes of two
    digits. *)
Definition time_block (hm : option str * option str) : Prop :=
  hm = (None, None) \/
  exists h m, hm = (Some h, Some m) /\ one_or_two_digits h /\ n_digits 2 m.

End Shape.

(** * The normalisers of the details-only service (the listing of app.js
      that requires automator-simple-new and email-watcher-smtp-new)

    The fields of a job record are strings here, as the watcher delivers
    them. *)

Module Normalize.

Import Space.

(** [s.replace(re, "$n")] with the [g] flag: as [replace_all_from], the
    replacement being read off the captures of each match. *)
Fixpoint replace_all_with (r : regex) (repl : list (nat * str) -> str) (skip : nat)
    (pre_rev rest : list char) : str :=
  match skip with
  | S k =>
    match rest with
    | [] => []
    | c :: rest' => replace_all_with r repl k (c :: pre_rev) rest'
    end
  | O =>
    match run r (MState pre_rev rest []) with
    | [] =>
      match rest with
      | [] => []
      | c :: rest' => c :: replace_all_with r repl O (c :: pre_rev) rest'
      end
    | (w, st) :: _ =>
      repl (caps st) ++
      match rest with
      | [] => []
      | c :: rest' =>
        match w with
        | [] => c :: replace_all_with r repl O (c :: pre_rev) rest'
        | _ :: w' => replace_all_with r repl (length w') (c :: pre_rev) rest'
        end
      end
    end
  end.

(** ["$1"] *)
Definition dollar1 (cs : list (nat * str)) : str :=
  match assoc 1 cs with Some w => w | None => [] end.

(** [/(\d)\s+(?=\d)/g]; the lookahead [(?=\d)] is written as the negation
    of [(?!\d)], which matches at the same places and captures nothing. *)
Definition rx_heal : regex :=
  Cap 1 (Cls is_digit) >- Rep is_space 1 None true
    >- NotAhead (NotAhead (Cls is_digit)).

(** [[.:]] *)
Definition dot_or_colon (c : char) : bool := (46 =? c) || (58 =? c).

(** [/^(\d{1,2})[.:](\d{2})$/] *)
Definition rx_hm : regex := Bol >- Cap 1 d12 >- Cls dot_or_colon >- Cap 2 d2 >- Eol.
(** [/^(\d{1,2})$/] *)
Definition rx_h : regex := Bol >- Cap 1 d12 >- Eol.
(** [/^(\d{2}):(\d{2})$/] *)
Definition rx_hhmm : regex := Bol >- Cap 1 d2 >- colon >- Cap 2 d2 >- Eol.
(** [/^(\d{1,2})\.(\d{1,2})\.(\d{4})$/] *)
Definition rx_dmy : regex :=
  Bol >- Cap 1 d12 >- dot >- Cap 2 d12 >- dot >- Cap 3 d4 >- Eol.
(** [/^\d{5}$/] *)
Definition rx_zip : regex := Bol >- d5 >- Eol.

(** [normalizeTime(raw)] *)
Definition normalizeTime (raw : str) : option str :=
  match raw with
  | [] => None
  | _ =>
    let t := normalise raw in
    let t := replace_all_with rx_heal dollar1 O [] t in
    match exec rx_hm t with
    | Some m => Some (z2 (group 1 m) ++ [58] ++ group 2 m)
    | None =>
      match exec rx_h t with
      | Some m => Some (z2 (group 1 m) ++ lit ":00")
      | None =>
        match exec rx_hhmm t with
        | Some m => Some (group 1 m ++ [58] ++ group 2 m)
        | None => None
        end
      end
    end
  end.

(** The text [normalizeTime] matches its patterns on. *)
Definition healed (raw : str) : str :=
  replace_all_with rx_heal dollar1 O [] (normalise raw).

(** [normalizeDate(raw)] *)
Definition normalizeDate (raw : str) : option str :=
  match raw with
  | [] => None
  | _ =>
    let d := trim (replace_all rx_ws [] raw) in
    match exec rx_dmy d with
    | Some m => Some (z2 (group 1 m) ++ [46] ++ z2 (group 2 m) ++ [46] ++ group 3 m)
    | None => None
    end
  end.

(** [normalizeZip(raw)] *)
Definition normalizeZip (raw : str) : option str :=
  let z := trim raw in
  if test rx_zip z then Some z else None.

(** [normalizeCity(raw)] *)
Definition normalizeCity (raw : str) : str := normalise raw.

(** [normalizeDetails(details)], for a details object that is there. *)
Definition normalizeDetails (details : JobRecord) : option JobRecord :=
  let date := normalizeDate (date details) in
  let time := normalizeTime (time details) in
  let zip := normalizeZip (zip details) in
  let city := normalizeCity (city details) in
  if negb (truthy date) || negb (truthy time) || negb (truthy zip) then None
  else Some (Job (default [] date) (default [] time) (default [] zip) city).

End Normalize.

(** * The details-only service: [handleNewJob] and its queue

    The activations of [handleNewJob] interleave at their [await]s, so the
    service is a transition system again: a call runs to its first [await],
    and the automator, the notification mails, the one-second timers of
    [processQueuedJobs] and the cleaning interval come back as events.  The
    clock readings of a reply ([responseTime], [timestamp]) and the
    [startTime] of a queue entry are left out; nothing reads them. *)

Module Details.

Import Normalize.

Record Stats := MkStats {
  totalJobsProcessed : nat;
  successCount : nat;
  failCount : nat
}.

(** Where an activation that has set the flag is suspended. *)
Inductive phase :=
| AwaitApply                      (* await this.automator.applyToJobByDetails(norm) *)
| AwaitSuccessMail                (* await sendSuccessNotification(...) *)
| AwaitErrorMail (e : str).       (* in the catch block: await sendErrorNotification(...) *)

Record Activation := MkActivation {
  act_norm : JobRecord;
  act_phase : phase
}.

(** What a call of [handleNewJob] settles with. *)
Inductive reply :=
| Resolved (results : Results) (queued : bool) (error : option str)
| Rejected (e : str).

Record Service := MkService {
  isProcessing : bool;
  processedJobs : JsSet;
  jobQueue : list JobRecord;        (* the jobDetails of the entries *)
  stats : Stats;
  in_flight : list Activation;      (* activations inside the try block *)
  timers : list JobRecord;          (* pending setTimeout(() => handleNewJob(...), 1000) *)
  applied : list JobRecord;         (* the calls of applyToJobByDetails made so far *)
  replies : list reply              (* the calls that have settled, oldest first *)
}.

Definition init : Service :=
  MkService false [] [] (MkStats 0 0 0) [] [] [] [].

Inductive event :=
| Call (jobDetails : option JobRecord)     (* handleNewJob(jobDetails) is called *)
| TimerFires (i : nat)                     (* the i-th pending timer runs its callback *)
| ApplySettles (i : nat) (r : outcome bool)
                                           (* applyToJobByDetails of activation i settles *)
| MailSettles (i : nat) (r : outcome unit) (* its notification mail settles *)
| Cleanup.                                 (* the interval runs cleanupProcessedJobs *)

Definition answer (r : reply) (s : Service) : Service :=
  MkService (isProcessing s) (processedJobs s) (jobQueue s) (stats s) (in_flight s)
            (timers s) (applied s) (replies s ++ [r]).

Definition invalid_details : reply :=
  Resolved (MkResults [] [lit "INVALID_DETAILS"]) false None.

(** [handleNewJob] from its first line to its first [await]. *)
Definition enter (jobDetails : option JobRecord) (s : Service) : Service :=
  match jobDetails ≫= normalizeDetails with
  | None => answer invalid_details s
  | Some norm =>
    let jobKey := jobKey_of norm in
    if set_has jobKey (processedJobs s) then
      answer (Resolved (MkResults [jobKey] []) false None) s
    else
      let processed := set_add jobKey (processedJobs s) in
      if isProcessing s then
        answer (Resolved (MkResults [] []) true None)
          (MkService (isProcessing s) processed (jobQueue s ++ [norm]) (stats s)
                     (in_flight s) (timers s) (applied s) (replies s))
      else
        MkService true processed (jobQueue s) (stats s)
                  (in_flight s ++ [MkActivation norm AwaitApply]) (timers s)
                  (applied s ++ [norm]) (replies s)
  end.

(** [processQueuedJobs()]: it has no [await], so it runs in one piece. *)
Definition processQueuedJobs (s : Service) : Service :=
  match jobQueue s with
  | nextJob :: rest =>
    if negb (isProcessing s) then
      MkService (isProcessing s) (processedJobs s) rest (stats s) (in_flight s)
                (timers s ++ [nextJob]) (applied s) (replies s)
    else s
  | [] => s
  end.

(** The [finally] block, and the activation settles. *)
Definition leave (i : nat) (r : reply) (s : Service) : Service :=
  answer r
    (processQueuedJobs
       (MkService false (processedJobs s) (jobQueue s) (stats s) (delete i (in_flight s))
                  (timers s) (applied s) (replies s))).

Definition set_phase (i : nat) (a : Activation) (st : Stats) (s : Service) : Service :=
  MkService (isProcessing s) (processedJobs s) (jobQueue s) st (<[i := a]> (in_flight s))
            (timers s) (applied s) (replies s).

Definition fail_once (st : Stats) : Stats :=
  MkStats (totalJobsProcessed st) (successCount st) (failCount st + 1).

(** [cleanupProcessedJobs()] *)
Definition cleanupProcessedJobs (processedJobs : JsSet) : JsSet :=
  if (1000 <? length processedJobs)%nat then
    let jobsArray := processedJobs in
    foldl (fun acc job => set_add job acc) [] (slice_last 500 jobsArray)
  else processedJobs.

Definition step (s : Service) (ev : event) : Service :=
  match ev with
  | Call jobDetails => enter jobDetails s
  | TimerFires i =>
    match timers s !! i with
    | Some nextJob =>
      enter (Some nextJob)
        (MkService (isProcessing s) (processedJobs s) (jobQueue s) (stats s) (in_flight s)
                   (delete i (timers s)) (applied s) (replies s))
    | None => s
    end
  | ApplySettles i r =>
    match in_flight s !! i with
    | Some (MkActivation norm AwaitApply) =>
      let jobKey := jobKey_of norm in
      match r with
      | Returned success =>
        let results := MkResults (if success then [jobKey] else [])
                                 (if success then [] else [jobKey]) in
        let st := MkStats (totalJobsProcessed (stats s) + 1)
                          (successCount (stats s) + length (successful results))
                          (failCount (stats s) + length (failed results)) in
        if (0 <? length (successful results))%nat then
          set_phase i (MkActivation norm AwaitSuccessMail) st s
        else
          leave i (Resolved results false None)
            (MkService (isProcessing s) (processedJobs s) (jobQueue s) st (in_flight s)
                       (timers s) (applied s) (replies s))
      | Thrown e =>
        set_phase i (MkActivation norm (AwaitErrorMail e)) (fail_once (stats s)) s
      end
    | _ => s
    end
  | MailSettles i r =>
    match in_flight s !! i with
    | Some (MkActivation norm AwaitSuccessMail) =>
      match r with
      | Returned _ => leave i (Resolved (MkResults [jobKey_of norm] []) false None) s
      | Thrown e =>
        set_phase i (MkActivation norm (AwaitErrorMail e)) (fail_once (stats s)) s
      end
    | Some (MkActivation norm (AwaitErrorMail e)) =>
      match r with
      | Returned _ => leave i (Resolved (MkResults [] [jobKey_of norm]) false (Some e)) s
      | Thrown e' => leave i (Rejected e') s
      end
    | _ => s
    end
  | Cleanup =>
    MkService (isProcessing s) (cleanupProcessedJobs (processedJobs s)) (jobQueue s)
              (stats s) (in_flight s) (timers s) (applied s) (replies s)
  end.

Definition run_events (s : Service) (evs : list event) : Service :=
  foldl step s evs.

(** The service with one timer gone and one more reply, and nothing else
    changed. *)
Definition timer_dropped (i : nat) (r : reply) (s : Service) : Service :=
  MkService (isProcessing s) (processedJobs s) (jobQueue s) (stats s) (in_flight s)
            (delete i (timers s)) (applied s) (replies s ++ [r]).

(** As many activations are in flight as the flag says: one or none. *)
Definition single_flight (s : Service) : Prop :=
  length (in_flight s) = if isProcessing s then 1%nat else 0%nat.

(** The keys of the jobs the automator was called for. *)
Definition applied_keys (s : Service) : list JobKey :=
  map jobKey_of (applied s).

(** The key of every job that waits or was applied for is in the set. *)
Definition keys_remembered (s : Service) : Prop :=
  Forall (fun n => jobKey_of n ∈ processedJobs s) (jobQueue s ++ timers s ++ applied s).

(** The jobs that wait are normalised. *)
Definition waiting_normal (s : Service) : Prop :=
  Forall (fun n => normalizeDetails n = Some n) (jobQueue s ++ timers s).

(** What holds of the service after at most [n] events, while the set has
    not grown past what the cleaning keeps. *)
Definition settled (n : nat) (s : Service) : Prop :=
  keys_remembered s /\ waiting_normal s /\ NoDup (applied_keys s) /\
  (length (processedJobs s) <= n)%nat.

(** Two jobs for the canonical subject's day, one hour apart. *)
Definition job_at_ten : JobRecord :=
  Job (lit "03.08.2025") (lit "10:00") (lit "58452") (lit "Witten").
Definition job_at_eleven : JobRecord :=
  Job (lit "3.8.2025") (lit "11") (lit "58452") (lit "Witten").

End Details.

(** * The watcher that reads job ids (email-watcher-smtp.js) *)

Module IdWatcher.

Import Watcher.

(** [for (const m of s.matchAll(re)) ... m[n]]: the text of group [n] of
    every match of a pattern with the [g] flag, in order.  [skip] counts the
    characters still covered by the match found last. *)
Fixpoint match_all_from (r : regex) (n : nat) (skip : nat)
    (pre_rev rest : list char) : list str :=
  match skip with
  | S k =>
    match rest with
    | [] => []
    | c :: rest' => match_all_from r n k (c :: pre_rev) rest'
    end
  | O =>
    match run r (MState pre_rev rest []) with
    | [] =>
      match rest with
      | [] => []
      | c :: rest' => match_all_from r n O (c :: pre_rev) rest'
      end
    | (w, st) :: _ =>
      match assoc n (caps st) with Some g => g | None => [] end ::
      match rest with
      | [] => []
      | c :: rest' =>
        match w with
        | [] => match_all_from r n O (c :: pre_rev) rest'
        | _ :: w' => match_all_from r n (length w') (c :: pre_rev) rest'
        end
      end
    end
  end.

Definition match_all (r : regex) (n : nat) (s : str) : list str :=
  match_all_from r n O [] s.

(** [[\s:–-]] *)
Definition id_sep (c : char) : bool :=
  is_space c || (c =? 58) || (c =? 8211) || (c =? 45).

(** [\d{4,7}] *)
Definition d4_7 : regex := Rep is_digit 4 (Some 7%nat) true.

(** [/(?:\bID[\s:–-]*|#)(\d{4,7})\b/gi] *)
Definition rx_id : regex :=
  Alt (Bow >- LitCI (lit "ID") >- Rep id_sep 0 None true) (Chr 35)
    >- Cap 1 d4_7 >- Bow.

(** [/studenten-umzugshilfe\.com\/(?:job|jobs)\/(\d{4,7})/gi] *)
Definition rx_url : regex :=
  LitCI (lit "studenten-umzugshilfe") >- Chr 46 >- LitCI (lit "com") >- Chr 47
    >- Alt (LitCI (lit "job")) (LitCI (lit "jobs")) >- Chr 47 >- Cap 1 d4_7.

(** What [extractJobIdsFromEmail] makes of the text it has fetched: the ids
    of both patterns, added to a [Set] in turn. *)
Definition extractJobIds (buffer : str) : list str :=
  let ids := foldl (fun acc id => set_add id acc) [] (match_all rx_id 1 buffer) in
  foldl (fun acc id => set_add id acc) ids (match_all rx_url 1 buffer).

Section WithServer.

Variable fetchText : N -> outcome str.           (* subject and text of a message *)
Variable jobHandler : list str -> outcome unit.
Variable addSeenFlag : N -> outcome unit.

(** The body of the [for (const uid of uids)] loop. *)
Definition process_uid_ids (uid : N) : M Watcher unit :=
  try_catch
    (do buffer <- lift (fetchText uid);
     let jobIds := extractJobIds buffer in
     (if (0 <? length jobIds)%nat then lift (jobHandler jobIds) else ret tt);;
     markAsRead addSeenFlag uid)
    (fun _ => ret tt).

(** [checkForNewEmails] from the search result on. *)
Definition checkForNewEmails_ids (uids : list N) : M Watcher unit :=
  for_each process_uid_ids uids.

(** The watcher after [n] polls that each find the message [uid] unread. *)
Definition polls_ids (n : nat) (uid : N) (w : Watcher) : Watcher :=
  Nat.iter n (fun w => snd (process_uid_ids uid w)) w.

End WithServer.

(** A server whose every message is a greeting without a job id. *)
Definition text_without_ids : N -> outcome str := fun _ => Returned (lit "Hallo").

(** A mail with an id after "ID:", the same id after "#", and a link. *)
Definition mail_with_ids : str :=
  lit "Job ID: 49768 (#49768) https://www.studenten-umzugshilfe.com/jobs/51234".

End IdWatcher.

(** * Facts about the matcher *)

Lemma elem_of_either {A} (g : bool) (l1 l2 : list A) x :
  x ∈ (if g then l1 ++ l2 else l2 ++ l1) <-> x ∈ l1 \/ x ∈ l2.
Proof. destruct g; rewrite elem_of_app; tauto. Qed.

Lemma rep_stop_spec lo hi (input w rest : list char) p :
  (w, rest) ∈ (match lo with O => [([], input)] | S _ => [] end
                 : list (str * list char)) <->
  w = [] /\ input = w ++ rest /\ all_in p w /\ within lo hi (length w).
Proof.
  unfold within, all_in. destruct lo.
  - rewrite list_elem_of_singleton. split.
    + intros [= -> ->]. split_and!; try done. destruct hi; simpl; [lia|done].
    + intros (-> & -> & _). done.
  - rewrite elem_of_nil. split; [done|]. intros (-> & _ & _ & H & _). simpl in H. lia.
Qed.

Lemma rep_choices_spec p greedy input : forall lo hi w rest,
  (w, rest) ∈ rep_choices p lo hi greedy input <->
  input = w ++ rest /\ all_in p w /\ within lo hi (length w).
Proof.
  induction input as [|c input IH]; intros lo hi w rest.
  - cbn [rep_choices]. rewrite elem_of_either, (rep_stop_spec lo hi [] w rest p).
    split.
    + intros [H|H]; [|tauto]. destruct hi as [[|]|]; by apply elem_of_nil in H.
    + intros (Hin & Hall & Hw). right. split; [|done].
      symmetry in Hin. by apply app_eq_nil in Hin as [-> ->].
  - cbn [rep_choices]. rewrite elem_of_either, (rep_stop_spec lo hi (c :: input) w rest p).
    split.
    + intros [H|H]; [|tauto].
      assert (H' : p c = true /\ hi <> Some O /\
                (w, rest) ∈ map (fun wr => (c :: wr.1, wr.2))
                  (rep_choices p (Nat.pred lo) (nat_pred_opt hi) greedy input)).
      { destruct hi as [[|h]|]; [by apply elem_of_nil in H| |];
          (destruct (p c); [done|by apply elem_of_nil in H]). }
      clear H. destruct H' as (Hc & Hhi & H).
      apply list_elem_of_fmap in H as ([w' r'] & [= -> ->] & H).
      apply IH in H as (-> & Hall & Hlo & Hh). simpl in *.
      split_and!; [done|by constructor|]. unfold within. simpl. split; [lia|].
      destruct hi as [[|h]|]; simpl in *; [done|lia|done].
    + intros (Hin & Hall & [Hlo Hhi]). destruct w as [|c' w].
      * right. done.
      * left. simpl in Hin. injection Hin as <- ->.
        apply Forall_cons in Hall as [Hc Hall]. unfold within in *. simpl in Hlo, Hhi.
        assert (H : (c :: w, rest) ∈ map (fun wr => (c :: wr.1, wr.2))
                  (rep_choices p (Nat.pred lo) (nat_pred_opt hi) greedy (w ++ rest))).
        { apply list_elem_of_fmap. exists (w, rest). split; [done|].
          apply IH. split_and!; [done|done|lia|].
          destruct hi as [[|h]|]; simpl in *; lia || done. }
        destruct hi as [[|h]|]; [lia| |]; by rewrite Hc.
Qed.

Lemma st_after_nil st : st_after st [] (after st) [] = st.
Proof. by destruct st. Qed.

Lemma elem_of_flat_map {A B} (f : A -> list B) (l : list A) (y : B) :
  y ∈ flat_map f l <-> exists x, x ∈ l /\ y ∈ f x.
Proof.
  rewrite list_elem_of_In, in_flat_map. split; intros (x & H1 & H2); exists x;
    by rewrite ?list_elem_of_In in *.
Qed.

Lemma run_spec r : forall st w st',
  (w, st') ∈ run r st <->
  exists a cs, st' = st_after st w a cs /\ after st = w ++ a /\
               semc r (before st) w a cs.
Proof.
  induction r as [|p|p lo hi g|r IH|x IHx y IHy|x IHx y IHy|n r IH| | | |r IH];
    intros st w st'; cbn [run semc].
  - rewrite list_elem_of_singleton. split.
    + intros [= -> ->]. exists (after st), []. by rewrite st_after_nil.
    + intros (a & cs & -> & E & -> & ->). simpl in E. subst a. by rewrite st_after_nil.
  - destruct st as [b af c]. simpl. split.
    + destruct af as [|ch rest]; [by intros H%elem_of_nil|].
      destruct (p ch) eqn:Hp; [|by intros H%elem_of_nil].
      intros [= -> ->]%list_elem_of_singleton. exists rest, []. split_and!; try done.
      exists ch. done.
    + intros (a & cs & -> & -> & (ch & -> & Hp) & ->). simpl. rewrite Hp.
      by apply list_elem_of_singleton.
  - rewrite list_elem_of_fmap. split.
    + intros ([w' rest] & [= -> ->] & H). apply rep_choices_spec in H as (E & Hall & Hw).
      exists rest, []. split_and!; try done.
      unfold consume, st_after. simpl. by rewrite rev_append_rev.
    + intros (a & cs & -> & E & Hall & Hw & ->). exists (w, a). split.
      * unfold consume, st_after. simpl. by rewrite rev_append_rev.
      * apply rep_choices_spec. done.
  - rewrite elem_of_app, IH, list_elem_of_singleton. split.
    + intros [(a & cs & H1 & H2 & H3)|[= -> ->]].
      * exists a, cs. split_and!; try done. by left.
      * exists (after st), []. rewrite st_after_nil. split_and!; try done. by right.
    + intros (a & cs & -> & E & [H|[-> ->]]).
      * left. by exists a, cs.
      * right. simpl in E. subst a. by rewrite st_after_nil.
  - rewrite elem_of_flat_map. split.
    + intros ([w1 st1] & H1 & H2). apply IHx in H1 as (a1 & c1 & -> & E1 & S1).
      apply list_elem_of_fmap in H2 as ([w2 st2] & [= -> ->] & H2).
      apply IHy in H2 as (a2 & c2 & -> & E2 & S2). simpl in *. subst a1.
      exists a2, (c2 ++ c1). split_and!.
      * unfold st_after. simpl. by rewrite rev_app_distr, <- !app_assoc.
      * by rewrite E1, <- app_assoc.
      * exists w1, w2, c1, c2. done.
    + intros (a & cs & -> & E & (w1 & w2 & c1 & c2 & -> & -> & S1 & S2)).
      exists (w1, st_after st w1 (w2 ++ a) c1). split.
      * apply IHx. exists (w2 ++ a), c1. split_and!; try done. by rewrite E, <- app_assoc.
      * apply list_elem_of_fmap. exists (w2, st_after (st_after st w1 (w2 ++ a) c1) w2 a c2).
        split.
        -- unfold st_after. simpl. by rewrite rev_app_distr, <- !app_assoc.
        -- apply IHy. exists a, c2. done.
  - rewrite elem_of_app, IHx, IHy. split.
    + intros [(a & cs & H1 & H2 & H3)|(a & cs & H1 & H2 & H3)]; exists a, cs; tauto.
    + intros (a & cs & H1 & H2 & [H3|H3]); [left|right]; by exists a, cs.
  - rewrite list_elem_of_fmap. split.
    + intros ([w' st1] & [= Hw Hst] & H). simpl in *. subst w' st'.
      apply IH in H as (a & cs & -> & E & S).
      exists a, ((n, w) :: cs). split_and!; try done. by exists cs.
    + intros (a & cs & -> & E & (c' & -> & S)).
      exists (w, st_after st w a c'). split; [done|]. apply IH. by exists a, c'.
  - unfold at_boundary. split.
    + destruct (xorb _ _) eqn:Hx; [|by intros H%elem_of_nil].
      intros [= -> ->]%list_elem_of_singleton.
      exists (after st), []. by rewrite st_after_nil.
    + intros (a & cs & -> & E & -> & -> & Hx). simpl in E. subst a.
      rewrite Hx. rewrite st_after_nil. by apply list_elem_of_singleton.
  - split.
    + destruct (before st) eqn:Hb; [|by intros H%elem_of_nil].
      intros [= -> ->]%list_elem_of_singleton.
      exists (after st), []. by rewrite st_after_nil.
    + intros (a & cs & -> & E & -> & -> & Hb). simpl in E. subst a.
      rewrite Hb. rewrite st_after_nil. by apply list_elem_of_singleton.
  - split.
    + destruct st as [b af c]; simpl. destruct af; [|by intros H%elem_of_nil].
      intros [= -> ->]%list_elem_of_singleton. by exists [], [].
    + intros (a & cs & -> & E & -> & -> & ->). destruct st as [b af c]; simpl in *.
      subst af. by apply list_elem_of_singleton.
  - split.
    + destruct (run r st) as [|[w1 st1] l] eqn:Hr; [|by intros H%elem_of_nil].
      intros [= -> ->]%list_elem_of_singleton.
      exists (after st), []. rewrite st_after_nil. split_and!; try done.
      intros w' a' c' E S.
      assert (H : (w', st_after st w' a' c') ∈ run r st) by (apply IH; by exists a', c').
      rewrite Hr in H. by apply elem_of_nil in H.
    + intros (a & cs & -> & E & -> & -> & Hno). simpl in E. subst a.
      destruct (run r st) as [|[w1 st1] l] eqn:Hr.
      * rewrite st_after_nil. by apply list_elem_of_singleton.
      * exfalso. assert (H : (w1, st1) ∈ run r st) by (rewrite Hr; left).
        apply IH in H as (a & cs & -> & E & S). by apply (Hno w1 a cs).
Qed.

Lemma exec_from_some r : forall rest pre m,
  exec_from r pre rest = Some m ->
  exists p1, m_pre m = rev pre ++ p1 /\ rest = p1 ++ m_all m ++ m_post m /\
             semc r (rev p1 ++ pre) (m_all m) (m_post m) (m_caps m).
Proof.
  induction rest as [|c rest IH]; intros pre m; cbn [exec_from].
  - destruct (run r (MState pre [] [])) as [|[w st] l] eqn:Hr; [done|].
    intros [= <-]. assert (H : (w, st) ∈ run r (MState pre [] [])) by (rewrite Hr; left).
    apply run_spec in H as (a & cs & -> & E & S). simpl in *.
    exists []. rewrite !app_nil_r. done.
  - destruct (run r (MState pre (c :: rest) [])) as [|[w st] l] eqn:Hr.
    + intros H. apply IH in H as (p1 & E1 & E2 & S).
      exists (c :: p1). simpl in *. rewrite <- !app_assoc in *. simpl in *.
      split_and!; [done|by f_equal|done].
    + intros [= <-]. assert (H : (w, st) ∈ run r (MState pre (c :: rest) [])) by (rewrite Hr; left).
      apply run_spec in H as (a & cs & -> & E & S). simpl in *.
      exists []. rewrite !app_nil_r. done.
Qed.

Lemma exec_from_none r : forall rest pre,
  exec_from r pre rest = None ->
  forall p1 w a cs, rest = p1 ++ w ++ a -> ~ semc r (rev p1 ++ pre) w a cs.
Proof.
  induction rest as [|c rest IH]; intros pre; cbn [exec_from].
  - destruct (run r (MState pre [] [])) as [|[w st] l] eqn:Hr; [|done].
    intros _ p1 w a cs E S. symmetry in E.
    apply app_eq_nil in E as [-> E]. simpl in S.
    assert (H : (w, st_after (MState pre [] []) w a cs) ∈ run r (MState pre [] [])).
    { apply run_spec. exists a, cs. done. }
    rewrite Hr in H. by apply elem_of_nil in H.
  - destruct (run r (MState pre (c :: rest) [])) as [|[w st] l] eqn:Hr; [|done].
    intros Hn p1 w a cs E S. destruct p1 as [|c' p1].
    + simpl in *.
      assert (H : (w, st_after (MState pre (c :: rest) []) w a cs)
                    ∈ run r (MState pre (c :: rest) [])).
      { apply run_spec. exists a, cs. done. }
      rewrite Hr in H. by apply elem_of_nil in H.
    + simpl in E. injection E as <- E.
      apply (IH _ Hn p1 w a cs E). simpl in S. by rewrite <- app_assoc in S.
Qed.

Lemma exec_some r s m :
  exec r s = Some m ->
  s = m_pre m ++ m_all m ++ m_post m /\
  semc r (rev (m_pre m)) (m_all m) (m_post m) (m_caps m).
Proof.
  intros H. apply exec_from_some in H as (p1 & E1 & E2 & S). simpl in E1.
  subst p1. rewrite app_nil_r in S. done.
Qed.

Lemma exec_none_iff r s : exec r s = None <-> ~ occurs r s.
Proof.
  split.
  - intros H (p & w & a & cs & E & S).
    apply (exec_from_none r s [] H p w a cs E). by rewrite app_nil_r.
  - intros H. destruct (exec r s) as [m|] eqn:E; [|done].
    exfalso. apply H. apply exec_some in E as [E S].
    by exists (m_pre m), (m_all m), (m_post m), (m_caps m).
Qed.

Lemma test_false_iff r s : test r s = false <-> ~ occurs r s.
Proof.
  unfold test. rewrite <- exec_none_iff. destruct (exec r s); split; done.
Qed.

(** * The patterns of the parser and the tokens they find *)

Ltac eval_lits :=
  repeat match goal with
  | |- context [lit ?s] =>
    let v := eval vm_compute in (lit s) in change (lit s) with v
  | H : context [lit ?s] |- _ =>
    let v := eval vm_compute in (lit s) in change (lit s) with v in H
  end.

Ltac break :=
  repeat match goal with
  | H : exists _, _ |- _ => destruct H as [? H]
  | H : _ /\ _ |- _ => destruct H as [? ?]
  | H : _ \/ _ |- _ => destruct H as [H|H]
  | H : (_ =? _) = true |- _ => apply N.eqb_eq in H
  end; subst.

(** *** Character facts *)

Lemma is_digit_cases c :
  is_digit c = true ->
  c = 48 \/ c = 49 \/ c = 50 \/ c = 51 \/ c = 52 \/ c = 53 \/ c = 54 \/ c = 55
  \/ c = 56 \/ c = 57.
Proof.
  unfold is_digit, in_range. rewrite andb_true_iff, !N.leb_le. lia.
Qed.

Lemma digit_fact (f : char -> bool) (v : bool) :
  forallb (fun c => eqb (f c) v) [48; 49; 50; 51; 52; 53; 54; 55; 56; 57] = true ->
  forall c, is_digit c = true -> f c = v.
Proof.
  intros H c Hc. simpl in H. rewrite !andb_true_iff in H.
  destruct H as (H0 & H1 & H2 & H3 & H4 & H5 & H6 & H7 & H8 & H9 & _).
  apply is_digit_cases in Hc.
  repeat (destruct Hc as [-> | Hc]; [by apply eqb_prop|]). subst. by apply eqb_prop.
Qed.

Lemma is_digit_word c : is_digit c = true -> is_word c = true.
Proof. apply digit_fact. reflexivity. Qed.

Lemma eq_ci_inv p c : eq_ci p c = true -> c = p \/ c = other_case p.
Proof. unfold eq_ci. rewrite orb_true_iff, !N.eqb_eq. tauto. Qed.

Lemma eq_ci_word p c :
  is_word p = true -> is_word (other_case p) = true -> eq_ci p c = true ->
  is_word c = true.
Proof. intros H1 H2 [-> | ->]%eq_ci_inv; done. Qed.

Lemma word_at_rev_digits w b :
  all_in is_digit w -> w <> [] -> word_at (rev w ++ b) = true.
Proof.
  intros Hall Hne. destruct (rev w) as [|c l] eqn:E.
  - apply (f_equal (@rev _)) in E. rewrite rev_involutive in E. done.
  - simpl. apply is_digit_word.
    assert (Hc : c ∈ w).
    { apply list_elem_of_In, in_rev. rewrite E. left. done. }
    unfold all_in in Hall. rewrite Forall_forall in Hall. by apply Hall.
Qed.

Lemma word_at_digits w a :
  all_in is_digit w -> w <> [] -> word_at (w ++ a) = true.
Proof.
  intros Hall Hne. destruct w as [|c w]; [done|]. simpl.
  apply Forall_cons in Hall as [Hc _]. by apply is_digit_word.
Qed.

Lemma length_pos_ne {A} (w : list A) : (1 <= length w)%nat -> w <> [].
Proof. destruct w; simpl; [lia|done]. Qed.

Lemma xorb_true_l_inv a b : a = true -> xorb a b = true -> b = false.
Proof. intros ->. by destruct b. Qed.

Lemma xorb_true_r_inv a b : b = true -> xorb a b = true -> a = false.
Proof. intros ->. by destruct a. Qed.

(** *** Building matches *)

Lemma semc_seq x y b w1 w2 a c1 c2 :
  semc x b w1 (w2 ++ a) c1 -> semc y (rev w1 ++ b) w2 a c2 ->
  semc (Seq x y) b (w1 ++ w2) a (c2 ++ c1).
Proof. intros. cbn [semc]. by exists w1, w2, c1, c2. Qed.

Lemma semc_cap n r b w a cs : semc r b w a cs -> semc (Cap n r) b w a ((n, w) :: cs).
Proof. intros. cbn [semc]. by exists cs. Qed.

Lemma semc_cls p b c a : p c = true -> semc (Cls p) b [c] a [].
Proof. intros. cbn [semc]. split; [by exists c|done]. Qed.

Lemma semc_rep p lo hi g b w a :
  all_in p w -> within lo hi (length w) -> semc (Rep p lo hi g) b w a [].
Proof. intros. cbn [semc]. done. Qed.

Lemma semc_bow b a : xorb (word_at b) (word_at a) = true -> semc Bow b [] a [].
Proof. intros. cbn [semc]. done. Qed.

Lemma semc_alt_l x y b w a cs : semc x b w a cs -> semc (Alt x y) b w a cs.
Proof. intros. cbn [semc]. by left. Qed.

Lemma semc_alt_r x y b w a cs : semc y b w a cs -> semc (Alt x y) b w a cs.
Proof. intros. cbn [semc]. by right. Qed.

Lemma semc_opt_some r b w a cs : semc r b w a cs -> semc (Opt r) b w a cs.
Proof. intros. cbn [semc]. by left. Qed.

Lemma semc_opt_none r b a : semc (Opt r) b [] a [].
Proof. cbn [semc]. by right. Qed.

Lemma semc_eol b : semc Eol b [] [] [].
Proof. by cbn [semc]. Qed.

Lemma semc_bol a : semc Bol [] [] a [].
Proof. by cbn [semc]. Qed.

Lemma notahead_dot_inv (a : list char) :
  (forall w' a' (c' : list (nat * str)), a = w' ++ a' ->
     ~ ((exists c, w' = [c] /\ (46 =? c) = true) /\ c' = [])) ->
  starts_with_dot a = false.
Proof.
  intros H. destruct a as [|c a]; [done|]. simpl.
  destruct (c =? 46) eqn:E; [|done]. exfalso.
  apply (H [c] a []); [done|]. split; [|done]. exists c. by rewrite N.eqb_sym.
Qed.

Lemma semc_notahead_dot b a :
  starts_with_dot a = false -> semc (NotAhead (Cls (N.eqb 46))) b [] a [].
Proof.
  intros H. cbn [semc]. split_and!; try done.
  intros w' a' c' -> [(c & -> & Hc) _]. simpl in H.
  rewrite N.eqb_sym in Hc. congruence.
Qed.

Ltac sem_open S :=
  unfold rx_date_year, rx_date_noyear, rx_time_colon, rx_time_dot, rx_time_hour,
    rx_time_bare_colon, rx_time_bare_dot, rx_loc, um_ab, ws1, ws0, d12, d2, d4, d5,
    dot, colon, Chr in S;
  eval_lits; cbn [semc LitCI Lit] in S; unfold within in S.

Ltac sem_goal :=
  unfold rx_date_year, rx_date_noyear, rx_time_colon, rx_time_dot, rx_time_hour,
    rx_time_bare_colon, rx_time_bare_dot, rx_loc, um_ab, ws1, ws0, d12, d2, d4, d5,
    dot, colon, Chr;
  eval_lits; cbn [LitCI Lit].

(** The word-boundary tests at the two ends of a token. *)
Ltac left_boundary H :=
  apply xorb_true_r_inv in H;
  [|first [ cbn [app word_at]; eapply eq_ci_word; [| |eassumption]; reflexivity
          | rewrite <- ?app_assoc; apply word_at_digits;
              [assumption|apply length_pos_ne; lia] ]].

Lemma word_at_rev_snoc3 (l : list char) a b c rest :
  word_at (rev (l ++ [a] ++ [b] ++ [c]) ++ rest) = is_word c.
Proof. by rewrite !rev_app_distr. Qed.

Ltac right_boundary H :=
  rewrite ?app_nil_r in H;
  apply xorb_true_l_inv in H;
  [|first [ apply word_at_rev_digits; [assumption|apply length_pos_ne; lia]
          | rewrite word_at_rev_snoc3; eapply eq_ci_word; [| |eassumption]; reflexivity ]].

Ltac tidy_nil :=
  repeat match goal with
  | H : context [rev (@nil ?A)] |- _ => change (rev (@nil A)) with (@nil A) in H
  | H : context [@nil ?A ++ ?l] |- _ => change (@nil A ++ l) with l in H
  end.

Ltac start_sound H m :=
  apply exec_some in H as [? H]; destruct m as [pre al post cs];
  unfold group; cbn [m_pre m_all m_post m_caps] in *;
  sem_open H; break; tidy_nil; cbn [assoc app Nat.eqb].

Lemma um_or_ab_um c1 c2 :
  eq_ci 117 c1 = true -> eq_ci 109 c2 = true -> um_or_ab ([c1] ++ [c2]).
Proof. intros. exists c1, c2. split; [done|]. by left. Qed.

Lemma um_or_ab_ab c1 c2 :
  eq_ci 97 c1 = true -> eq_ci 98 c2 = true -> um_or_ab ([c1] ++ [c2]).
Proof. intros. exists c1, c2. split; [done|]. by right. Qed.

Create HintDb tok.
#[local] Hint Resolve um_or_ab_um um_or_ab_ab length_pos_ne : tok.

Ltac list_eq :=
  repeat (progress (rewrite ?app_nil_r, <- ?app_assoc, <- ?app_comm_cons));
  cbn [app]; reflexivity.

Ltac tok_side :=
  first [ done
        | list_eq
        | by eauto with tok
        | split; [by eauto with tok|done]
        | split; [done|lia]
        | split; [done|split; lia] ].

Lemma time_colon_sound s m :
  exec rx_time_colon s = Some m -> anchored_colon s (group 1 m) (group 2 m).
Proof.
  intros H. start_sound H m.
  all: match goal with
       | Hb : xorb (word_at (rev _)) _ = true,
         He : xorb _ (word_at _) = true |- _ => left_boundary Hb; right_boundary He
       end.
  all: match goal with
       | |- anchored_colon (?p ++ ?a :: ?b :: (?sp ++ _) ++ ?q) _ _ =>
         exists p, ([a] ++ [b]), sp, q
       end.
  all: split_and!; tok_side.
Qed.

Lemma time_dot_sound s m :
  exec rx_time_dot s = Some m -> anchored_dot s (group 1 m) (group 2 m).
Proof.
  intros H. start_sound H m.
  all: match goal with
       | Hb : xorb (word_at (rev _)) _ = true,
         He : xorb _ (word_at _) = true,
         Hn : forall _ _ _, _ -> ~ _ |- _ =>
         left_boundary Hb; right_boundary He; apply notahead_dot_inv in Hn
       end.
  all: match goal with
       | |- anchored_dot (?p ++ ?a :: ?b :: (?sp ++ _) ++ ?q) _ _ =>
         exists p, ([a] ++ [b]), sp, q
       end.
  all: split_and!; tok_side.
Qed.

Lemma time_hour_sound s m :
  exec rx_time_hour s = Some m -> anchored_hour s (group 1 m).
Proof.
  intros H. start_sound H m.
  all: match goal with
       | Hb : xorb (word_at (rev _)) _ = true,
         He : xorb _ (word_at _) = true |- _ => left_boundary Hb; right_boundary He
       end.
  all: match goal with
       | |- anchored_hour (?p ++ ?a :: ?b :: (?sp ++ _ ++ ?u ++ []) ++ ?q) _ =>
         exists p, ([a] ++ [b]), sp, u, q
       | |- anchored_hour (?p ++ ?a :: ?b :: (?sp ++ _ ++ []) ++ ?q) _ =>
         exists p, ([a] ++ [b]), sp, [], q
       end.
  all: split_and!; try tok_side.
  all: try (by left).
  all: right; eexists _, _, _, _; split; [reflexivity|done].
Qed.

Lemma not_after_snoc pre c :
  not_digit_dot c = true -> not_after_digit_or_dot (pre ++ [c]) = true.
Proof. intros H. unfold not_after_digit_or_dot. by rewrite rev_app_distr. Qed.

Lemma not_after_nil pre : rev pre = [] -> not_after_digit_or_dot pre = true.
Proof. intros H. unfold not_after_digit_or_dot. by rewrite H. Qed.

#[local] Hint Resolve not_after_snoc not_after_nil : tok.

Lemma bare_colon_sound s m :
  exec rx_time_bare_colon s = Some m -> standalone_colon s (group 2 m) (group 3 m).
Proof.
  intros H. start_sound H m.
  all: match goal with
       | He : xorb _ (word_at _) = true |- _ => right_boundary He
       end.
  - exists pre, post. split_and!; tok_side.
  - match goal with
    | |- standalone_colon (?p ++ ?c :: _ ++ ?q) _ _ => exists (p ++ [c]), q
    end.
    split_and!; tok_side.
Qed.

Lemma bare_dot_sound s m :
  exec rx_time_bare_dot s = Some m -> standalone_dot s (group 2 m) (group 3 m).
Proof.
  intros H. start_sound H m.
  all: match goal with
       | He : xorb _ (word_at _) = true,
         Hn : forall _ _ _, _ -> ~ _ |- _ =>
         right_boundary He; apply notahead_dot_inv in Hn
       end.
  - exists pre, post. split_and!; tok_side.
  - match goal with
    | |- standalone_dot (?p ++ ?c :: _ ++ ?q) _ _ => exists (p ++ [c]), q
    end.
    split_and!; tok_side.
Qed.

Lemma date_year_sound s m : exec rx_date_year s = Some m -> full_date s.
Proof.
  intros H. start_sound H m.
  match goal with
  | Hb : xorb (word_at (rev _)) _ = true,
    He : xorb _ (word_at _) = true |- _ => left_boundary Hb; right_boundary He
  end.
  match goal with
  | |- full_date (?p ++ (?d ++ 46 :: ?mo ++ 46 :: ?y ++ []) ++ ?q) =>
    exists p, d, mo, y, q
  end.
  split_and!; tok_side.
Qed.

Lemma date_noyear_sound s m :
  exec rx_date_noyear s = Some m -> short_date s (group 1 m) (group 2 m).
Proof.
  intros H. start_sound H m.
  - match goal with
    | Hb : xorb (word_at (rev _)) _ = true,
      He : xorb _ (word_at _) = true |- _ =>
      left_boundary Hb; cbn [rev app word_at] in He;
      change (is_word 46) with false in He; rewrite xorb_false_l in He
    end.
    exists pre, [46], post. split_and!; try tok_side; try (right; done).
  - match goal with
    | Hb : xorb (word_at (rev _)) _ = true,
      He : xorb _ (word_at _) = true |- _ => left_boundary Hb; right_boundary He
    end.
    exists pre, [], post. split_and!; try tok_side; try (left; done).
Qed.

Lemma loc_sound table s m :
  exec (rx_loc table) s = Some m -> place_token table s (group 1 m) (group 2 m).
Proof.
  intros H. start_sound H m.
  - match goal with
    | Hb : xorb (word_at (rev _)) _ = true,
      He : xorb _ (word_at _) = true |- _ =>
      left_boundary Hb; cbn [rev app word_at] in He;
      change (is_word 116) with true in He; rewrite xorb_true_l in He;
      apply negb_true_iff in He
    end.
    match goal with
    | |- place_token _ (?p ++ (_ ++ ?sp ++ _ ++ ?sp' ++ ?g) ++ ?q) _ _ =>
      exists p, sp, (sp' ++ g), q
    end.
    split_and!; try tok_side. right.
    eexists. split; [reflexivity|]. split; tok_side.
  - match goal with
    | Hb : xorb (word_at (rev _)) _ = true |- _ => left_boundary Hb
    end.
    match goal with
    | |- place_token _ (?p ++ (_ ++ ?sp ++ _ ++ []) ++ []) _ _ =>
      exists p, sp, [], []
    end.
    split_and!; try tok_side; try (by left).
Qed.

Lemma xorb_intro_l a b : a = false -> b = true -> xorb a b = true.
Proof. by intros -> ->. Qed.

Lemma xorb_intro_r a b : a = true -> b = false -> xorb a b = true.
Proof. by intros -> ->. Qed.

Lemma word_at_rev_snoc3' (l : list char) a b c rest :
  word_at (rev (l ++ [a; b; c]) ++ rest) = is_word c.
Proof. by rewrite rev_app_distr. Qed.

Ltac word_true :=
  first [ apply word_at_rev_digits; [assumption|apply length_pos_ne; lia]
        | rewrite <- ?app_assoc; apply word_at_digits; [assumption|apply length_pos_ne; lia]
        | cbn [app rev word_at]; eapply eq_ci_word; [| |eassumption]; reflexivity
        | rewrite word_at_rev_snoc3; eapply eq_ci_word; [| |eassumption]; reflexivity
        | rewrite word_at_rev_snoc3'; eapply eq_ci_word; [| |eassumption]; reflexivity
        | reflexivity ].

Ltac bow_l := apply semc_bow, xorb_intro_l; [assumption|word_true].
Ltac bow_r :=
  apply semc_bow, xorb_intro_r;
  [change (rev (@nil char)) with (@nil char); cbn [app]; word_true|assumption].

Ltac leaf :=
  first [ apply semc_cap; apply semc_rep; [assumption|split; [lia|first [lia|exact I]]]
        | apply semc_rep; [assumption|split; [lia|first [lia|exact I]]]
        | apply semc_cls; first [eassumption|reflexivity] ].

Ltac seq_leaf := eapply semc_seq; [leaf|].

Lemma time_colon_complete s h m : anchored_colon s h m -> occurs rx_time_colon s.
Proof.
  intros (pre & k & sp & post & -> & Hpre & (c1 & c2 & -> & Hk) & [Hsp1 Hsp2]
          & [Hh1 Hh2] & [Hm1 Hm2] & Hpost).
  unfold ends_in_word, starts_with_word in *.
  assert (Hsp : (1 <= length sp)%nat) by (destruct sp; simpl; [done|lia]).
  exists pre, ([] ++ ([c1] ++ [c2]) ++ sp ++ h ++ [58] ++ m ++ []), post. eexists.
  split; [list_eq|]. sem_goal.
  destruct Hk as [[? ?]|[? ?]].
  all: eapply semc_seq; [bow_l|].
  all: eapply semc_seq;
         [first [apply semc_alt_l; eapply semc_seq; leaf
                |apply semc_alt_r; eapply semc_seq; leaf]|].
  all: do 4 seq_leaf; bow_r.
Qed.

Ltac um_ab_step :=
  eapply semc_seq;
    [first [apply semc_alt_l; eapply semc_seq; leaf
           |apply semc_alt_r; eapply semc_seq; leaf]|].

Lemma blanks_length sp : blanks sp -> (1 <= length sp)%nat.
Proof. intros [H _]. destruct sp; simpl; [done|lia]. Qed.

Lemma time_dot_complete s h m : anchored_dot s h m -> occurs rx_time_dot s.
Proof.
  intros (pre & k & sp & post & -> & Hpre & (c1 & c2 & -> & Hk) & Hsp
          & [Hh1 Hh2] & [Hm1 Hm2] & Hdot & Hpost).
  unfold ends_in_word, starts_with_word in *.
  pose proof (blanks_length _ Hsp) as Hl. destruct Hsp as [_ Hsp].
  exists pre, ([] ++ ([c1] ++ [c2]) ++ sp ++ h ++ [46] ++ m ++ [] ++ []), post. eexists.
  split; [list_eq|]. sem_goal.
  destruct Hk as [[? ?]|[? ?]].
  all: eapply semc_seq; [bow_l|]; um_ab_step; do 4 seq_leaf.
  all: eapply semc_seq; [by apply semc_notahead_dot|]; bow_r.
Qed.

Lemma time_hour_complete s h : anchored_hour s h -> occurs rx_time_hour s.
Proof.
  intros (pre & k & sp & u & post & -> & Hpre & (c1 & c2 & -> & Hk) & Hsp
          & [Hh1 Hh2] & Hu & Hpost).
  unfold ends_in_word, starts_with_word in *.
  pose proof (blanks_length _ Hsp) as Hl. destruct Hsp as [_ Hsp].
  destruct Hu as [-> | (sp' & x & y & z & -> & Hs' & Hx & Hy & Hz)].
  - exists pre, ([] ++ ([c1] ++ [c2]) ++ sp ++ h ++ [] ++ []), post. eexists.
    split; [list_eq|]. sem_goal.
    destruct Hk as [[? ?]|[? ?]].
    all: eapply semc_seq; [bow_l|]; um_ab_step; do 2 seq_leaf.
    all: eapply semc_seq; [apply semc_opt_none|]; bow_r.
  - exists pre, ([] ++ ([c1] ++ [c2]) ++ sp ++ h ++ (sp' ++ [x] ++ [y] ++ [z]) ++ []), post.
    eexists. split; [list_eq|]. sem_goal.
    destruct Hk as [[? ?]|[? ?]].
    all: eapply semc_seq; [bow_l|]; um_ab_step; do 2 seq_leaf.
    all: eapply semc_seq;
           [apply semc_opt_some; do 3 seq_leaf; leaf|]; bow_r.
Qed.

Lemma group1_bol a : semc (Cap 1 (Alt Bol (Cls not_digit_dot))) [] [] a [(1%nat, [])].
Proof. apply semc_cap, semc_alt_l, semc_bol. Qed.

Lemma group1_chr b c a :
  not_digit_dot c = true ->
  semc (Cap 1 (Alt Bol (Cls not_digit_dot))) b [c] a [(1%nat, [c])].
Proof. intros. by apply semc_cap, semc_alt_r, semc_cls. Qed.

Lemma not_after_cases pre :
  not_after_digit_or_dot pre = true ->
  pre = [] \/ exists p c, pre = p ++ [c] /\ not_digit_dot c = true.
Proof.
  unfold not_after_digit_or_dot. intros H.
  destruct (rev pre) as [|c l] eqn:E.
  - left. apply (f_equal (@rev _)) in E. by rewrite rev_involutive in E.
  - right. exists (rev l), c. split; [|done].
    apply (f_equal (@rev _)) in E. by rewrite rev_involutive in E.
Qed.

Lemma bare_colon_complete s h m : standalone_colon s h m -> occurs rx_time_bare_colon s.
Proof.
  intros (pre & post & -> & Hpre & [Hh1 Hh2] & [Hm1 Hm2] & Hpost).
  unfold starts_with_word in *.
  apply not_after_cases in Hpre as [-> | (p & c & -> & Hc)].
  - exists [], ([] ++ h ++ [58] ++ m ++ []), post. eexists.
    split; [list_eq|]. sem_goal.
    eapply semc_seq; [apply group1_bol|]. do 3 seq_leaf. bow_r.
  - exists p, ([c] ++ h ++ [58] ++ m ++ []), post. eexists.
    split; [list_eq|]. sem_goal.
    eapply semc_seq; [by apply group1_chr|]. do 3 seq_leaf. bow_r.
Qed.

Lemma bare_dot_complete s h m : standalone_dot s h m -> occurs rx_time_bare_dot s.
Proof.
  intros (pre & post & -> & Hpre & [Hh1 Hh2] & [Hm1 Hm2] & Hpost & Hdot).
  unfold starts_with_word in *.
  apply not_after_cases in Hpre as [-> | (p & c & -> & Hc)].
  - exists [], ([] ++ h ++ [46] ++ m ++ [] ++ []), post. eexists.
    split; [list_eq|]. sem_goal.
    eapply semc_seq; [apply group1_bol|]. do 3 seq_leaf.
    eapply semc_seq; [bow_r|]. by apply semc_notahead_dot.
  - exists p, ([c] ++ h ++ [46] ++ m ++ [] ++ []), post. eexists.
    split; [list_eq|]. sem_goal.
    eapply semc_seq; [by apply group1_chr|]. do 3 seq_leaf.
    eapply semc_seq; [bow_r|]. by apply semc_notahead_dot.
Qed.

Lemma date_year_complete s : full_date s -> occurs rx_date_year s.
Proof.
  intros (pre & d & mo & y & post & -> & Hpre & [Hd1 Hd2] & [Hm1 Hm2] & [Hy1 Hy2] & Hpost).
  unfold ends_in_word, starts_with_word in *.
  exists pre, ([] ++ d ++ [46] ++ mo ++ [46] ++ y ++ []), post. eexists.
  split; [list_eq|]. sem_goal.
  eapply semc_seq; [bow_l|]. do 5 seq_leaf. bow_r.
Qed.

Lemma date_noyear_complete s d mo : short_date s d mo -> occurs rx_date_noyear s.
Proof.
  intros (pre & t & post & -> & Hpre & [Hd1 Hd2] & [Hm1 Hm2] & Ht).
  unfold ends_in_word, starts_with_word in *.
  destruct Ht as [[-> Hpost] | [-> Hpost]].
  - exists pre, ([] ++ d ++ [46] ++ mo ++ [] ++ []), post. eexists.
    split; [list_eq|]. sem_goal.
    eapply semc_seq; [bow_l|]. do 3 seq_leaf.
    eapply semc_seq; [apply semc_opt_none|]. bow_r.
  - exists pre, ([] ++ d ++ [46] ++ mo ++ [46] ++ []), post. eexists.
    split; [list_eq|]. sem_goal.
    eapply semc_seq; [bow_l|]. do 3 seq_leaf.
    eapply semc_seq; [apply semc_opt_some; leaf|].
    apply semc_bow, xorb_intro_l; [|assumption].
    change (rev (@nil char)) with (@nil char). cbn [app].
    reflexivity.
Qed.

Lemma loc_complete table s z c : place_token table s z c -> occurs (rx_loc table) s.
Proof.
  intros (pre & sp & tl & post & -> & Hpre & [Hz1 Hz2] & Hsp & Hc1 & Hc2 & Htl).
  unfold ends_in_word, starts_with_word in *.
  pose proof (blanks_length _ Hsp) as Hl. destruct Hsp as [_ Hsp].
  assert (Hc : (1 <= length c)%nat) by (destruct c; simpl; [done|lia]).
  destruct Htl as [[-> ->] | (sp' & -> & Hsp' & Hpost)].
  - exists pre, ([] ++ z ++ sp ++ c ++ []), []. eexists.
    split; [list_eq|]. sem_goal.
    eapply semc_seq; [bow_l|]. do 3 seq_leaf. apply semc_alt_r, semc_eol.
  - pose proof (blanks_length _ Hsp') as Hl'. destruct Hsp' as [_ Hsp'].
    exists pre, ([] ++ z ++ sp ++ c ++
                 (sp' ++ ([103] ++ [101] ++ [115] ++ [117] ++ [99] ++ [104] ++ [116]) ++ [])),
           post.
    eexists. split; [eval_lits; list_eq|]. sem_goal.
    eapply semc_seq; [bow_l|]. do 3 seq_leaf. apply semc_alt_l.
    seq_leaf. eapply semc_seq; [do 6 seq_leaf; leaf|].
    apply semc_bow, xorb_intro_r; [reflexivity|assumption].
Qed.


(** * Facts about the subject parser *)

Section ParserFacts.

Context (table : char -> bool).

Abbreviation parse := (parseJobDetailsFromSubject table).

Lemma parse_some_inv y subject t r :
  parse y subject t = Some r ->
  let s := prepared subject in
  exists hh mm loc,
    parse_date y s = Some (date r) /\
    parse_time s = (hh, mm) /\ truthy hh = true /\
    time r = z2 (default [] hh) ++ [58] ++ (if truthy mm then default [] mm else lit "00") /\
    exec (rx_loc table) s = Some loc /\
    zip r = group 1 loc /\
    city r = trim (replace_all rx_ws [32] (group 2 loc)).
Proof.
  unfold parseJobDetailsFromSubject. fold (prepared subject).
  destruct subject as [|c0 subject0]; [done|].
  set (subject := c0 :: subject0). fold (prepared subject).
  destruct (test rx_nonjob _); [done|]. cbv zeta.
  destruct (parse_date y (prepared subject)) as [dateStr|]; [|done].
  destruct (parse_time (prepared subject)) as [hh mm].
  destruct (truthy hh) eqn:Hh; [|done]. cbn [negb].
  destruct (exec (rx_loc table) (prepared subject)) as [loc|]; [|done].
  intros [= <-]. exists hh, mm, loc. done.
Qed.

Lemma parse_time_none s :
  exec rx_time_colon s = None -> exec rx_time_dot s = None ->
  exec rx_time_hour s = None -> exec rx_time_bare_colon s = None ->
  exec rx_time_bare_dot s = None ->
  parse_time s = (None, None).
Proof.
  intros H1 H2 H3 H4 H5. unfold parse_time, try_time.
  rewrite H1. cbn. rewrite H2. cbn. rewrite H3. cbn. rewrite H4. cbn. by rewrite H5.
Qed.

Lemma no_time_token_exec s :
  ~ has_time_token s ->
  exec rx_time_colon s = None /\ exec rx_time_dot s = None /\
  exec rx_time_hour s = None /\ exec rx_time_bare_colon s = None /\
  exec rx_time_bare_dot s = None.
Proof.
  intros H. unfold has_time_token in H. split_and!.
  - destruct (exec rx_time_colon s) eqn:E; [|done]. exfalso. apply H.
    left. eauto using time_colon_sound.
  - destruct (exec rx_time_dot s) eqn:E; [|done]. exfalso. apply H.
    right; left. eauto using time_dot_sound.
  - destruct (exec rx_time_hour s) eqn:E; [|done]. exfalso. apply H.
    right; right; left. eauto using time_hour_sound.
  - destruct (exec rx_time_bare_colon s) eqn:E; [|done]. exfalso. apply H.
    right; right; right; left. eauto using bare_colon_sound.
  - destruct (exec rx_time_bare_dot s) eqn:E; [|done]. exfalso. apply H.
    right; right; right; right. eauto using bare_dot_sound.
Qed.

Lemma exec_no_time_token s :
  exec rx_time_colon s = None -> exec rx_time_dot s = None ->
  exec rx_time_hour s = None -> exec rx_time_bare_colon s = None ->
  exec rx_time_bare_dot s = None ->
  ~ has_time_token s.
Proof.
  intros H1 H2 H3 H4 H5 [(h & m & T)|[(h & m & T)|[(h & T)|[(h & m & T)|(h & m & T)]]]].
  - by apply exec_none_iff in H1; apply H1; eapply time_colon_complete.
  - by apply exec_none_iff in H2; apply H2; eapply time_dot_complete.
  - by apply exec_none_iff in H3; apply H3; eapply time_hour_complete.
  - by apply exec_none_iff in H4; apply H4; eapply bare_colon_complete.
  - by apply exec_none_iff in H5; apply H5; eapply bare_dot_complete.
Qed.

Lemma exec_no_place_token s :
  exec (rx_loc table) s = None -> ~ exists z c, place_token table s z c.
Proof.
  intros H (z & c & T). apply exec_none_iff in H. apply H. by eapply loc_complete.
Qed.

Lemma exec_no_full_date s : exec rx_date_year s = None -> ~ full_date s.
Proof.
  intros H T. apply exec_none_iff in H. apply H. by apply date_year_complete.
Qed.

Lemma full_date_exec s : full_date s -> exists m, exec rx_date_year s = Some m.
Proof.
  intros T. destruct (exec rx_date_year s) as [m|] eqn:E; [by exists m|].
  by apply exec_no_full_date in E.
Qed.

End ParserFacts.

(** *** Stepping the search *)

Lemma exec_from_step r pre c rest :
  run r (MState pre (c :: rest) []) = [] ->
  exec_from r pre (c :: rest) = exec_from r (c :: pre) rest.
Proof. intros H. cbn [exec_from]. by rewrite H. Qed.

Lemma exec_from_hit r pre rest w st l :
  run r (MState pre rest []) = (w, st) :: l ->
  exec_from r pre rest = Some (MatchResult (rev pre) w (after st) (caps st)).
Proof. intros H. destruct rest; cbn [exec_from]; by rewrite H. Qed.

Lemma run_bow_fail r st : run r st = [] -> run (Bow >- r) st = [].
Proof.
  intros H. cbn [run]. destruct (at_boundary st); [|done]. cbn. by rewrite H.
Qed.

Lemma run_bow_inside r b a cs :
  word_at b = true -> word_at a = true -> run (Bow >- r) (MState b a cs) = [].
Proof. intros Hb Ha. cbn [run]. unfold at_boundary. cbn. by rewrite Hb, Ha. Qed.

Lemma exec_from_skip_digits r : forall ds pre d rest,
  is_digit d = true -> all_in is_digit ds ->
  exec_from (Bow >- r) (d :: pre) (ds ++ rest)
    = exec_from (Bow >- r) (rev ds ++ d :: pre) rest.
Proof.
  induction ds as [|c ds IH]; intros pre d rest Hd Hds; [done|].
  apply Forall_cons in Hds as [Hc Hds].
  cbn [app]. rewrite exec_from_step.
  - rewrite IH by done. cbn [rev]. by rewrite <- app_assoc.
  - apply run_bow_inside; cbn; by apply is_digit_word.
Qed.

(** *** Evaluating a pattern on text with unknown digits *)

Ltac eval_test t c :=
  lazymatch c with
  | N0 => idtac
  | N.pos _ => idtac
  end;
  let v := eval vm_compute in t in change t with v.

Ltac eval_tests :=
  repeat match goal with
  | |- context [is_digit ?c] => eval_test (is_digit c) c
  | |- context [is_space ?c] => eval_test (is_space c) c
  | |- context [is_word ?c] => eval_test (is_word c) c
  | |- context [not_digit_dot ?c] => eval_test (not_digit_dot c) c
  | |- context [eq_ci ?p ?c] => eval_test (eq_ci p c) c
  | |- context [N.eqb ?p ?c] => eval_test (N.eqb p c) c
  | |- context [city_char ?t ?c] => eval_test (city_char t c) c
  end.

Lemma digit_tests d :
  is_digit d = true ->
  is_space d = false /\ is_word d = true /\ not_digit_dot d = false /\
  (46 =? d) = false /\ (58 =? d) = false /\
  eq_ci 117 d = false /\ eq_ci 97 d = false /\
  (forall t, city_char t d = false).
Proof.
  intros H. split_and!; try (revert d H; apply digit_fact; reflexivity).
  intros t. apply is_digit_cases in H.
  repeat (destruct H as [-> | H]; [reflexivity|]). subst. reflexivity.
Qed.

Lemma dt_space d : is_digit d = true -> is_space d = false.
Proof. intros H. apply (digit_tests d H). Qed.
Lemma dt_word d : is_digit d = true -> is_word d = true.
Proof. intros H. apply (digit_tests d H). Qed.
Lemma dt_ndd d : is_digit d = true -> not_digit_dot d = false.
Proof. intros H. apply (digit_tests d H). Qed.
Lemma dt_dot d : is_digit d = true -> (46 =? d) = false.
Proof. intros H. apply (digit_tests d H). Qed.
Lemma dt_colon d : is_digit d = true -> (58 =? d) = false.
Proof. intros H. apply (digit_tests d H). Qed.
Lemma dt_u d : is_digit d = true -> eq_ci 117 d = false.
Proof. intros H. apply (digit_tests d H). Qed.
Lemma dt_a d : is_digit d = true -> eq_ci 97 d = false.
Proof. intros H. apply (digit_tests d H). Qed.
Lemma dt_city t d : is_digit d = true -> city_char t d = false.
Proof. intros H. apply (digit_tests d H). Qed.

Ltac digit_rw :=
  repeat match goal with
  | H : is_digit ?d = true |- context [is_digit ?d] => rewrite !H
  | H : is_digit ?d = true |- context [is_space ?d] => rewrite !(dt_space d H)
  | H : is_digit ?d = true |- context [is_word ?d] => rewrite !(dt_word d H)
  | H : is_digit ?d = true |- context [not_digit_dot ?d] => rewrite !(dt_ndd d H)
  | H : is_digit ?d = true |- context [46 =? ?d] => rewrite !(dt_dot d H)
  | H : is_digit ?d = true |- context [58 =? ?d] => rewrite !(dt_colon d H)
  | H : is_digit ?d = true |- context [eq_ci 117 ?d] => rewrite !(dt_u d H)
  | H : is_digit ?d = true |- context [eq_ci 97 ?d] => rewrite !(dt_a d H)
  | H : is_digit ?d = true |- context [city_char ?t ?d] => rewrite !(dt_city t d H)
  end.

Ltac run_cbn :=
  cbn [run flat_map map app fst snd after before caps consume set_cap at_boundary
       word_at rep_choices Nat.pred nat_pred_opt rev_append xorb negb andb orb].

Ltac run_eval :=
  repeat (progress (run_cbn; unfold at_boundary; run_cbn; eval_tests; digit_rw)).

Ltac rx_unfold :=
  unfold rx_date_year, rx_date_noyear, rx_time_colon, rx_time_dot, rx_time_hour,
    rx_time_bare_colon, rx_time_bare_dot, rx_loc, um_ab, ws1, ws0, d12, d2, d4, d5,
    dot, colon, Chr;
  eval_lits; cbn [LitCI Lit].

Lemma run_digit_start_fail n lo hi g r b c a cs :
  is_digit c = false ->
  run (Bow >- Cap n (Rep is_digit (S lo) hi g) >- r) (MState b (c :: a) cs) = [].
Proof.
  intros H. apply run_bow_fail. cbn [run rep_choices after]. rewrite H.
  by destruct hi as [[|]|], g.
Qed.

Lemma run_um_ab_fail x y r b c a cs :
  eq_ci 117 c = false -> eq_ci 97 c = false ->
  run (Bow >- Alt (Cls (eq_ci 117) >- x) (Cls (eq_ci 97) >- y) >- r)
      (MState b (c :: a) cs) = [].
Proof.
  intros H1 H2. apply run_bow_fail. cbn [run after]. by rewrite H1, H2.
Qed.

(** *** A lazy class followed by a continuation *)

Section Lazy.

Context (p : char -> bool) (K : regex) (n : nat).

Lemma flat_map_map {A B C} (f : A -> B) (g : B -> list C) (l : list A) :
  flat_map g (map f l) = flat_map (fun x => g (f x)) l.
Proof. induction l as [|x l IH]; [done|]. simpl. by rewrite IH. Qed.

Lemma flat_map_ext' {A B} (f g : A -> list B) (l : list A) :
  (forall x, f x = g x) -> flat_map f l = flat_map g l.
Proof. intros H. induction l as [|x l IH]; [done|]. simpl. by rewrite H, IH. Qed.

Lemma run_lazy_eq lo b input cs :
  run (Cap n (Rep p lo None false) >- K) (MState b input cs)
    = flat_map (fun wr => after_class K n b cs wr.1 wr.2) (rep_choices p lo None false input).
Proof.
  cbn [run after]. rewrite !flat_map_map. apply flat_map_ext'.
  intros [w r]. unfold after_class, consume, set_cap. cbn.
  by rewrite rev_append_rev.
Qed.

Lemma rep_lazy0_cons c input :
  rep_choices p 0 None false (c :: input)
    = ([], c :: input)
      :: (if p c then map (fun wr => (c :: wr.1, wr.2)) (rep_choices p 0 None false input)
          else []).
Proof. reflexivity. Qed.

Lemma rep_lazy1_cons c input :
  p c = true ->
  rep_choices p 1 None false (c :: input)
    = map (fun wr => (c :: wr.1, wr.2)) (rep_choices p 0 None false input).
Proof. intros H. cbn [rep_choices]. by rewrite H. Qed.

Lemma lazy0_skip b cs rest : forall w acc,
  all_in p w -> all_suffixes_fail K w rest ->
  flat_map (fun wr => after_class K n b cs (acc ++ wr.1) wr.2)
           (rep_choices p 0 None false (w ++ rest))
    = flat_map (fun wr => after_class K n b cs ((acc ++ w) ++ wr.1) wr.2)
               (rep_choices p 0 None false rest).
Proof.
  induction w as [|c w IH]; intros acc Hall Hfail.
  - by rewrite app_nil_r.
  - apply Forall_cons in Hall as [Hc Hall]. destruct Hfail as [Hf Hfail].
    cbn [app]. rewrite rep_lazy0_cons, Hc. cbn [flat_map].
    unfold after_class at 1. cbn [fst snd]. rewrite Hf. cbn [map app].
    rewrite flat_map_map. cbn [fst snd].
    rewrite (flat_map_ext' _ (fun wr => after_class K n b cs ((acc ++ [c]) ++ wr.1) wr.2)).
    2:{ intros [w1 r1]. cbn. by rewrite <- app_assoc. }
    rewrite IH by done. apply flat_map_ext'. intros [w1 r1]. cbn.
    by rewrite <- !app_assoc.
Qed.

(** The first match of the lazy class: the shortest run after which the
    continuation matches. *)
Lemma run_lazy_first b cs c w rest :
  p c = true -> all_in p w -> all_suffixes_fail K w rest ->
  run (Cap n (Rep p 1 None false) >- K) (MState b (c :: w ++ rest) cs)
    = flat_map (fun wr => after_class K n b cs ((c :: w) ++ wr.1) wr.2)
               (rep_choices p 0 None false rest).
Proof.
  intros Hc Hall Hfail. rewrite run_lazy_eq, rep_lazy1_cons by done.
  rewrite flat_map_map. cbn [fst snd].
  rewrite (flat_map_ext' _ (fun wr => after_class K n b cs ([c] ++ wr.1) wr.2)) by done.
  by rewrite lazy0_skip.
Qed.

Lemma all_suffixes_fail_app u v rest :
  all_suffixes_fail K u (v ++ rest) -> all_suffixes_fail K v rest ->
  all_suffixes_fail K (u ++ v) rest.
Proof.
  induction u as [|c u IH]; [done|]. cbn. intros [H1 H2] Hv.
  split; [by rewrite <- app_assoc|by apply IH].
Qed.

End Lazy.

Lemma run_lit_fail p : forall b input cs,
  p <> [] -> startsWith p input = false -> run (Lit p) (MState b input cs) = [].
Proof.
  induction p as [|c p IH]; intros b input cs Hne Hs; [done|].
  destruct input as [|x input].
  - destruct p; cbn; done.
  - cbn [startsWith] in Hs. destruct (c =? x) eqn:E.
    + cbn [andb] in Hs. destruct p as [|c' p'].
      * simpl in Hs. destruct input; done.
      * change (Lit (c :: c' :: p')) with (Seq (Cls (N.eqb c)) (Lit (c' :: p'))).
        cbn [run after consume rev_append before caps]. rewrite E.
        cbn [flat_map fst snd]. unfold consume. cbn [rev_append before caps].
        rewrite IH by done. done.
    + destruct p as [|c' p'].
      * cbn. by rewrite E.
      * change (Lit (c :: c' :: p')) with (Seq (Cls (N.eqb c)) (Lit (c' :: p'))).
        cbn [run after]. by rewrite E.
Qed.

Lemma startsWith_word_then_space p : forall w rest,
  Forall (fun c => c <> 32) p -> startsWith p w = false ->
  startsWith p (w ++ 32 :: rest) = false.
Proof.
  induction p as [|c p IH]; intros w rest Hp Hs; [done|].
  apply Forall_cons in Hp as [Hc Hp].
  destruct w as [|x w]; cbn [app startsWith] in *.
  - destruct (c =? 32) eqn:E; [by apply N.eqb_eq in E|done].
  - destruct (c =? x); [|done]. cbn [andb] in *. by apply IH.
Qed.

Lemma place_end_fail_letter c r :
  is_space c = false -> fail_at place_end (c :: r).
Proof.
  intros Hc b cs. unfold place_end. cbn [run rep_choices after]. rewrite Hc. done.
Qed.

Lemma place_end_fail_word c w rest :
  is_space c = false -> startsWith s_gesucht (c :: w) = false ->
  fail_at place_end (32 :: (c :: w) ++ 32 :: rest).
Proof.
  intros Hc Hs b cs. unfold place_end.
  cbn [run rep_choices after app Nat.pred nat_pred_opt].
  change (is_space 32) with true. cbn [map app]. rewrite Hc.
  cbn [map app flat_map fst snd consume rev_append before caps].
  unfold consume. cbn [rev_append before caps].
  rewrite run_lit_fail; [done|done|].
  apply (startsWith_word_then_space s_gesucht (c :: w) rest); [|done].
  repeat constructor; done.
Qed.

Lemma join_sp_cons w ws : join_sp (w :: ws) = w ++ sp_join ws.
Proof.
  revert w. induction ws as [|w' ws IH]; intros w.
  - cbn. by rewrite app_nil_r.
  - change (join_sp (w :: w' :: ws)) with (w ++ [32] ++ join_sp (w' :: ws)).
    by rewrite IH.
Qed.

Lemma letters_fail w rest :
  all_in (fun c => negb (is_space c)) w -> all_suffixes_fail place_end w rest.
Proof.
  induction w as [|c w IH]; [done|]. intros [Hc Hw]%Forall_cons. cbn.
  split; [|by apply IH]. apply place_end_fail_letter. by apply negb_true_iff.
Qed.

Lemma sp_join_fail ws rest :
  Forall plain_word ws ->
  Forall (fun w => startsWith s_gesucht w = false) ws ->
  all_suffixes_fail place_end (sp_join ws) (32 :: rest).
Proof.
  induction ws as [|w ws IH]; [done|].
  intros [[Hne Hw] Hws]%Forall_cons [Hg Hgs]%Forall_cons.
  cbn [sp_join all_suffixes_fail]. split.
  - destruct w as [|c w]; [done|].
    pose proof Hw as [Hc _]%Forall_cons. apply negb_true_iff in Hc.
    rewrite <- app_assoc. destruct ws as [|w' ws'].
    + cbn [sp_join app]. by apply place_end_fail_word.
    + cbn [sp_join]. cbn [app]. by apply place_end_fail_word.
  - apply all_suffixes_fail_app; [by apply letters_fail|by apply IH].
Qed.

Lemma place_end_fail_space c r :
  is_space c = false -> c <> 103 -> fail_at place_end (32 :: c :: r).
Proof.
  intros Hc Hg b cs. unfold place_end.
  cbn [run rep_choices after app Nat.pred nat_pred_opt].
  change (is_space 32) with true. cbn [map app]. rewrite Hc.
  cbn [map app flat_map fst snd]. unfold consume. cbn [rev_append before caps].
  rewrite run_lit_fail; [done|done|].
  cbn [s_gesucht startsWith]. apply N.eqb_neq in Hg.
  rewrite N.eqb_sym in Hg. by rewrite Hg.
Qed.

Lemma digit_not_g d : is_digit d = true -> d <> 103.
Proof. intros H ->. done. Qed.

(** A lazy class that runs into a character outside the class without the
    continuation ever matching yields nothing. *)
Lemma run_lazy_none p K n b cs c w x r :
  p c = true -> all_in p w -> all_suffixes_fail K w (x :: r) ->
  p x = false -> fail_at K (x :: r) ->
  run (Cap n (Rep p 1 None false) >- K) (MState b (c :: w ++ x :: r) cs) = [].
Proof.
  intros Hc Hw Hf Hx Hr. rewrite run_lazy_first by done.
  rewrite rep_lazy0_cons, Hx. cbn [flat_map fst snd]. unfold after_class.
  rewrite Hr. done.
Qed.

(** *** Text whose words are separated by single spaces *)

Lemma run_ws_none (b : list char) (c : char) (r : list char) (cs : list (nat * str)) :
  is_space c = false -> run rx_ws (MState b (c :: r) cs) = [].
Proof. intros H. unfold rx_ws. cbn [run rep_choices after]. by rewrite H. Qed.

Lemma run_ws_one (b : list char) (c : char) (r : list char) (cs : list (nat * str)) :
  c = 32 -> next_not_space r ->
  exists st, run rx_ws (MState b (c :: r) cs) = [([c], st)].
Proof.
  intros -> H. unfold rx_ws. cbn [run rep_choices after].
  change (is_space 32) with true. destruct r as [|x r]; cbn in *.
  - eauto.
  - rewrite H. cbn. eauto.
Qed.

Lemma replace_all_single_spaced s : forall pre,
  single_spaced s -> replace_all_from rx_ws [32] 0 pre s = s.
Proof.
  induction s as [|c r IH]; intros pre Hs; [done|].
  destruct Hs as [[Hc | [Hc Hn]] Hr]; cbn [replace_all_from].
  - rewrite run_ws_none by done. by rewrite IH.
  - destruct (run_ws_one pre c r [] Hc Hn) as [st ->]. cbn. rewrite IH by done.
    by subst c.
Qed.

Lemma trim_id s : next_not_space s -> next_not_space (rev s) -> trim s = s.
Proof.
  unfold trim. intros H1 H2. destruct s as [|c r]; [done|].
  cbn in H1. cbn [drop_while]. rewrite H1.
  destruct (rev (c :: r)) as [|x y] eqn:E.
  - apply (f_equal (@rev _)) in E. by rewrite rev_involutive in E.
  - cbn in H2. cbn [drop_while]. rewrite H2, <- E. apply rev_involutive.
Qed.

Lemma next_app a b : a <> [] -> next_not_space a -> next_not_space (a ++ b).
Proof. by destruct a. Qed.

Lemma plain_next w : all_in (fun c => negb (is_space c)) w -> next_not_space w.
Proof.
  destruct w as [|c w]; [done|]. intros [H _]%Forall_cons.
  by apply negb_true_iff in H.
Qed.

Lemma plain_app_single w v :
  all_in (fun c => negb (is_space c)) w -> single_spaced v -> single_spaced (w ++ v).
Proof.
  induction w as [|c w IH]; [done|]. intros [Hc Hw]%Forall_cons Hv.
  cbn. split; [left; by apply negb_true_iff|by apply IH].
Qed.

Lemma sp_join_app u v : sp_join (u ++ v) = sp_join u ++ sp_join v.
Proof.
  induction u as [|w u IH]; [done|]. cbn. by rewrite IH, <- app_assoc.
Qed.

Lemma sp_join_single ws : Forall plain_word ws -> single_spaced (sp_join ws).
Proof.
  induction ws as [|w ws IH]; [done|]. intros [[Hne Hw] Hws]%Forall_cons.
  cbn [sp_join single_spaced]. split.
  - right. split; [done|]. apply next_app; [done|by apply plain_next].
  - apply plain_app_single; [done|by apply IH].
Qed.

Lemma join_sp_single ws : Forall plain_word ws -> single_spaced (join_sp ws).
Proof.
  destruct ws as [|w ws]; [done|]. intros [[Hne Hw] Hws]%Forall_cons.
  rewrite join_sp_cons. apply plain_app_single; [done|by apply sp_join_single].
Qed.

Lemma join_sp_head ws :
  ws <> [] -> Forall plain_word ws -> next_not_space (join_sp ws).
Proof.
  destruct ws as [|w ws]; [done|]. intros _ [[Hne Hw] Hws]%Forall_cons.
  rewrite join_sp_cons. apply next_app; [done|by apply plain_next].
Qed.

Lemma rev_plain w :
  all_in (fun c => negb (is_space c)) w -> all_in (fun c => negb (is_space c)) (rev w).
Proof. apply List.Forall_rev. Qed.

Lemma sp_join_last ws : forall w,
  plain_word w -> Forall plain_word ws ->
  rev (sp_join ws) ++ rev w <> [] /\ next_not_space (rev (sp_join ws) ++ rev w).
Proof.
  induction ws as [|w' ws IH]; intros w [Hne Hw] Hws.
  - cbn. split.
    + intros E. apply (f_equal (@rev _)) in E. by rewrite rev_involutive in E.
    + apply plain_next. by apply rev_plain.
  - apply Forall_cons in Hws as [Hw' Hws].
    destruct (IH w' Hw' Hws) as [H1 H2].
    cbn [sp_join rev]. rewrite rev_app_distr, <- !app_assoc.
    rewrite (app_assoc (rev (sp_join ws))). split.
    + intros E. apply app_eq_nil in E as [E _]. done.
    + by apply next_app.
Qed.

Lemma join_sp_last ws :
  ws <> [] -> Forall plain_word ws -> next_not_space (rev (join_sp ws)).
Proof.
  destruct ws as [|w ws]; [done|]. intros _ [Hw Hws]%Forall_cons.
  rewrite join_sp_cons, rev_app_distr. by apply sp_join_last.
Qed.

(** Collapsing white space and trimming leaves such text as it is. *)
Lemma normalise_join_sp ws :
  ws <> [] -> Forall plain_word ws ->
  trim (replace_all rx_ws [32] (join_sp ws)) = join_sp ws.
Proof.
  intros Hne Hws. unfold replace_all.
  rewrite replace_all_single_spaced by by apply join_sp_single.
  apply trim_id; [by apply join_sp_head|by apply join_sp_last].
Qed.

Lemma digits_plain w : digits w -> all_in (fun c => negb (is_space c)) w.
Proof.
  unfold digits, all_in. intros Hw. eapply Forall_impl; [exact Hw|].
  intros c H. cbn. by rewrite (dt_space c H).
Qed.

Lemma letter_word_plain table w :
  (forall c, is_L table c = true -> is_space c = false) ->
  letter_word table w -> plain_word w.
Proof.
  intros Hl [Hne Hw]. split; [done|]. eapply Forall_impl; [exact Hw|].
  intros c H. cbn in *. by rewrite (Hl c H).
Qed.

Lemma replace_first_none r repl s : exec r s = None -> replace_first r repl s = s.
Proof. intros H. unfold replace_first. by rewrite H. Qed.

Section Canonical.

Context (table : char -> bool).
Context (n1 d1 d2 m1 m2 y1 y2 y3 y4 h1 h2 i1 i2 z1 z2 z3 z4 z5 : char) (ns : list char).
Context (Hn1 : is_digit n1 = true) (Hns : all_in is_digit ns).
Context (Hd1 : is_digit d1 = true) (Hd2 : is_digit d2 = true)
        (Hm1 : is_digit m1 = true) (Hm2 : is_digit m2 = true)
        (Hy1 : is_digit y1 = true) (Hy2 : is_digit y2 = true)
        (Hy3 : is_digit y3 = true) (Hy4 : is_digit y4 = true)
        (Hh1 : is_digit h1 = true) (Hh2 : is_digit h2 = true)
        (Hi1 : is_digit i1 = true) (Hi2 : is_digit i2 = true)
        (Hz1 : is_digit z1 = true) (Hz2 : is_digit z2 = true)
        (Hz3 : is_digit z3 = true) (Hz4 : is_digit z4 = true)
        (Hz5 : is_digit z5 = true).

Lemma date_pos0 rest :
  run rx_date_year (MState [] (n1 :: ns ++ 32 :: rest) []) = [].
Proof.
  rx_unfold. destruct ns as [|n2 [|n3 ns']].
  - run_eval. reflexivity.
  - apply Forall_cons in Hns as [Hn2 _]. run_eval. reflexivity.
  - apply Forall_cons in Hns as [Hn2 Hns']. apply Forall_cons in Hns' as [Hn3 _].
    run_eval. reflexivity.
Qed.

Context (town : str).

Abbreviation tl3 := (tail3 z1 z2 z3 z4 z5 town).
Abbreviation subject := (whole n1 d1 d2 m1 m2 y1 y2 y3 y4 h1 h2 i1 i2 z1 z2 z3 z4 z5 ns town).

Ltac skip_step :=
  rewrite exec_from_step
    by first [ apply run_digit_start_fail; reflexivity
             | apply run_um_ab_fail; first [reflexivity | by apply dt_u | by apply dt_a]
             | apply run_bow_fail; run_eval; reflexivity ].

Lemma date_found :
  exists m, exec rx_date_year subject = Some m /\
    group 1 m = [d1; d2] /\ group 2 m = [m1; m2] /\ group 3 m = [y1; y2; y3; y4].
Proof.
  unfold exec, whole, head0.
  rewrite exec_from_step by apply date_pos0.
  unfold rx_date_year at 1. rewrite exec_from_skip_digits by done.
  fold rx_date_year. rx_unfold.
  do 17 skip_step.
  unfold tail1. erewrite exec_from_hit; [|run_eval; reflexivity].
  eexists. split; [reflexivity|]. done.
Qed.

Lemma time_found :
  exists m, exec rx_time_colon subject = Some m /\
    group 1 m = [h1; h2] /\ group 2 m = [i1; i2].
Proof.
  unfold exec, whole, head0. rx_unfold.
  skip_step. rewrite exec_from_skip_digits by done.
  do 17 skip_step. unfold tail1. do 11 skip_step.
  unfold tail2. erewrite exec_from_hit; [|run_eval; reflexivity].
  eexists. split; [reflexivity|]. done.
Qed.

Lemma rx_loc_eq : rx_loc table = Bow >- Cap 1 d5 >- ws1 >- loc_tail table.
Proof. reflexivity. Qed.

Lemma run_seq r1 r2 st :
  run (r1 >- r2) st
    = flat_map (fun x => map (fun y => (x.1 ++ y.1, y.2)) (run r2 x.2)) (run r1 st).
Proof. reflexivity. Qed.

(** The zip and the white space after it, before any continuation. *)
Lemma loc_prefix K b cs a1 a2 a3 a4 a5 x r :
  is_digit a1 = true -> is_digit a2 = true -> is_digit a3 = true ->
  is_digit a4 = true -> is_digit a5 = true ->
  is_space x = false -> word_at b = false ->
  run (Bow >- Cap 1 d5 >- ws1 >- K)
      (MState b (a1 :: a2 :: a3 :: a4 :: a5 :: 32 :: x :: r) cs)
    = map (fun y => ([a1; a2; a3; a4; a5; 32] ++ y.1, y.2))
        (run K (MState (32 :: a5 :: a4 :: a3 :: a2 :: a1 :: b) (x :: r)
                       ((1%nat, [a1; a2; a3; a4; a5]) :: cs))).
Proof.
  intros H1 H2 H3 H4 H5 Hx Hb. rewrite !run_seq.
  unfold d5, ws1.
  run_cbn. unfold at_boundary. run_cbn. rewrite Hb, (dt_word a1 H1).
  run_eval. rewrite Hx. run_eval.
  unfold consume, set_cap. cbn [rev_append before after caps].
  rewrite !app_nil_r, !map_map. apply map_ext. by intros [? ?].
Qed.

Lemma loc_tail_head_fail b cs d r :
  is_digit d = true ->
  run (loc_tail table)
    (MState b (85 :: 109 :: 122 :: 117 :: 103 :: 115 :: 104 :: 101 :: 108 :: 102
                 :: 101 :: 114 :: 32 :: 97 :: 109 :: 32 :: d :: r) cs) = [].
Proof.
  intros Hd. unfold loc_tail.
  change (85 :: 109 :: 122 :: 117 :: 103 :: 115 :: 104 :: 101 :: 108 :: 102
             :: 101 :: 114 :: 32 :: 97 :: 109 :: 32 :: d :: r)
    with (85 :: [109; 122; 117; 103; 115; 104; 101; 108; 102; 101; 114; 32; 97; 109; 32]
             ++ d :: r).
  apply run_lazy_none.
  - reflexivity.
  - repeat constructor.
  - cbn [all_suffixes_fail app].
    do 11 (split; [by apply place_end_fail_letter|]).
    split; [by apply (place_end_fail_word 97 [109] (d :: r))|].
    do 2 (split; [by apply place_end_fail_letter|]).
    split; [|exact I].
    apply place_end_fail_space; [by apply dt_space|by apply digit_not_g].
  - by apply dt_city.
  - apply place_end_fail_letter. by apply dt_space.
Qed.

Lemma loc_pos0 :
  run (rx_loc table) (MState [] (n1 :: ns ++ head0 d1 d2 m1 m2 y1 y2 y3 y4 h1 h2 i1 i2 z1 z2 z3 z4 z5 town) []) = [].
Proof.
  destruct ns as [|n2 [|n3 [|n4 [|n5 [|n6 ns']]]]];
    unfold all_in in Hns; repeat match goal with
    | H : Forall _ (_ :: _) |- _ => apply Forall_cons in H as [? H]
    end.
  1-4: rewrite rx_loc_eq; unfold d5, ws1, head0; run_eval; reflexivity.
  - rewrite rx_loc_eq. unfold head0, tail1. cbn [app].
    rewrite loc_prefix by done. rewrite loc_tail_head_fail by done. reflexivity.
  - rewrite rx_loc_eq. unfold d5, ws1, head0. run_eval. reflexivity.
Qed.

Lemma loc_hit pre c w :
  town = c :: w -> word_at pre = false ->
  city_char table c = true -> is_space c = false -> all_in (city_char table) w ->
  all_suffixes_fail place_end w (32 :: s_gesucht) ->
  exists x st l, run (rx_loc table) (MState pre tl3 []) = (x, st) :: l /\
    assoc 1%nat (caps st) = Some [z1; z2; z3; z4; z5] /\
    assoc 2%nat (caps st) = Some town.
Proof.
  intros Hcity Hpre Hc Hsp Hw Hf. rewrite rx_loc_eq. unfold tail3.
  rewrite Hcity.
  change [32; 103; 101; 115; 117; 99; 104; 116] with (32 :: s_gesucht).
  cbn [app]. rewrite loc_prefix by done. unfold loc_tail.
  rewrite run_lazy_first by done.
  rewrite rep_lazy0_cons. cbn [flat_map fst snd]. unfold after_class at 1.
  rewrite !app_nil_r.
  match goal with |- context [_ ++ flat_map ?f ?l] => generalize (flat_map f l) end.
  intros T. unfold place_end, s_gesucht. cbn [Lit].
  run_eval. do 3 eexists. split; [reflexivity|]. split; reflexivity.
Qed.

Lemma loc_found c w :
  town = c :: w ->
  city_char table c = true -> is_space c = false -> all_in (city_char table) w ->
  all_suffixes_fail place_end w (32 :: s_gesucht) ->
  exists m, exec (rx_loc table) subject = Some m /\
    group 1 m = [z1; z2; z3; z4; z5] /\ group 2 m = town.
Proof.
  intros Hcity Hc Hsp Hw Hf. unfold exec, whole.
  rewrite exec_from_step by apply loc_pos0.
  rewrite rx_loc_eq. rewrite exec_from_skip_digits by done.
  unfold head0, d5, ws1. do 17 skip_step.
  unfold tail1. do 14 skip_step.
  unfold tail2. do 13 skip_step.
  fold ws1 d5. rewrite <- rx_loc_eq.
  match goal with |- context [exec_from _ ?pre tl3] =>
    destruct (loc_hit pre c w) as (x & st & l & Hrun & H1 & H2); try done
  end.
  erewrite exec_from_hit by exact Hrun.
  eexists. split; [reflexivity|]. unfold group. cbn [m_caps].
  by rewrite H1, H2.
Qed.

Context (city_words : list str).

Abbreviation the_words :=
  (subject_words n1 d1 d2 m1 m2 y1 y2 y3 y4 h1 h2 i1 i2 z1 z2 z3 z4 z5 ns city_words).

Lemma whole_words :
  town = join_sp city_words -> city_words <> [] -> subject = join_sp the_words.
Proof.
  intros Hcity Hne. unfold subject_words. rewrite join_sp_cons.
  unfold whole, head0, tail1, tail2, tail3. cbn [sp_join]. rewrite sp_join_app.
  destruct city_words as [|c cw]; [done|]. rewrite join_sp_cons in Hcity.
  rewrite Hcity. eval_lits. cbn [sp_join app]. list_eq.
Qed.

Lemma subject_words_plain :
  (forall c, is_L table c = true -> is_space c = false) ->
  Forall (letter_word table) city_words -> Forall plain_word the_words.
Proof.
  intros Hl Hcw. unfold subject_words.
  repeat (apply Forall_cons; split).
  10:{ apply Forall_app. split.
       - eapply Forall_impl; [exact Hcw|]. intros w. by apply letter_word_plain.
       - apply Forall_cons. split; [|done]. split; [done|]. repeat constructor. }
  all: split; [done|]; eval_lits;
    repeat (apply Forall_cons; split); try done;
    first [ by apply digits_plain
          | cbn; match goal with H : is_digit ?d = true |- _ => by rewrite (dt_space d H) end ].
Qed.

Lemma whole_parsed now_year internalDate :
  (forall c, is_L table c = true -> is_space c = false) ->
  town = join_sp city_words -> city_words <> [] ->
  Forall (letter_word table) city_words ->
  Forall (fun w => startsWith s_gesucht w = false) (tail city_words) ->
  test rx_nonjob subject = false -> exec rx_morgen subject = None ->
  parseJobDetailsFromSubject table now_year subject internalDate
    = Some (Job [d1; d2; 46; m1; m2; 46; y1; y2; y3; y4] [h1; h2; 58; i1; i2]
                [z1; z2; z3; z4; z5] town).
Proof.
  intros Hl Hcity Hne Hcw Hg Htest Hmorgen.
  assert (Hnorm : trim (replace_all rx_ws [32] subject) = subject).
  { rewrite whole_words by done. apply normalise_join_sp; [done|].
    by apply subject_words_plain. }
  assert (Hcityn : trim (replace_all rx_ws [32] town) = town).
  { rewrite Hcity. apply normalise_join_sp; [done|].
    eapply Forall_impl; [exact Hcw|]. intros w. by apply letter_word_plain. }
  destruct date_found as (md & Hd & Gd1 & Gd2 & Gd3).
  destruct time_found as (mt & Ht & Gt1 & Gt2).
  destruct city_words as [|[|c w1] cws] eqn:Ecw; [done| |].
  { apply Forall_cons in Hcw as [[? _] _]. done. }
  pose proof Hcw as [[_ [Hc Hw1]%Forall_cons] Hcws]%Forall_cons.
  cbn [tail] in Hg.
  assert (Hplain : Forall plain_word cws).
  { eapply Forall_impl; [exact Hcws|]. intros w. by apply letter_word_plain. }
  assert (Hcc : forall x, is_L table x = true -> city_char table x = true).
  { intros x Hx. unfold city_char. by rewrite Hx. }
  destruct (loc_found c (w1 ++ sp_join cws)) as (ml & Hloc & Gl1 & Gl2).
  { by rewrite Hcity, join_sp_cons. }
  { by apply Hcc. }
  { by apply Hl. }
  { apply Forall_app. split.
    - eapply Forall_impl; [exact Hw1|]. done.
    - clear -Hcws Hcc. induction Hcws as [|w ws [_ Hw] _ IH]; [constructor|].
      cbn [sp_join]. apply Forall_cons. split; [reflexivity|].
      apply Forall_app. split; [|exact IH].
      eapply Forall_impl; [exact Hw|]. done. }
  { apply all_suffixes_fail_app.
    - apply letters_fail. eapply Forall_impl; [exact Hw1|].
      intros x Hx. cbn. by rewrite (Hl x Hx).
    - by apply sp_join_fail. }
  unfold parseJobDetailsFromSubject.
  destruct subject as [|c0 r0] eqn:Ewhole; [done|]. rewrite <- Ewhole in *.
  rewrite Hnorm, Htest. cbv zeta. rewrite replace_first_none by done.
  unfold parse_date. rewrite Hd, Gd1, Gd2, Gd3.
  unfold parse_time. rewrite Ht, Gt1, Gt2. unfold try_time. cbn [truthy fst snd negb].
  rewrite Hloc, Gl1, Gl2, Hcityn. reflexivity.
Qed.

End Canonical.


(** * The claims about the subject parser *)

Lemma parse_scenario_A_subject y t :
  parseJobDetailsFromSubject latin_letters y scenario_A t = Some record_A.
Proof. vm_compute. reflexivity. Qed.

Lemma parse_scenario_A_text : parseJobDetailsFromText scenario_A = Some record_A.
Proof. vm_compute. reflexivity. Qed.

Lemma n_digits_2 w :
  n_digits 2 w -> exists a b, w = [a; b] /\ is_digit a = true /\ is_digit b = true.
Proof.
  intros [Hd Hl]. destruct w as [|a [|b [|? ?]]]; try done.
  apply Forall_cons in Hd as [Ha Hd]. apply Forall_cons in Hd as [Hb _]. eauto.
Qed.

Lemma n_digits_4 w :
  n_digits 4 w -> exists a b c d, w = [a; b; c; d] /\
    is_digit a = true /\ is_digit b = true /\ is_digit c = true /\ is_digit d = true.
Proof.
  intros [Hd Hl]. destruct w as [|a [|b [|c [|d [|? ?]]]]]; try done.
  repeat match goal with
  | H : digits (_ :: _) |- _ => apply Forall_cons in H as [? H]
  | H : Forall _ (_ :: _) |- _ => apply Forall_cons in H as [? H]
  end.
  eexists _, _, _, _. done.
Qed.

Lemma n_digits_5 w :
  n_digits 5 w -> exists a b c d e, w = [a; b; c; d; e] /\
    is_digit a = true /\ is_digit b = true /\ is_digit c = true /\
    is_digit d = true /\ is_digit e = true.
Proof.
  intros [Hd Hl]. destruct w as [|a [|b [|c [|d [|e [|? ?]]]]]]; try done.
  repeat match goal with
  | H : digits (_ :: _) |- _ => apply Forall_cons in H as [? H]
  | H : Forall _ (_ :: _) |- _ => apply Forall_cons in H as [? H]
  end.
  eexists _, _, _, _, _. done.
Qed.

Lemma canonical_subject_whole n1 ns d1 d2 m1 m2 y1 y2 y3 y4 h1 h2 i1 i2 z1 z2 z3 z4 z5 cws :
  canonical_subject (n1 :: ns) [d1; d2] [m1; m2] [y1; y2; y3; y4] [h1; h2] [i1; i2]
      [z1; z2; z3; z4; z5] cws
    = whole n1 d1 d2 m1 m2 y1 y2 y3 y4 h1 h2 i1 i2 z1 z2 z3 z4 z5 ns (join_sp cws).
Proof.
  unfold canonical_subject, whole, head0, tail1, tail2, tail3. eval_lits. list_eq.
Qed.

Lemma digits_check w : forallb is_digit w = true -> digits w.
Proof.
  intros H. apply Forall_forall. intros c Hc. rewrite forallb_forall in H.
  apply H. by apply list_elem_of_In.
Qed.

Lemma letter_word_check table w :
  w <> [] -> forallb (is_L table) w = true -> letter_word table w.
Proof.
  intros Hne H. split; [done|]. apply Forall_forall. intros c Hc.
  rewrite forallb_forall in H. apply H. by apply list_elem_of_In.
Qed.

Lemma latin_letters_not_space c : is_L latin_letters c = true -> is_space c = false.
Proof.
  intros H. destruct (is_space c) eqn:E; [|done]. exfalso.
  unfold is_space, in_range in E.
  rewrite !orb_true_iff, !andb_true_iff, !N.leb_le, !N.eqb_eq in E.
  unfold is_L, latin_letters, is_ascii_alpha, is_upper, is_lower, in_range in H.
  destruct (N.ltb_spec c 128);
    rewrite ?orb_true_iff, ?andb_true_iff, ?negb_true_iff, ?N.leb_le, ?N.eqb_eq,
      ?N.eqb_neq in H; lia.
Qed.

Ltac canonical_lit :=
  unfold canonical, n_digits; split_and!;
  first [ apply digits_check; vm_compute; reflexivity
        | repeat (apply Forall_cons; split);
          first [ apply letter_word_check; [done|vm_compute; reflexivity]
                | constructor ]
        | done ].




Lemma zip_then_letter_word_occurs table s :
  zip_then_letter_word table s -> occurs (rx_zip_letter table) s.
Proof.
  intros (pre & z & sp & w & post & -> & [Hz1 Hz2] & Hsp & Hw & Hall).
  pose proof (blanks_length _ Hsp) as Hl. destruct Hsp as [_ Hsp].
  destruct w as [|c w]; [done|]. apply Forall_cons in Hall as [Hc _].
  exists pre, (z ++ sp ++ [c]), (w ++ post). eexists.
  split; [list_eq|]. unfold rx_zip_letter. sem_goal.
  do 2 seq_leaf. by apply semc_cls.
Qed.

Lemma exec_no_zip_then_letter_word table s :
  exec (rx_zip_letter table) s = None -> ~ zip_then_letter_word table s.
Proof.
  intros H T. apply exec_none_iff in H. by apply H, zip_then_letter_word_occurs.
Qed.

(** C5 (as stated): the subject
    "2 Umzugshelfer am 23.08.2025 ab 15:00 Uhr in 58452 -" holds no
    five-digit zip followed by a letter word, and the parser returns a
    record for it, with the city "-". *)
Lemma C5_zip_without_letter_word_is_parsed :
  ~ zip_then_letter_word latin_letters (prepared subject_dash) /\
  parseJobDetailsFromSubject latin_letters 2025 subject_dash 0
    = Some (Job (lit "23.08.2025") (lit "15:00") (lit "58452") (lit "-")).
Proof.
  split.
  - apply exec_no_zip_then_letter_word. vm_compute. reflexivity.
  - vm_compute. reflexivity.
Qed.

(** C5 (amended): on the text the parser searches (white space collapsed
    and trimmed, the first "morgen" removed), when there is no time token
    (no "um"/"ab"-anchored H:MM, H.MM or bare hour, and no standalone H:MM
    or H.MM not immediately preceded by a digit or dot), the parser returns
    null; and when there is no place token (five digits standing alone,
    white space, and one or more characters that are letters, "-", ".",
    "'", "(", ")", "/" or white space, up to " gesucht" or the end of the
    text), the parser returns null. *)
Theorem C5_no_token_null (table : char -> bool) (y : N) (subject : str) (t : N) :
  let s := prepared subject in
  (~ has_time_token s -> parseJobDetailsFromSubject table y subject t = None) /\
  ((~ exists z c, place_token table s z c) ->
     parseJobDetailsFromSubject table y subject t = None).
Proof.
  intros s. subst s.
  destruct (parseJobDetailsFromSubject table y subject t) as [r|] eqn:E; [|done].
  apply parse_some_inv in E as (hh & mm & loc & Hd & Ht & Hh & _ & Hl & _).
  split.
  - intros Hno. apply no_time_token_exec in Hno as (H1 & H2 & H3 & H4 & H5).
    rewrite (parse_time_none _ H1 H2 H3 H4 H5) in Ht. injection Ht as <- <-. done.
  - intros Hno. exfalso. apply Hno. eauto using loc_sound.
Qed.

Lemma C5_no_token_null_witness :
  parseJobDetailsFromSubject latin_letters 2025 subject_no_time 0 = None /\
  parseJobDetailsFromSubject latin_letters 2025 subject_no_place 0 = None.
Proof.
  split.
  - apply (proj1 (C5_no_token_null latin_letters 2025 subject_no_time 0)).
    apply exec_no_time_token; vm_compute; reflexivity.
  - apply (proj2 (C5_no_token_null latin_letters 2025 subject_no_place 0)).
    apply exec_no_place_token; vm_compute; reflexivity.
Defined.

Lemma parse_date_short y s dateStr :
  parse_date y s = Some dateStr -> ~ full_date s ->
  exists d mo, short_date s d mo /\
    dateStr = z2 d ++ [46] ++ z2 mo ++ [46] ++ of_number y.
Proof.
  unfold parse_date. intros H Hno.
  destruct (exec rx_date_year s) as [m|] eqn:E1.
  { exfalso. apply Hno. by eapply date_year_sound. }
  destruct (exec rx_date_noyear s) as [m|] eqn:E2; [|done].
  injection H as <-. exists (group 1 m), (group 2 m).
  split; [by apply date_noyear_sound|done].
Qed.

Lemma parse_date_full y1 y2 s : full_date s -> parse_date y1 s = parse_date y2 s.
Proof.
  intros [m E]%full_date_exec. unfold parse_date. by rewrite E.
Qed.

Lemma parse_time_bare_hour s :
  (~ exists h m, anchored_colon s h m) -> (~ exists h m, anchored_dot s h m) ->
  (exists h, anchored_hour s h) ->
  exists h, anchored_hour s h /\ parse_time s = (Some h, Some (lit "00")).
Proof.
  intros H1 H2 (h & H3).
  assert (E1 : exec rx_time_colon s = None).
  { destruct (exec rx_time_colon s) eqn:E; [|done]. exfalso. apply H1.
    eauto using time_colon_sound. }
  assert (E2 : exec rx_time_dot s = None).
  { destruct (exec rx_time_dot s) eqn:E; [|done]. exfalso. apply H2.
    eauto using time_dot_sound. }
  destruct (exec rx_time_hour s) as [m|] eqn:E3.
  2:{ exfalso. apply exec_none_iff in E3. apply E3. by eapply time_hour_complete. }
  pose proof (time_hour_sound _ _ E3) as Hm.
  exists (group 1 m). split; [done|].
  unfold parse_time, try_time. rewrite E1. cbn. rewrite E2. cbn. rewrite E3. cbn.
  destruct Hm as (pre & k & sp & u & post & _ & _ & _ & _ & [_ Hlen] & _).
  destruct (group 1 m) as [|c l]; [simpl in Hlen; lia|]. done.
Qed.

Lemma z2_hour h :
  one_or_two_digits h ->
  exists a b, z2 h = [a; b] /\ is_digit a = true /\ is_digit b = true.
Proof.
  intros [Hd Hl]. destruct h as [|a [|b [|c l]]]; simpl in Hl; try lia.
  - apply Forall_cons in Hd as [Ha _]. exists 48, a. done.
  - apply Forall_cons in Hd as [Ha Hd]. apply Forall_cons in Hd as [Hb _].
    exists a, b. done.
Qed.

Lemma parse_date_synthesised y s :
  ~ full_date s -> (exists d mo, short_date s d mo) ->
  exists d mo, short_date s d mo /\
    parse_date y s = Some (z2 d ++ [46] ++ z2 mo ++ [46] ++ of_number y).
Proof.
  intros Hno (d & mo & Hs). unfold parse_date.
  destruct (exec rx_date_year s) as [m|] eqn:E1.
  { exfalso. apply Hno. by eapply date_year_sound. }
  destruct (exec rx_date_noyear s) as [m|] eqn:E2.
  - exists (group 1 m), (group 2 m). split; [by apply date_noyear_sound|done].
  - exfalso. apply exec_none_iff in E2. apply E2. by eapply date_noyear_complete.
Qed.



(** C8 (as stated): the subject of scenario B, parsed with the same
    received timestamp while the clock shows 2025 and while it shows 2026,
    gives two different records. *)
Lemma C8_result_changes_with_the_clock :
  parseJobDetailsFromSubject latin_letters 2025 scenario_B 0
    <> parseJobDetailsFromSubject latin_letters 2026 scenario_B 0.
Proof. vm_compute. discriminate. Qed.

(** C8 (amended): the result of the parser is a function of the subject
    and of the year the clock shows when it runs; the received timestamp
    has no part in it; and for a subject that carries a date with its year
    the result does not depend on the clock either. *)
Theorem C8_function_of_subject_and_year (table : char -> bool) (subject : str) :
  (forall y t1 t2,
     parseJobDetailsFromSubject table y subject t1
       = parseJobDetailsFromSubject table y subject t2) /\
  (full_date (prepared subject) ->
   forall y1 y2 t1 t2,
     parseJobDetailsFromSubject table y1 subject t1
       = parseJobDetailsFromSubject table y2 subject t2).
Proof.
  split; [reflexivity|].
  intros Hfull y1 y2 t1 t2. unfold parseJobDetailsFromSubject.
  destruct subject as [|c0 subject0]; [done|].
  set (subject := c0 :: subject0) in *. fold (prepared subject).
  destruct (test rx_nonjob _); [done|]. cbv zeta.
  by rewrite (parse_date_full y1 y2 _ Hfull).
Qed.

Lemma C8_function_of_subject_and_year_witness :
  parseJobDetailsFromSubject latin_letters 2025 scenario_A 0
    = parseJobDetailsFromSubject latin_letters 2026 scenario_A 1.
Proof.
  apply (proj2 (C8_function_of_subject_and_year latin_letters scenario_A)).
  exists (lit "2 Umzugshelfer am "), (lit "23"), (lit "08"), (lit "2025"),
    (lit " ab 15:00 Uhr in 58452 Witten gesucht").
  split_and!; try (vm_compute; reflexivity).
  all: split; [repeat constructor|simpl; lia].
Defined.


(** * The set of processed job keys *)

Lemma set_add_NoDup k s : NoDup s -> NoDup (set_add k s).
Proof.
  intros H. unfold set_add, set_has. case_bool_decide; [done|].
  apply NoDup_app. split; [done|]. split; [|apply NoDup_singleton].
  intros x Hx Hx'. apply list_elem_of_singleton in Hx'. by subst.
Qed.

Lemma set_add_elem k s : k ∈ set_add k s.
Proof.
  unfold set_add, set_has. case_bool_decide; [done|].
  apply elem_of_app. right. apply list_elem_of_singleton. done.
Qed.

Lemma set_add_length k s :
  length (set_add k s) = if set_has k s then length s else S (length s).
Proof.
  unfold set_add. destruct (set_has k s); [done|].
  rewrite length_app. simpl. lia.
Qed.

Lemma foldl_set_add acc l :
  NoDup (acc ++ l) -> foldl (fun a j => set_add j a) acc l = acc ++ l.
Proof.
  revert acc. induction l as [|x l IH]; intros acc H; simpl.
  - by rewrite app_nil_r.
  - assert (Hx : x ∉ acc).
    { apply NoDup_app in H as (_ & H & _). intros Hin. apply (H x Hin). left. }
    unfold set_add at 2, set_has. rewrite bool_decide_eq_false_2 by done.
    rewrite IH; rewrite <- app_assoc; done.
Qed.

Lemma slice_last_length {A} n (l : list A) :
  length (slice_last n l) = Nat.min n (length l).
Proof. unfold slice_last. rewrite length_drop. lia. Qed.

Lemma markJobAsProcessed_spec k s :
  NoDup s -> (length s <= cap)%nat ->
  let s1 := set_add k s in
  let s' := markJobAsProcessed k s in
  NoDup s' /\ (length s' <= cap)%nat /\ k ∈ s' /\
  (if (cap <? length s1)%nat
   then s1 = s ++ [k] /\ length s1 = S cap /\ s' = drop (S cap - keep) s1
        /\ length s' = keep
   else s' = s1).
Proof.
  intros Hnd Hlen s1 s'. subst s1 s'. unfold markJobAsProcessed.
  pose proof (set_add_NoDup k s Hnd) as Hnd1.
  pose proof (set_add_length k s) as Hl1.
  pose proof (set_add_elem k s) as Hin.
  destruct (Nat.ltb_spec cap (length (set_add k s))) as [Hgt|Hle].
  - assert (Hhas : set_has k s = false).
    { destruct (set_has k s); [lia|done]. }
    rewrite Hhas in Hl1.
    assert (Hs1 : set_add k s = s ++ [k]) by (unfold set_add; by rewrite Hhas).
    assert (Hl : length (set_add k s) = S cap) by lia.
    assert (Hsl : slice_last keep (set_add k s) = drop (S cap - keep) (set_add k s)).
    { unfold slice_last. by rewrite Hl. }
    rewrite foldl_set_add.
    2:{ simpl. rewrite Hsl. eapply sublist_NoDup; [done|apply sublist_drop]. }
    simpl. rewrite Hsl. split_and!; try done.
    + eapply sublist_NoDup; [done|apply sublist_drop].
    + rewrite length_drop, Hl. unfold cap, keep. lia.
    + rewrite Hs1, drop_app_le by (unfold cap, keep in *; lia).
      apply elem_of_app. right. apply list_elem_of_singleton. done.
    + rewrite length_drop, Hl. unfold cap, keep. lia.
  - split_and!; try done.
Qed.

Lemma run_marks_inv ks : NoDup (run_marks ks) /\ (length (run_marks ks) <= cap)%nat.
Proof.
  unfold run_marks.
  assert (H : NoDup ([] : JsSet) /\ (length ([] : JsSet) <= cap)%nat).
  { split; [constructor|simpl; lia]. }
  revert H. generalize ([] : JsSet) as s.
  induction ks as [|k ks IH]; intros s [Hnd Hlen]; simpl; [done|].
  apply IH. destruct (markJobAsProcessed_spec k s Hnd Hlen) as (?&?&?&?). done.
Qed.

(** C7: whatever keys were added before, the set holds at most 1000 keys
    between two adds and at most 1001 right after the key is inserted; when
    the insertion makes 1001, the set is rebuilt from the last 500 keys in
    insertion order, which is at least half of them and includes the new
    key, the 501 oldest being dropped; otherwise nothing is dropped. *)
Theorem C7_markJobAsProcessed_eviction (ks : list JobKey) (k : JobKey) :
  let s := run_marks ks in
  let s1 := set_add k s in
  let s' := markJobAsProcessed k s in
  (length s <= 1000)%nat /\ (length s1 <= 1001)%nat /\ (length s' <= 1000)%nat /\
  NoDup s' /\ k ∈ s' /\
  ((1000 < length s1)%nat ->
     s' = drop 501 (s ++ [k]) /\ length s' = 500%nat /\
     (length s1 / 2 <= length s')%nat) /\
  ((length s1 <= 1000)%nat -> s' = s1).
Proof.
  intros s s1 s'.
  destruct (run_marks_inv ks) as [Hnd Hlen]. fold s in Hnd, Hlen.
  destruct (markJobAsProcessed_spec k s Hnd Hlen) as (H1 & H2 & H3 & H4).
  fold s' in H1, H2, H3, H4. fold s1 in H4.
  pose proof (set_add_length k s) as Hl. fold s1 in Hl.
  unfold cap, keep in *.
  assert (Hl1 : (length s1 <= 1001)%nat) by (destruct (set_has k s); lia).
  split_and!; try done.
  - intros Hgt. apply Nat.ltb_lt in Hgt. rewrite Hgt in H4.
    destruct H4 as (E1 & E2 & E3 & E4). rewrite E1 in E3.
    split_and!; [exact E3|done|].
    rewrite E2, E4. clear. 
    apply Nat.leb_le. vm_compute. reflexivity.
  - intros Hle. apply Nat.ltb_ge in Hle. by rewrite Hle in H4.
Qed.

Lemma C7_markJobAsProcessed_eviction_witness :
  let s := run_marks (numbered_keys 1000) in
  markJobAsProcessed [1000%N] s = drop 501 (s ++ [[1000%N]]) /\
  length (markJobAsProcessed [1000%N] s) = 500%nat /\
  (length (set_add [1000%N] s) / 2 <= length (markJobAsProcessed [1000%N] s))%nat.
Proof.
  pose proof (C7_markJobAsProcessed_eviction (numbered_keys 1000) [1000%N]) as H.
  cbv zeta in H. destruct H as (_ & _ & _ & _ & _ & H & _).
  apply H. apply Nat.ltb_lt. vm_compute. reflexivity.
Defined.

(** * The mailbox watcher *)

Section WatcherClaims.

Import Watcher.

Section WatcherFacts.

Context (fetchSubject : N -> outcome str)
        (jobHandler : JobRecord -> outcome HandlerReturn)
        (addSeenFlag : N -> outcome unit).

Let step1 := process_uid fetchSubject jobHandler addSeenFlag.

Lemma retry_or_give_up_spec limit uid w :
  retry_or_give_up limit uid w =
    if (limit <=? getEmailRetryCount uid w)%nat then (Returned true, w)
    else (Returned false, incrementEmailRetryCount uid w).
Proof. reflexivity. Qed.

(** The watcher with retry counters marks a parsed message read only on
    success, on a duplicate, or when its retry budget is used up. *)
Lemma process_uid_marks_only_when_allowed uid w subject details :
  fetchSubject uid = Returned subject ->
  parseJobDetailsFromText subject = Some details ->
  let w' := snd (step1 uid w) in
  (uid ∈ seen w' -> uid ∉ seen w ->
     isJobAlreadyProcessed (jobKey_of details) (processedJobs w) = true
     \/ (exists r, jobHandler details = Returned r /\ reports_success r = true)
     \/ (exists r, jobHandler details = Returned r /\ (3 <= getEmailRetryCount uid w)%nat)
     \/ (exists e, jobHandler details = Thrown e /\ (2 <= getEmailRetryCount uid w)%nat))
  /\
  (forall r, isJobAlreadyProcessed (jobKey_of details) (processedJobs w) = false ->
     jobHandler details = Returned r -> reports_success r = false ->
     (getEmailRetryCount uid w < 3)%nat ->
     seen w' = seen w /\
     getEmailRetryCount uid w' = S (getEmailRetryCount uid w)).
Proof.
  intros Hf Hp w'. subst w' step1.
  unfold process_uid, decide_mark, bind, try_catch, lift. rewrite Hf, Hp. simpl.
  destruct (isJobAlreadyProcessed (jobKey_of details) (processedJobs w)) eqn:Hdup.
  { split; [by left|done]. }
  destruct (jobHandler details) as [r|e] eqn:Hh.
  - destruct (reports_success r) eqn:Hs.
    { split; [right; left; by exists r|]. intros r' _ [= <-]. congruence. }
    rewrite retry_or_give_up_spec.
    destruct (Nat.leb_spec 3 (getEmailRetryCount uid w)) as [Hge|Hlt].
    + split; [right; right; left; by exists r|]. intros; lia.
    + simpl. split; [intros H1 H2; by destruct H2|].
      intros _ _ _ _ _. split; [done|].
      unfold getEmailRetryCount, incrementEmailRetryCount. simpl.
      rewrite lookup_insert_eq. simpl. unfold getEmailRetryCount. lia.
  - rewrite retry_or_give_up_spec.
    destruct (Nat.leb_spec 2 (getEmailRetryCount uid w)) as [Hge|Hlt].
    + split; [right; right; right; by exists e|]. intros; congruence.
    + simpl. split; [intros H1 H2; by destruct H2|]. intros; congruence.
Qed.

End WatcherFacts.

(** C4: a failing input of email-watcher-smtp-new.js.  An unread message
    carries the subject of scenario A, which parses; the handler reports
    failure; no retry has been made.  The watcher marks the message read.
    The watcher with retry counters (part_002) leaves the same message
    unread when the job is no duplicate and retries remain. *)
Theorem C4_new_watcher_marks_failed_job_read (w : Watcher) (uid : N) :
  let details := record_A in
  (* the subject parses, the handler reports failure, no retry was made *)
  parseJobDetailsFromSubject latin_letters 2025 scenario_A 0 = Some details /\
  reports_success (Some (Some (MkResults [] [jobKey_of details]))) = false /\
  (* email-watcher-smtp-new.js marks the message read *)
  seen (snd (process_uid_new subject_A failing_handler flag_ok latin_letters 2025
               (fun _ => 0) uid w)) = {[uid]} ∪ seen w /\
  (* the watcher with retry counters leaves it unread and counts a retry *)
  (isJobAlreadyProcessed (jobKey_of details) (processedJobs w) = false ->
   (getEmailRetryCount uid w < 3)%nat ->
   seen (snd (process_uid subject_A failing_handler flag_ok uid w)) = seen w).
Proof.
  intros details. split_and!.
  - apply parse_scenario_A_subject.
  - reflexivity.
  - unfold process_uid_new, bind, try_catch, lift, subject_A.
    rewrite parse_scenario_A_subject. reflexivity.
  - intros Hdup Hlt.
    destruct (process_uid_marks_only_when_allowed subject_A failing_handler flag_ok
                uid w scenario_A record_A eq_refl parse_scenario_A_text) as [_ H].
    destruct (H _ Hdup eq_refl eq_refl Hlt) as [H' _]. exact H'.
Qed.

Lemma C4_new_watcher_marks_failed_job_read_witness :
  seen (snd (process_uid subject_A failing_handler flag_ok 7 fresh)) = seen fresh.
Proof.
  destruct (C4_new_watcher_marks_failed_job_read fresh 7) as (_ & _ & _ & H).
  apply H; [reflexivity|]. vm_compute. lia.
Defined.

End WatcherClaims.

(** * Notifications *)

Section NotifierClaims.

Import Notifier.

(** C9 (as stated): sendTestEmail hands a failure to send to its caller,
    and so it does when there is no transporter. *)
Lemma C9_sendTestEmail_propagates :
  fst (sendTestEmail [] [] 587 [] (Some (refusing (lit "ECONNREFUSED"))) (MkWorld [] []))
    = Thrown (lit "ECONNREFUSED")
  /\ fst (sendTestEmail [] [] 587 [] None (MkWorld [] []))
    = Thrown (lit "SMTP transporter not initialized").
Proof. split; reflexivity. Qed.

(** C9 (amended): sendSuccessNotification and sendErrorNotification never
    throw; a refused mail is logged as an error and nothing else happens.
    sendTestEmail throws when the transporter is missing or refuses the
    mail, and logs nothing then.  None of the three calls sendMail more than
    once. *)
Theorem C9_notifications_fire_and_log (user host : str) (port : N) (iso : str)
    (tr : option Transport) (jobs : list str) (rt : N) (err : JsError) (w : World) :
  let ok := sendSuccessNotification user iso tr jobs rt w in
  let ko := sendErrorNotification user iso tr err jobs w in
  let tst := sendTestEmail user host port iso tr w in
  (* success and error notifications never reject *)
  fst ok = Returned tt /\ fst ko = Returned tt /\
  (* no operation calls sendMail more than once *)
  (exists ms, sendMail_calls (snd ok) = sendMail_calls w ++ ms /\ (length ms <= 1)%nat) /\
  (exists ms, sendMail_calls (snd ko) = sendMail_calls w ++ ms /\ (length ms <= 1)%nat) /\
  (exists ms, sendMail_calls (snd tst) = sendMail_calls w ++ ms /\ (length ms <= 1)%nat) /\
  (* a refused success or error mail is logged as an error *)
  (forall t e, tr = Some t -> t (success_mail user iso jobs rt) = Some e ->
     console (snd ok) = console w ++
       [LogError ([10060] ++ lit " Failed to send success notification:") e]) /\
  (forall t e, tr = Some t -> t (error_mail user iso err jobs) = Some e ->
     console (snd ko) = console w ++
       [LogError ([10060] ++ lit " Failed to send error notification:") e]) /\
  (* the test mail hands its failure to the caller and logs nothing *)
  (tr = None -> tst = (Thrown (lit "SMTP transporter not initialized"), w)) /\
  (forall t e, tr = Some t -> t (test_mail user host port iso) = Some e ->
     fst tst = Thrown e /\ console (snd tst) = console w).
Proof.
  intros ok ko tst. subst ok ko tst.
  unfold sendSuccessNotification, sendErrorNotification, sendTestEmail.
  destruct tr as [t|]; simpl.
  - unfold try_catch, bind, sendMail, console_log, console_error, modify, ret.
    destruct (t (success_mail user iso jobs rt)) eqn:E1;
    destruct (t (error_mail user iso err jobs)) eqn:E2;
    destruct (t (test_mail user host port iso)) eqn:E3; simpl;
    (split_and!; try done;
     try (eexists; split; [reflexivity|simpl; lia]);
     try (intros ? ? [= <-] Hx; rewrite ?E1, ?E2, ?E3 in Hx; by inversion Hx)).
  - unfold ret, throw. simpl. split_and!; try done;
      exists []; rewrite app_nil_r; split; simpl; (done || lia).
Qed.

Lemma C9_notifications_fire_and_log_witness :
  console (snd (sendSuccessNotification [] [] (Some (refusing (lit "ECONNREFUSED")))
                  [lit "a"] 5 (MkWorld [] [])))
    = [LogError ([10060] ++ lit " Failed to send success notification:")
         (lit "ECONNREFUSED")] /\
  fst (sendTestEmail [] [] 587 [] (Some (refusing (lit "ECONNREFUSED"))) (MkWorld [] []))
    = Thrown (lit "ECONNREFUSED").
Proof.
  pose proof (C9_notifications_fire_and_log [] [] 587 []
                (Some (refusing (lit "ECONNREFUSED"))) [lit "a"] 5
                (MkError [] []) (MkWorld [] [])) as H.
  cbv zeta in H. destruct H as (_ & _ & _ & _ & _ & H1 & _ & _ & H2).
  split.
  - apply (H1 (refusing (lit "ECONNREFUSED")) (lit "ECONNREFUSED")); reflexivity.
  - apply (H2 (refusing (lit "ECONNREFUSED")) (lit "ECONNREFUSED")); reflexivity.
Defined.

End NotifierClaims.

(** * Looking a job up on the listings page *)

Section ListingClaims.

Import Automator.

Lemma no_match_count (es : list Entry) (l : Locator) :
  (forall e, e ∈ es -> l e = false) ->
  length (filter (fun e => l e = true) es) = 0%nat.
Proof.
  intros H. induction es as [|e es IH]; [done|].
  rewrite filter_cons_False.
  - apply IH. intros e' He'. apply H. by apply elem_of_cons; right.
  - rewrite H; [done|]. by apply elem_of_cons; left.
Qed.

(** C2 (as stated): in automator-simple-new.js applyToJobByDetails has no
    try/catch of its own.  On a page where no entry shows the text of the
    job, it throws what goToMeineJobs throws (a failed login), and it
    throws what a locator query rejects with when the page has been closed
    after goToMeineJobs returned; in neither case is the result false. *)
Lemma C2_new_automator_propagates_errors :
  (forall e, e ∈ page_other -> text_includes (needle_of record_A) e = false) /\
  applyToJobByDetails (fun w => w) text_includes no_click no_op no_op no_op
      (throw (lit "Login failed - check credentials")) (fun _ => None)
      record_A page_other
    = (Thrown (lit "Login failed - check credentials"), page_other) /\
  applyToJobByDetails (fun w => w) text_includes no_click no_op no_op no_op
      (ret true) (fun _ => Some (lit "Target page, context or browser has been closed"))
      record_A page_other
    = (Thrown (lit "Target page, context or browser has been closed"), page_other).
Proof.
  split_and!.
  - intros e He. apply list_elem_of_singleton in He as ->. vm_compute. reflexivity.
  - reflexivity.
  - reflexivity.
Qed.

(** C2 (amended): when no entry of the listings page shows the text
    "Am {date} um {time} in {zip}", applyToJobByDetails of
    automator-simple.js returns false and does not throw, whatever
    goToMeineJobs does, a thrown error being caught and turned into false.
    applyToJobByDetails of automator-simple-new.js returns false on such a
    page when goToMeineJobs has returned and the page answers the locator
    queries; an error of goToMeineJobs, or of a query on a closed page, it
    passes on to its caller. *)
Theorem C2_no_match_returns_false {W : Type}
    (entries : W -> list Entry) (hasText : str -> Entry -> bool)
    (click_accept : Locator -> M W unit) (settle reload wait_for_entries : M W unit)
    (click_and_navigate : Locator -> M W unit) (debug_mode : bool)
    (screenshot : M W unit)
    (goToMeineJobs_new : M W bool) (closed : W -> option str)
    (goToMeineJobs_old : M W unit)
    (job : JobRecord) (w : W) :
  (* automator-simple-new.js: the listings page [w'] that goToMeineJobs leaves *)
  (forall ok w',
     goToMeineJobs_new w = (Returned ok, w') -> closed w' = None ->
     (forall e, e ∈ entries w' -> hasText (needle_of job) e = false) ->
     applyToJobByDetails entries hasText click_accept settle reload wait_for_entries
       goToMeineJobs_new closed job w = (Returned false, w')) /\
  (forall err w',
     goToMeineJobs_new w = (Thrown err, w') ->
     applyToJobByDetails entries hasText click_accept settle reload wait_for_entries
       goToMeineJobs_new closed job w = (Thrown err, w')) /\
  (forall ok w' err,
     goToMeineJobs_new w = (Returned ok, w') -> closed w' = Some err ->
     applyToJobByDetails entries hasText click_accept settle reload wait_for_entries
       goToMeineJobs_new closed job w = (Thrown err, w')) /\
  (* automator-simple.js *)
  ((forall e, e ∈ entries (snd (goToMeineJobs_old w)) ->
      hasText (needle_with_city job) e = false /\
      hasText (needle_without_city job) e = false) ->
   fst (applyToJobByDetails_old entries hasText click_and_navigate debug_mode screenshot
          goToMeineJobs_old job w) = Returned false).
Proof.
  split_and!.
  - intros ok w' Hgo Hopen Hno. unfold applyToJobByDetails, bind, awaited, count.
    rewrite Hgo, Hopen.
    rewrite no_match_count
      by (intros e He; rewrite (Hno e He); apply andb_false_r).
    simpl. rewrite Hopen.
    rewrite no_match_count
      by (intros e He; rewrite (Hno e He); apply andb_false_r).
    done.
  - intros err w' Hgo. unfold applyToJobByDetails, bind. by rewrite Hgo.
  - intros ok w' err Hgo Hclosed. unfold applyToJobByDetails, bind, awaited.
    by rewrite Hgo, Hclosed.
  - intros Hno. unfold applyToJobByDetails_old, try_catch, bind, count.
    destruct (goToMeineJobs_old w) as [[[]|err] w'] eqn:Hgo; simpl in *.
    + rewrite no_match_count
        by (intros e He; destruct (Hno e He) as [-> _]; apply andb_false_r).
      simpl.
      rewrite no_match_count
        by (intros e He; destruct (Hno e He) as [_ ->]; apply andb_false_r).
      done.
    + unfold maybeScreenshot, try_catch, ret.
      destruct debug_mode; [|done].
      destruct (screenshot w') as [[[]|?] ?]; done.
Qed.

Lemma C2_no_match_returns_false_witness :
  applyToJobByDetails (fun w => w) text_includes no_click no_op no_op no_op
      (ret true) (fun _ => None) record_A page_other = (Returned false, page_other) /\
  fst (applyToJobByDetails_old (fun w => w) text_includes no_click false no_op
         (ret tt) record_A page_other) = Returned false.
Proof.
  pose proof (C2_no_match_returns_false (fun w => w) text_includes no_click no_op
                no_op no_op no_click false no_op (ret true) (fun _ => None) (ret tt)
                record_A page_other) as (H1 & _ & _ & H2).
  split.
  - apply (H1 true page_other); [reflexivity|reflexivity|].
    intros e He. apply list_elem_of_singleton in He as ->. vm_compute. reflexivity.
  - apply H2. intros e He. apply list_elem_of_singleton in He as ->.
    split; vm_compute; reflexivity.
Defined.

End ListingClaims.

(** * Test ids in processJobs *)

Section ProcessJobsClaims.

Import Automator.

Section ProcessJobsFacts.

Context {W : Type} (entries : W -> list Entry) (hasText : str -> Entry -> bool)
  (click_and_navigate : Locator -> M W unit) (debug_mode : bool)
  (screenshot : M W unit) (goToMeineJobs : M W unit).

Let loop := processJobs_loop entries hasText click_and_navigate debug_mode
              screenshot goToMeineJobs.
Let apply1 := applyToJob entries hasText click_and_navigate debug_mode
              screenshot goToMeineJobs.

Lemma loop_cons jobId rest r0 w :
  loop (jobId :: rest) r0 w =
    if is_test_id jobId then loop rest (push_successful jobId r0) w
    else match apply1 jobId w with
         | (Returned true, w1) => loop rest (push_successful jobId r0) w1
         | (_, w1) => loop rest (push_failed jobId r0) w1
         end.
Proof.
  unfold loop, apply1. simpl. unfold bind, try_catch, ret.
  destruct (is_test_id jobId); [done|].
  destruct (applyToJob _ _ _ _ _ _ jobId w) as [[[|]|e] w1]; done.
Qed.

Lemma loop_returns jobIds : forall r0 w,
  exists r w', loop jobIds r0 w = (Returned r, w') /\
    (forall j, j ∈ successful r0 -> j ∈ successful r) /\
    (forall j, j ∈ jobIds -> is_test_id j = true -> j ∈ successful r) /\
    (forall j, j ∈ failed r -> j ∈ failed r0 \/ (j ∈ jobIds /\ is_test_id j = false)) /\
    (Forall (fun j => is_test_id j = true) jobIds ->
       w' = w /\ successful r = successful r0 ++ jobIds /\ failed r = failed r0).
Proof.
  induction jobIds as [|j rest IH]; intros r0 w.
  - exists r0, w. split; [done|]. split_and!; try done.
    + intros j Hj. by apply elem_of_nil in Hj.
    + intros j Hj. by left.
    + intros _. by rewrite app_nil_r.
  - rewrite loop_cons. destruct (is_test_id j) eqn:Ej.
    + destruct (IH (push_successful j r0) w) as (r & w' & E & Hs & Ht & Hf & Hall).
      exists r, w'. split; [done|]. simpl in *. split_and!.
      * intros x Hx. apply Hs, elem_of_app. by left.
      * intros x [-> |Hx]%elem_of_cons Hx'; [|by apply Ht].
        apply Hs, elem_of_app. right. by apply list_elem_of_singleton.
      * intros x Hx. destruct (Hf x Hx) as [?|[? ?]]; [by left|right].
        split; [by apply elem_of_cons; right|done].
      * intros Hfa. apply Forall_cons in Hfa as [_ Hfa].
        destruct (Hall Hfa) as [-> [-> ->]]. by rewrite <- app_assoc.
    + assert (Hgen : forall r1 w1,
        (forall x, x ∈ successful r0 -> x ∈ successful r1) ->
        (forall x, x ∈ failed r1 -> x ∈ failed r0 \/ x = j) ->
        exists r w', loop rest r1 w1 = (Returned r, w') /\
          (forall x, x ∈ successful r0 -> x ∈ successful r) /\
          (forall x, x ∈ j :: rest -> is_test_id x = true -> x ∈ successful r) /\
          (forall x, x ∈ failed r ->
             x ∈ failed r0 \/ (x ∈ j :: rest /\ is_test_id x = false)) /\
          (Forall (fun x => is_test_id x = true) (j :: rest) ->
             w' = w /\ successful r = successful r0 ++ j :: rest /\ failed r = failed r0)).
      { intros r1 w1 H1 H2.
        destruct (IH r1 w1) as (r & w' & E & Hs & Ht & Hf & _).
        exists r, w'. split; [done|]. split_and!.
        - intros x Hx. by apply Hs, H1.
        - intros x [-> |Hx]%elem_of_cons Hx'; [congruence|by apply Ht].
        - intros x Hx. destruct (Hf x Hx) as [Hx'|[? ?]].
          + destruct (H2 x Hx') as [?| ->]; [by left|right].
            split; [by apply elem_of_cons; left|done].
          + right. split; [by apply elem_of_cons; right|done].
        - intros Hfa. apply Forall_cons in Hfa as [Hj _]. congruence. }
      destruct (apply1 j w) as [[[|]|e] w1]; apply Hgen; simpl;
        intros x; rewrite ?elem_of_app, ?list_elem_of_singleton; tauto.
Qed.

Lemma loop_world jobIds : forall r0 r1 w,
  snd (loop jobIds r0 w) = snd (loop (real_ids jobIds) r1 w).
Proof.
  induction jobIds as [|j rest IH]; intros r0 r1 w; [done|].
  unfold real_ids. rewrite loop_cons. destruct (is_test_id j) eqn:Ej.
  - rewrite filter_cons_False by congruence. apply IH.
  - rewrite filter_cons_True by done. rewrite loop_cons, Ej.
    destruct (apply1 j w) as [[[|]|e] w1]; apply IH.
Qed.

End ProcessJobsFacts.

(** C10 (as stated): an automator that is not ready throws before it looks
    at any id, so the id "TEST123" is not reported at all. *)
Lemma C10_not_ready_throws :
  processJobs (fun w => w) text_includes no_click false no_op (ret tt) false true
      [lit "TEST123"] page_other
    = (Thrown (lit "Automator not ready or not logged in"), page_other) /\
  is_test_id (lit "TEST123") = true.
Proof. split; reflexivity. Qed.

(** C10 (amended): when the automator is ready and logged in, processJobs
    returns, and every id that is "TEST123" or begins with "TEST" is in
    results.successful and not in results.failed; no page navigation,
    listing lookup or form submission is made for it: the browser ends in
    the state in which processing the other ids alone leaves it, and is not
    touched at all when every id is a test id. *)
Theorem C10_test_ids_reported_successful {W : Type}
    (entries : W -> list Entry) (hasText : str -> Entry -> bool)
    (click_and_navigate : Locator -> M W unit) (debug_mode : bool)
    (screenshot : M W unit) (goToMeineJobs : M W unit)
    (ready isLoggedIn : bool) (jobIds : list str) (w : W) :
  ready = true -> isLoggedIn = true ->
  let go := processJobs entries hasText click_and_navigate debug_mode screenshot
              goToMeineJobs ready isLoggedIn in
  exists results w',
    go jobIds w = (Returned results, w') /\
    (forall j, j ∈ jobIds -> is_test_id j = true ->
       j ∈ successful results /\ j ∉ failed results) /\
    w' = snd (go (real_ids jobIds) w) /\
    (Forall (fun j => is_test_id j = true) jobIds ->
       w' = w /\ successful results = jobIds /\ failed results = []).
Proof.
  intros -> -> go. subst go. unfold processJobs. simpl.
  destruct (loop_returns entries hasText click_and_navigate debug_mode screenshot
              goToMeineJobs jobIds (MkResults [] []) w)
    as (r & w' & E & _ & Ht & Hf & Hall).
  exists r, w'. split; [done|]. split_and!.
  - intros j Hj Hjt. split; [by apply Ht|].
    intros Hjf. destruct (Hf j Hjf) as [Hn|[_ Hn]]; [by apply elem_of_nil in Hn|congruence].
  - rewrite <- (loop_world entries hasText click_and_navigate debug_mode screenshot
                  goToMeineJobs jobIds (MkResults [] []) (MkResults [] []) w).
    by rewrite E.
  - intros Hfa. destruct (Hall Hfa) as (? & ? & ?). done.
Qed.

Lemma C10_test_ids_reported_successful_witness :
  exists results w',
    processJobs (fun w => w) text_includes no_click false no_op (ret tt) true true
        [lit "TEST123"; lit "TESTabc"] page_other = (Returned results, w') /\
    successful results = [lit "TEST123"; lit "TESTabc"] /\ failed results = [] /\
    w' = page_other.
Proof.
  destruct (C10_test_ids_reported_successful (fun w => w) text_includes no_click
              false no_op (ret tt) true true [lit "TEST123"; lit "TESTabc"]
              page_other eq_refl eq_refl)
    as (results & w' & E & _ & _ & H).
  exists results, w'. destruct H as (? & ? & ?).
  - repeat constructor.
  - done.
Defined.

End ProcessJobsClaims.

(** * The single-flight job handler *)

Section ServiceClaims.

Import Service.

Lemma enter_single_flight ids s : single_flight s -> single_flight (enter ids s).
Proof.
  unfold single_flight, enter. intros H.
  destruct ids as [[|j ids]|]; try done.
  destruct (isProcessing s) eqn:E; simpl; [done|].
  rewrite length_app, H. done.
Qed.

Lemma leave_single_flight i t s :
  single_flight s -> is_Some (in_flight s !! i) -> single_flight (leave i t s).
Proof.
  unfold single_flight, leave. intros H Hi. simpl.
  rewrite length_delete by done. rewrite H.
  apply lookup_lt_is_Some in Hi. rewrite H in Hi.
  destruct (isProcessing s); [done|lia].
Qed.

Lemma step_single_flight s ev : single_flight s -> single_flight (step s ev).
Proof.
  intros H. destruct ev as [ids|i|i r|i]; unfold step.
  - by apply enter_single_flight.
  - destruct (timers s !! i); [|done]. by apply enter_single_flight.
  - destruct (in_flight s !! i) as [[ids [| |]]|] eqn:Ei; try done.
    destruct r as [results|e].
    + destruct (0 <? length (successful results))%nat.
      * unfold single_flight, set_phase in *. simpl. by rewrite length_insert.
      * apply leave_single_flight; [done|]. simpl. by rewrite Ei.
    + unfold single_flight, set_phase in *. simpl. by rewrite length_insert.
  - destruct (in_flight s !! i) as [[ids [|results|e]]|] eqn:Ei; try done;
      (apply leave_single_flight; [done|by rewrite Ei]).
Qed.

Lemma run_events_single_flight evs s :
  single_flight s -> single_flight (run_events s evs).
Proof.
  revert s. induction evs as [|ev evs IH]; intros s H; [done|].
  simpl. apply IH. by apply step_single_flight.
Qed.

Lemma step_starts s ev :
  (length (in_flight s) < length (in_flight (step s ev)))%nat ->
  isProcessing s = false /\
  exists ids, ids <> [] /\
    in_flight (step s ev) = in_flight s ++ [MkActivation ids AwaitProcessJobs] /\
    isProcessing (step s ev) = true /\
    (ev = Call (Some ids) \/ exists i, ev = TimerFires i /\ timers s !! i = Some ids).
Proof.
  assert (Henter : forall ids s0,
    (length (in_flight s0) < length (in_flight (enter ids s0)))%nat ->
    isProcessing s0 = false /\
    exists j, ids = Some j /\ j <> [] /\
      in_flight (enter ids s0) = in_flight s0 ++ [MkActivation j AwaitProcessJobs] /\
      isProcessing (enter ids s0) = true).
  { intros ids s0. unfold enter. destruct ids as [[|j ids]|]; try lia.
    destruct (isProcessing s0) eqn:E; simpl; [lia|]. intros _.
    split; [done|]. exists (j :: ids). done. }
  destruct ev as [ids|i|i r|i]; unfold step.
  - intros Hlt. destruct (Henter _ _ Hlt) as (Hp & j & -> & Hj & E1 & E2).
    split; [done|]. exists j. split_and!; try done. by left.
  - destruct (timers s !! i) as [ids|] eqn:Et; [|lia].
    set (s0 := MkService (isProcessing s) (stats s) (in_flight s)
                 (delete i (timers s)) (finished s)).
    intros Hlt.
    destruct (Henter (Some ids) s0 Hlt) as (Hp & j & [= <-] & Hj & E1 & E2).
    split; [done|]. exists ids. split_and!; try done. right. by exists i.
  - destruct (in_flight s !! i) as [[ids [| |]]|] eqn:Ei; try lia.
    destruct r as [results|e]; [destruct (0 <? length (successful results))%nat|];
      simpl; rewrite ?length_insert, ?length_delete by (by rewrite Ei); lia.
  - destruct (in_flight s !! i) as [[ids [|results|e]]|] eqn:Ei; try lia;
      simpl; rewrite ?length_delete by (by rewrite Ei); lia.
Qed.

(** C3: after any sequence of calls, timer firings and settled promises,
    at most one batch is in processing and the isProcessing flag is set
    exactly then; a batch that is submitted while the flag is set is
    deferred to a timer and starts nothing; a batch enters processing only
    when no other is in flight, that is after the one before it has left
    its try block, completed or thrown; and of two batches submitted back
    to back the first is in processing and the second is deferred. *)
Theorem C3_single_flight (evs : list event) :
  let s := run_events init evs in
  (* at most one batch is in processing, and then the flag is set *)
  (length (processing s) <= 1)%nat /\
  (isProcessing s = true <-> processing s <> []) /\
  (* a batch that arrives meanwhile is deferred to a timer *)
  (forall ids, ids <> [] -> isProcessing s = true ->
     step s (Call (Some ids)) =
       MkService true (stats s) (in_flight s) (timers s ++ [ids]) (finished s)) /\
  (* a batch enters processing only when no other is in flight *)
  (forall ev, (length (processing s) < length (processing (step s ev)))%nat ->
     processing s = [] /\ isProcessing s = false /\
     exists ids, processing (step s ev) = [ids]) /\
  (* two batches submitted back to back *)
  (forall b1 b2, b1 <> [] -> b2 <> [] ->
     run_events init [Call (Some b1); Call (Some b2)] =
       MkService true (MkStats 0 0 0) [MkActivation b1 AwaitProcessJobs] [b2] []).
Proof.
  intros s.
  assert (H : single_flight s).
  { apply run_events_single_flight. reflexivity. }
  unfold single_flight in H. unfold processing. rewrite !length_map.
  split_and!.
  - rewrite H. destruct (isProcessing s); lia.
  - destruct (isProcessing s), (in_flight s); simpl in *; split; congruence.
  - intros ids Hids Hp. simpl. unfold enter. rewrite Hp.
    destruct ids; [done|]. done.
  - intros ev. rewrite length_map. intros Hlt.
    destruct (step_starts s ev Hlt) as (Hp & ids & _ & E & _).
    rewrite Hp in H. destruct (in_flight s); [|done].
    split_and!; try done. exists ids. by rewrite E.
  - intros [|j1 b1] [|j2 b2] H1 H2; done.
Qed.

Lemma C3_single_flight_witness :
  step (run_events init [Call (Some [lit "a"])]) (Call (Some [lit "b"]))
    = MkService true (MkStats 0 0 0) [MkActivation [lit "a"] AwaitProcessJobs]
        [[lit "b"]] [].
Proof.
  pose proof (C3_single_flight [Call (Some [lit "a"])]) as H. cbv zeta in H.
  destruct H as (_ & _ & H & _).
  apply (H [lit "b"]); [done|reflexivity].
Defined.

End ServiceClaims.

(** * More about the set of processed job keys *)

Lemma set_has_true k (s : list str) : set_has k s = true <-> k ∈ s.
Proof. unfold set_has. apply bool_decide_eq_true. Qed.

Lemma set_has_false k (s : list str) : set_has k s = false <-> k ∉ s.
Proof. unfold set_has. apply bool_decide_eq_false. Qed.

(** X1: after markJobAsProcessed(k) the key k is reported as processed, and
    no key is reported that was not reported before, other than k. *)
Theorem X1_mark_then_has (ks : list JobKey) (k j : JobKey) :
  let s := run_marks ks in
  isJobAlreadyProcessed k (markJobAsProcessed k s) = true /\
  (isJobAlreadyProcessed j (markJobAsProcessed k s) = true ->
     j = k \/ isJobAlreadyProcessed j s = true).
Proof.
  intros s. destruct (run_marks_inv ks) as [Hnd Hlen]. fold s in Hnd, Hlen.
  destruct (markJobAsProcessed_spec k s Hnd Hlen) as (_ & _ & Hin & Hcase).
  unfold isJobAlreadyProcessed. split; [by apply set_has_true|].
  rewrite !set_has_true. intros Hj.
  assert (Hj1 : j ∈ set_add k s).
  { destruct (cap <? length (set_add k s))%nat.
    - destruct Hcase as (_ & _ & E & _). rewrite E in Hj.
      by eapply subseteq_drop.
    - by rewrite Hcase in Hj. }
  unfold set_add in Hj1. destruct (set_has k s); [by right|].
  apply elem_of_app in Hj1 as [?|Hj1]; [by right|].
  left. by apply list_elem_of_singleton in Hj1.
Qed.

(** X2: marking a key that is already in the set changes nothing: the key
    keeps its old place in the insertion order and is dropped with the
    oldest keys all the same. *)
Theorem X2_mark_again_keeps_order (ks : list JobKey) (k : JobKey) :
  let s := run_marks ks in
  isJobAlreadyProcessed k s = true -> markJobAsProcessed k s = s.
Proof.
  intros s Hk. destruct (run_marks_inv ks) as [_ Hlen]. fold s in Hlen.
  unfold isJobAlreadyProcessed in Hk. unfold markJobAsProcessed, set_add.
  rewrite Hk. apply Nat.ltb_ge in Hlen. by rewrite Hlen.
Qed.

Lemma X2_mark_again_keeps_order_witness :
  markJobAsProcessed (lit "a") (run_marks [lit "a"; lit "b"]) = run_marks [lit "a"; lit "b"].
Proof. apply (X2_mark_again_keeps_order [lit "a"; lit "b"] (lit "a")). reflexivity. Defined.

(** X3: when the set holds 1000 keys and a new key is marked, the 501 oldest
    keys are forgotten and the 499 newest stay: the key at place i of the
    insertion order is reported afterwards exactly when i is 501 or
    more. *)
Theorem X3_overflow_forgets_oldest (ks : list JobKey) (k j : JobKey) (i : nat) :
  let s := run_marks ks in
  length s = 1000%nat -> isJobAlreadyProcessed k s = false ->
  s !! i = Some j ->
  isJobAlreadyProcessed j (markJobAsProcessed k s) = bool_decide (501 <= i)%nat.
Proof.
  intros s Hlen Hk Hi.
  destruct (run_marks_inv ks) as [Hnd Hle]. fold s in Hnd, Hle.
  destruct (markJobAsProcessed_spec k s Hnd Hle) as (_ & _ & _ & Hcase).
  unfold isJobAlreadyProcessed in *. unfold cap, keep in *.
  assert (Hs1 : set_add k s = s ++ [k]) by (unfold set_add; by rewrite Hk).
  assert (Hl1 : length (set_add k s) = 1001%nat).
  { rewrite Hs1, length_app, Hlen. reflexivity. }
  rewrite Hl1 in Hcase. change (1000 <? 1001)%nat with true in Hcase.
  destruct Hcase as (_ & _ & E & _). rewrite E, Hs1.
  change (1001 - 500)%nat with 501%nat.
  assert (Hnd1 : NoDup (s ++ [k])).
  { rewrite <- Hs1. by apply set_add_NoDup. }
  assert (Hi1 : (s ++ [k]) !! i = Some j).
  { rewrite lookup_app_l; [done|]. by eapply lookup_lt_Some. }
  case_bool_decide as Hge.
  - apply set_has_true, list_elem_of_lookup. exists (i - 501)%nat.
    rewrite lookup_drop. rewrite <- Hi1. f_equal. lia.
  - apply set_has_false. intros [i' Hi']%list_elem_of_lookup.
    rewrite lookup_drop in Hi'.
    pose proof (NoDup_lookup _ _ _ _ Hnd1 Hi1 Hi'). lia.
Qed.

Lemma X3_overflow_forgets_oldest_witness :
  isJobAlreadyProcessed [7] (markJobAsProcessed [1000%N] (run_marks (numbered_keys 1000)))
    = false.
Proof.
  apply (X3_overflow_forgets_oldest (numbered_keys 1000) [1000%N] [7] 7);
    vm_compute; reflexivity.
Defined.

Lemma X1_mark_then_has_witness :
  [2] = [1] \/ isJobAlreadyProcessed [2] (run_marks [[2]; [3]]) = true.
Proof.
  apply (proj2 (X1_mark_then_has [[2]; [3]] [1] [2])).
  vm_compute. reflexivity.
Defined.

(** * More about the mailbox watchers: retries and bookkeeping *)

Section WatcherLoops.

Import Watcher Polls.

(** X4: the retry counters. A message that was never counted reads 0;
    incrementing adds one for that message and leaves every other message's
    count alone; clearing brings the count back to 0. *)
Theorem X4_retry_counters (uid uid' : N) (w : Watcher) :
  getEmailRetryCount uid fresh = 0%nat /\
  getEmailRetryCount uid (incrementEmailRetryCount uid w)
    = S (getEmailRetryCount uid w) /\
  (uid <> uid' ->
     getEmailRetryCount uid' (incrementEmailRetryCount uid w)
       = getEmailRetryCount uid' w /\
     getEmailRetryCount uid' (clearEmailRetryCount uid w)
       = getEmailRetryCount uid' w) /\
  getEmailRetryCount uid (clearEmailRetryCount uid w) = 0%nat.
Proof.
  unfold getEmailRetryCount, incrementEmailRetryCount, clearEmailRetryCount.
  cbn [emailRetryCount fresh]. split_and!.
  - by rewrite lookup_empty.
  - rewrite lookup_insert_eq. cbn. unfold getEmailRetryCount. lia.
  - intros Hne. by rewrite lookup_insert_ne, lookup_delete_ne.
  - by rewrite lookup_delete_eq.
Qed.

Lemma X4_retry_counters_witness :
  getEmailRetryCount 2 (incrementEmailRetryCount 1 fresh) = getEmailRetryCount 2 fresh.
Proof.
  destruct (X4_retry_counters 1 2 fresh) as (_ & _ & H & _).
  apply H. done.
Defined.

Lemma seen_step (A A' X : gset N) (uid : N) :
  uid ∈ X -> A' = A \/ A' = {[uid]} ∪ A -> A ⊆ A' /\ A' ⊆ A ∪ X.
Proof.
  intros Hu [-> | ->].
  - split; [done|apply union_subseteq_l].
  - split; [apply union_subseteq_r|].
    apply union_least; [|apply union_subseteq_l].
    apply singleton_subseteq_l, elem_of_union. by right.
Qed.

Section LoopFacts.

Context (fetchSubject : N -> outcome str)
        (jobHandler : JobRecord -> outcome HandlerReturn)
        (addSeenFlag : N -> outcome unit).
Context (letter_table : char -> bool) (now_year : N) (internalDate_of : N -> N).

Abbreviation old_body := (process_uid fetchSubject jobHandler addSeenFlag).
Abbreviation new_body :=
  (process_uid_new fetchSubject jobHandler addSeenFlag letter_table now_year
     internalDate_of).

Lemma retry_returns limit uid w :
  exists b w', retry_or_give_up limit uid w = (Returned b, w') /\
    processedJobs w' = processedJobs w /\ seen w' = seen w.
Proof.
  unfold retry_or_give_up. destruct (_ <=? _)%nat; eauto.
Qed.

Lemma decide_mark_returns uid w :
  exists b w', decide_mark fetchSubject jobHandler uid w = (Returned b, w') /\
    seen w' = seen w.
Proof.
  unfold decide_mark, try_catch, bind, lift, ret, modify.
  destruct (fetchSubject uid) as [subject|e].
  2:{ destruct (retry_returns 2 uid w) as (b & w' & -> & _ & ?). eauto. }
  destruct (parseJobDetailsFromText subject) as [details|].
  2:{ destruct (retry_returns 2 uid w) as (b & w' & -> & _ & ?). eauto. }
  destruct (isJobAlreadyProcessed _ _); [eauto|].
  destruct (jobHandler details) as [r|e].
  2:{ destruct (retry_returns 2 uid w) as (b & w' & -> & _ & ?). eauto. }
  destruct (reports_success r); [eauto|].
  destruct (retry_returns 3 uid w) as (b & w' & -> & _ & ?). eauto.
Qed.

Lemma old_body_returns uid w :
  exists w', old_body uid w = (Returned tt, w') /\
    (seen w' = seen w \/ seen w' = {[uid]} ∪ seen w).
Proof.
  unfold process_uid, bind.
  destruct (decide_mark_returns uid w) as (b & w1 & -> & Hs).
  destruct b; [|by eauto].
  unfold try_catch, bind, markAsRead, modify, ret.
  destruct (addSeenFlag uid); cbn; eexists; (split; [reflexivity|]);
    cbn; rewrite ?Hs; auto.
Qed.

Lemma new_body_returns uid w :
  exists w', new_body uid w = (Returned tt, w') /\
    processedJobs w' = processedJobs w /\
    emailRetryCount w' = emailRetryCount w /\
    (seen w' = seen w \/ seen w' = {[uid]} ∪ seen w).
Proof.
  unfold process_uid_new, try_catch, bind, lift, markAsRead, ret.
  destruct (fetchSubject uid) as [subject|e]; [|by eauto 10].
  destruct (parseJobDetailsFromSubject _ _ _ _) as [details|]; [|by eauto 10].
  destruct (jobHandler details) as [r|e]; [|by eauto 10].
  destruct (addSeenFlag uid); cbn; eauto 10.
Qed.

Lemma for_each_returns (body : N -> M Watcher unit) (P : Watcher -> Watcher -> Prop) :
  (forall w, P w w) -> (forall w1 w2 w3, P w1 w2 -> P w2 w3 -> P w1 w3) ->
  forall uids,
  (forall uid w, uid ∈ uids -> exists w', body uid w = (Returned tt, w') /\ P w w') ->
  forall w, exists w', for_each body uids w = (Returned tt, w') /\ P w w'.
Proof.
  intros Hrefl Htrans uids. induction uids as [|uid rest IH]; intros Hbody w.
  - exists w. done.
  - cbn [for_each]. unfold bind.
    destruct (Hbody uid w) as (w1 & -> & H1); [by left|].
    destruct (IH (fun u w0 Hu => Hbody u w0 (list_elem_of_further _ _ _ Hu)) w1)
      as (w2 & -> & H2).
    exists w2. split; [done|]. by eapply Htrans.
Qed.

Lemma for_each_split (body : N -> M Watcher unit) :
  (forall uid w, exists w', body uid w = (Returned tt, w')) ->
  forall pre uid post w w',
  for_each body (pre ++ uid :: post) w = (Returned tt, w') ->
  exists w1 w2,
    for_each body pre w = (Returned tt, w1) /\ body uid w1 = (Returned tt, w2) /\
    for_each body post w2 = (Returned tt, w').
Proof.
  intros Hbody pre. induction pre as [|u pre IH]; intros uid post w w' E.
  - cbn [app for_each] in E. unfold bind in E.
    destruct (Hbody uid w) as (w2 & E2). rewrite E2 in E. by exists w, w2.
  - cbn [app for_each] in E. unfold bind in E.
    destruct (Hbody u w) as (wu & Eu). rewrite Eu in E.
    destruct (IH uid post wu w' E) as (w1 & w2 & E1 & E2 & E3).
    exists w1, w2. split_and!; try done.
    cbn [for_each]. unfold bind. by rewrite Eu.
Qed.

(** A loop whose body marks a message or leaves the watcher alone, the
    choice depending on the message only. *)
Lemma for_each_marks (body : N -> M Watcher unit) (ok : N -> Prop) :
  (forall uid w,
     (body uid w = (Returned tt, set_seen uid w) /\ ok uid) \/
     (body uid w = (Returned tt, w) /\ ~ ok uid)) ->
  forall uids w,
  exists w', for_each body uids w = (Returned tt, w') /\
    processedJobs w' = processedJobs w /\ emailRetryCount w' = emailRetryCount w /\
    forall uid, uid ∈ seen w' <-> uid ∈ seen w \/ (uid ∈ uids /\ ok uid).
Proof.
  intros Hbody uids. induction uids as [|u rest IH]; intros w.
  - exists w. split_and!; try done. intros uid. split; [by left|].
    intros [?|[H _]]; [done|]. by apply elem_of_nil in H.
  - cbn [for_each]. unfold bind.
    destruct (Hbody u w) as [[-> Hok] | [-> Hno]].
    + destruct (IH (set_seen u w)) as (w' & -> & H1 & H2 & H3).
      exists w'. split_and!; try done. intros uid. rewrite H3.
      cbn [set_seen seen]. rewrite elem_of_union, elem_of_singleton, elem_of_cons.
      split.
      * intros [[-> | ?] | [? ?]]; [right; split; [by left|done]|by left|].
        right. split; [by right|done].
      * intros [? | [[-> | ?] ?]]; [left; by right|left; by left|by right].
    + destruct (IH w) as (w' & -> & H1 & H2 & H3).
      exists w'. split_and!; try done. intros uid. rewrite H3, elem_of_cons.
      split.
      * intros [? | [? ?]]; [by left|]. right. split; [by right|done].
      * intros [? | [[-> | ?] ?]]; [by left|done|by right].
Qed.

Lemma old_loop_returns uids w :
  exists w', checkForNewEmails fetchSubject jobHandler addSeenFlag uids w
               = (Returned tt, w') /\
    seen w ⊆ seen w' /\ seen w' ⊆ seen w ∪ list_to_set uids.
Proof.
  unfold checkForNewEmails.
  destruct (for_each_returns old_body
              (fun w w' => seen w ⊆ seen w' /\ seen w' ⊆ seen w ∪ list_to_set uids))
    with (uids := uids) (w := w) as (w' & E & H).
  - intros w0. split; [done|apply union_subseteq_l].
  - intros w1 w2 w3 [H1 H2] [H3 H4]. split; [by etrans|].
    etrans; [exact H4|]. apply union_least; [done|]. apply union_subseteq_r.
  - intros uid w0 Hu. destruct (old_body_returns uid w0) as (w' & E & Hs).
    exists w'. split; [done|].
    apply seen_step with (uid := uid); [by apply elem_of_list_to_set|done].
  - by exists w'.
Qed.

Lemma new_loop_returns uids w :
  exists w', checkForNewEmails_new fetchSubject jobHandler addSeenFlag letter_table
               now_year internalDate_of uids w = (Returned tt, w') /\
    seen w ⊆ seen w' /\ seen w' ⊆ seen w ∪ list_to_set uids.
Proof.
  unfold checkForNewEmails_new.
  destruct (for_each_returns new_body
              (fun w w' => seen w ⊆ seen w' /\ seen w' ⊆ seen w ∪ list_to_set uids))
    with (uids := uids) (w := w) as (w' & E & H).
  - intros w0. split; [done|apply union_subseteq_l].
  - intros w1 w2 w3 [H1 H2] [H3 H4]. split; [by etrans|].
    etrans; [exact H4|]. apply union_least; [done|]. apply union_subseteq_r.
  - intros uid w0 Hu. destruct (new_body_returns uid w0) as (w' & E & _ & _ & Hs).
    exists w'. split; [done|].
    apply seen_step with (uid := uid); [by apply elem_of_list_to_set|done].
  - by exists w'.
Qed.

(** A message the earlier watcher can deal with is marked read by its turn
    of the loop, in whatever state the turns before have left the watcher. *)
Lemma old_body_marks uid w subject details r :
  fetchSubject uid = Returned subject ->
  parseJobDetailsFromText subject = Some details ->
  jobHandler details = Returned r -> reports_success r = true ->
  addSeenFlag uid = Returned tt ->
  uid ∈ seen (snd (old_body uid w)).
Proof.
  intros Ef Ep Eh Hs Ea.
  unfold process_uid, decide_mark, try_catch, bind, lift, ret, modify, markAsRead.
  rewrite Ef, Ep.
  destruct (isJobAlreadyProcessed _ _).
  - rewrite Ea. cbn. apply elem_of_union_l. by apply elem_of_singleton.
  - rewrite Eh, Hs. cbn. rewrite Ea. cbn. apply elem_of_union_l.
    by apply elem_of_singleton.
Qed.

(** What makes the watcher of email-watcher-smtp-new.js mark a message. *)
Abbreviation new_ok uid :=
  (exists subject details r,
     fetchSubject uid = Returned subject /\
     parseJobDetailsFromSubject letter_table now_year subject (internalDate_of uid)
       = Some details /\
     jobHandler details = Returned r /\ addSeenFlag uid = Returned tt).

Lemma new_body_cases uid w :
  (new_body uid w = (Returned tt, set_seen uid w) /\ new_ok uid) \/
  (new_body uid w = (Returned tt, w) /\ ~ new_ok uid).
Proof.
  unfold process_uid_new, try_catch, bind, lift, markAsRead, ret.
  destruct (fetchSubject uid) as [subject|e] eqn:Ef.
  2:{ right. split; [done|]. intros (s & d & r & ? & _). congruence. }
  destruct (parseJobDetailsFromSubject _ _ _ _) as [details|] eqn:Ep.
  2:{ right. split; [done|]. intros (s & d & r & E1 & E2 & _).
      injection E1 as <-. congruence. }
  destruct (jobHandler details) as [r|e] eqn:Eh.
  2:{ right. split; [done|]. intros (s & d & r & E1 & E2 & E3 & _).
      injection E1 as <-. rewrite Ep in E2. injection E2 as <-. congruence. }
  destruct (addSeenFlag uid) as [[]|e] eqn:Ea.
  - left. split; [done|]. by exists subject, details, r.
  - right. split; [done|]. intros (s & d & r' & _ & _ & _ & ?). congruence.
Qed.

(** X5: the loop over the unread messages never throws, whatever the mail
    server and the job handler do, and an error on one message does not
    keep the later messages from being handled: every message of the search
    result gets its turn, in order, from the state the turns before have
    left, and each turn returns.  So in the watcher with retry counters a
    message whose subject is delivered and parses, whose handler reports
    success and whose flag the server accepts is marked read by the pass,
    whatever happened to the other messages; and the watcher of
    email-watcher-smtp-new.js marks in one pass exactly the messages of the
    search result whose subject is delivered and parses, whose handler
    returns and whose flag the server accepts.  Messages once marked read
    stay so, and only messages of the search result get marked. *)
Theorem X5_loops_never_throw (uids : list N) (w : Watcher) :
  (exists w', checkForNewEmails fetchSubject jobHandler addSeenFlag uids w
                = (Returned tt, w') /\
     seen w ⊆ seen w' /\ seen w' ⊆ seen w ∪ list_to_set uids /\
     (forall pre uid post, uids = pre ++ uid :: post ->
        exists w1 w2,
          checkForNewEmails fetchSubject jobHandler addSeenFlag pre w = (Returned tt, w1) /\
          old_body uid w1 = (Returned tt, w2) /\
          checkForNewEmails fetchSubject jobHandler addSeenFlag post w2
            = (Returned tt, w')) /\
     (forall uid subject details r,
        uid ∈ uids -> fetchSubject uid = Returned subject ->
        parseJobDetailsFromText subject = Some details ->
        jobHandler details = Returned r -> reports_success r = true ->
        addSeenFlag uid = Returned tt ->
        uid ∈ seen w')) /\
  (exists w', checkForNewEmails_new fetchSubject jobHandler addSeenFlag letter_table
                now_year internalDate_of uids w = (Returned tt, w') /\
     seen w ⊆ seen w' /\ seen w' ⊆ seen w ∪ list_to_set uids /\
     (forall pre uid post, uids = pre ++ uid :: post ->
        exists w1 w2,
          checkForNewEmails_new fetchSubject jobHandler addSeenFlag letter_table
            now_year internalDate_of pre w = (Returned tt, w1) /\
          new_body uid w1 = (Returned tt, w2) /\
          checkForNewEmails_new fetchSubject jobHandler addSeenFlag letter_table
            now_year internalDate_of post w2 = (Returned tt, w')) /\
     (forall uid,
        uid ∈ seen w' <-> uid ∈ seen w \/ (uid ∈ uids /\ new_ok uid))).
Proof.
  split.
  - destruct (old_loop_returns uids w) as (w' & E & H1 & H2).
    assert (Hsplit : forall pre uid post, uids = pre ++ uid :: post ->
      exists w1 w2,
        checkForNewEmails fetchSubject jobHandler addSeenFlag pre w = (Returned tt, w1) /\
        old_body uid w1 = (Returned tt, w2) /\
        checkForNewEmails fetchSubject jobHandler addSeenFlag post w2
          = (Returned tt, w')).
    { intros pre uid post ->. apply for_each_split; [|exact E].
      intros u w0. destruct (old_body_returns u w0) as (w1 & ? & _). eauto. }
    exists w'. split_and!; try done.
    intros uid subject details r Hin Ef Ep Eh Hs Ea.
    apply list_elem_of_split in Hin as (pre & post & Eu).
    destruct (Hsplit pre uid post Eu) as (w1 & w2 & _ & E2 & E3).
    destruct (old_loop_returns post w2) as (w3 & E3' & Hsub & _).
    rewrite E3 in E3'. injection E3' as <-. apply Hsub.
    pose proof (old_body_marks uid w1 subject details r Ef Ep Eh Hs Ea) as Hm.
    by rewrite E2 in Hm.
  - destruct (new_loop_returns uids w) as (w' & E & H1 & H2).
    exists w'. split_and!; try done.
    + intros pre uid post ->. apply for_each_split; [|exact E].
      intros u w0. destruct (new_body_returns u w0) as (w1 & ? & _). eauto.
    + destruct (for_each_marks new_body (fun uid => new_ok uid) new_body_cases uids w)
        as (w2 & E2 & _ & _ & H3).
      unfold checkForNewEmails_new in E. rewrite E in E2. injection E2 as <-.
      exact H3.
Qed.

(** X6: the watcher of email-watcher-smtp-new.js never changes the set of
    processed jobs or the retry counters: its loop neither records a job nor
    counts an attempt, for any messages, server and handler. *)
Theorem X6_new_watcher_keeps_no_books (uids : list N) (w : Watcher) :
  let w' := snd (checkForNewEmails_new fetchSubject jobHandler addSeenFlag letter_table
                   now_year internalDate_of uids w) in
  processedJobs w' = processedJobs w /\ emailRetryCount w' = emailRetryCount w.
Proof.
  unfold checkForNewEmails_new.
  destruct (for_each_returns new_body
              (fun w w' => processedJobs w' = processedJobs w /\
                           emailRetryCount w' = emailRetryCount w))
    with (uids := uids) (w := w) as (w' & E & H).
  - done.
  - intros w1 w2 w3 [? ?] [? ?]. split; congruence.
  - intros uid w0 _. destruct (new_body_returns uid w0) as (w' & E & ? & ? & _).
    by exists w'.
  - cbn. by rewrite E.
Qed.

(** One poll of a message whose processing fails, in the watcher with
    retry counters: it is counted once more, or given up and marked read. *)
Lemma old_body_failure limit uid w :
  decide_mark fetchSubject jobHandler uid w = retry_or_give_up limit uid w ->
  addSeenFlag uid = Returned tt ->
  old_body uid w =
    (Returned tt,
     if (limit <=? getEmailRetryCount uid w)%nat
     then clearEmailRetryCount uid (set_seen uid w)
     else incrementEmailRetryCount uid w).
Proof.
  intros Hd Hflag. unfold process_uid, bind. rewrite Hd. unfold retry_or_give_up.
  destruct (limit <=? getEmailRetryCount uid w)%nat; [|done].
  unfold try_catch, bind, markAsRead, modify. by rewrite Hflag.
Qed.

Lemma decide_mark_unparsed uid w subject :
  fetchSubject uid = Returned subject -> parseJobDetailsFromText subject = None ->
  decide_mark fetchSubject jobHandler uid w = retry_or_give_up 2 uid w.
Proof.
  intros Hf Hp. unfold decide_mark, try_catch, bind, lift. rewrite Hf, Hp.
  by destruct (retry_returns 2 uid w) as (b & w' & -> & _).
Qed.

Lemma decide_mark_handler_fails uid w subject details r :
  fetchSubject uid = Returned subject ->
  parseJobDetailsFromText subject = Some details ->
  isJobAlreadyProcessed (jobKey_of details) (processedJobs w) = false ->
  jobHandler details = Returned r -> reports_success r = false ->
  decide_mark fetchSubject jobHandler uid w = retry_or_give_up 3 uid w.
Proof.
  intros Hf Hp Hdup Hh Hr. unfold decide_mark, try_catch, bind, lift, ret.
  rewrite Hf, Hp, Hdup, Hh, Hr.
  by destruct (retry_returns 3 uid w) as (b & w' & -> & _).
Qed.

Lemma decide_mark_handler_throws uid w subject details e :
  fetchSubject uid = Returned subject ->
  parseJobDetailsFromText subject = Some details ->
  isJobAlreadyProcessed (jobKey_of details) (processedJobs w) = false ->
  jobHandler details = Thrown e ->
  decide_mark fetchSubject jobHandler uid w = retry_or_give_up 2 uid w.
Proof.
  intros Hf Hp Hdup Hh. unfold decide_mark, try_catch, bind, lift, ret.
  by rewrite Hf, Hp, Hdup, Hh.
Qed.

Lemma count_after_increment uid w :
  getEmailRetryCount uid (incrementEmailRetryCount uid w) = S (getEmailRetryCount uid w).
Proof.
  unfold getEmailRetryCount, incrementEmailRetryCount. cbn.
  rewrite lookup_insert_eq. cbn. unfold getEmailRetryCount. lia.
Qed.

(** The polls of a message that fails every time, as long as
    [retry_or_give_up limit] decides. *)
Lemma polls_failing limit uid : forall n w,
  (forall w', processedJobs w' = processedJobs w ->
     decide_mark fetchSubject jobHandler uid w' = retry_or_give_up limit uid w') ->
  addSeenFlag uid = Returned tt ->
  (getEmailRetryCount uid w + n <= limit)%nat ->
  let w' := polls fetchSubject jobHandler addSeenFlag n uid w in
  processedJobs w' = processedJobs w /\ seen w' = seen w /\
  getEmailRetryCount uid w' = (getEmailRetryCount uid w + n)%nat.
Proof.
  induction n as [|n IH]; intros w Hd Hflag Hn; cbv zeta.
  - unfold polls. cbn [Nat.iter]. split_and!; [done|done|]. by rewrite Nat.add_0_r.
  - destruct (IH w Hd Hflag) as (Hp & Hs & Hc); [lia|].
    unfold polls in *. rewrite !Nat.iter_succ.
    set (wn := Nat.iter n _ w) in *.
    rewrite (old_body_failure limit uid wn) by auto.
    rewrite Hc. destruct (Nat.leb_spec limit (getEmailRetryCount uid w + n)) as [?|_]; [lia|].
    cbn [snd]. rewrite count_after_increment, Hc. cbn.
    split_and!; [done|done|lia].
Qed.

Lemma polls_give_up limit uid w :
  (forall w', processedJobs w' = processedJobs w ->
     decide_mark fetchSubject jobHandler uid w' = retry_or_give_up limit uid w') ->
  addSeenFlag uid = Returned tt ->
  getEmailRetryCount uid w = 0%nat -> uid ∉ seen w ->
  (uid ∉ seen (polls fetchSubject jobHandler addSeenFlag limit uid w)) /\
  uid ∈ seen (polls fetchSubject jobHandler addSeenFlag (S limit) uid w) /\
  getEmailRetryCount uid (polls fetchSubject jobHandler addSeenFlag (S limit) uid w)
    = 0%nat /\
  processedJobs (polls fetchSubject jobHandler addSeenFlag (S limit) uid w)
    = processedJobs w.
Proof.
  intros Hd Hflag H0 Hseen.
  destruct (polls_failing limit uid limit w Hd Hflag) as (Hp & Hs & Hc); [lia|].
  cbv zeta in *. split; [by rewrite Hs|].
  unfold polls in *. rewrite !Nat.iter_succ. set (wn := Nat.iter limit _ w) in *.
  rewrite (old_body_failure limit uid wn) by auto.
  rewrite Hc, H0. cbn [Nat.add]. rewrite Nat.leb_refl. cbn [snd].
  unfold clearEmailRetryCount, set_seen, getEmailRetryCount. cbn.
  rewrite lookup_delete_eq. split_and!; [|done|done].
  apply elem_of_union. left. by apply elem_of_singleton.
Qed.

(** X7: the watcher with retry counters gives a message up after a fixed
    number of polls.  When the server hands the subject over and accepts
    the flag, a message that was not counted before and whose subject does
    not parse is left unread by the first two polls and marked read by the
    third; one whose job handler throws likewise; one whose job handler
    reports failure is left unread by three polls and marked read by the
    fourth.  Its counter is cleared then, and the set of processed jobs is
    as it was. *)
Theorem X7_gives_up_after_retries (uid : N) (w : Watcher) (subject : str) :
  fetchSubject uid = Returned subject -> addSeenFlag uid = Returned tt ->
  getEmailRetryCount uid w = 0%nat -> uid ∉ seen w ->
  let after n := polls fetchSubject jobHandler addSeenFlag n uid w in
  (parseJobDetailsFromText subject = None ->
     (uid ∉ seen (after 2%nat)) /\ uid ∈ seen (after 3%nat) /\
     getEmailRetryCount uid (after 3%nat) = 0%nat /\
     processedJobs (after 3%nat) = processedJobs w) /\
  (forall details,
     parseJobDetailsFromText subject = Some details ->
     isJobAlreadyProcessed (jobKey_of details) (processedJobs w) = false ->
     (forall e, jobHandler details = Thrown e ->
        (uid ∉ seen (after 2%nat)) /\ uid ∈ seen (after 3%nat) /\
        getEmailRetryCount uid (after 3%nat) = 0%nat /\
        processedJobs (after 3%nat) = processedJobs w) /\
     (forall r, jobHandler details = Returned r -> reports_success r = false ->
        (uid ∉ seen (after 3%nat)) /\ uid ∈ seen (after 4%nat) /\
        getEmailRetryCount uid (after 4%nat) = 0%nat /\
        processedJobs (after 4%nat) = processedJobs w)).
Proof.
  intros Hf Hflag H0 Hseen after. subst after. split.
  - intros Hp. apply polls_give_up; try done.
    intros w' _. by eapply decide_mark_unparsed.
  - intros details Hp Hdup. split.
    + intros e He. apply polls_give_up; try done.
      intros w' Hw'. eapply decide_mark_handler_throws; try done. by rewrite Hw'.
    + intros r Hr Hs. apply polls_give_up; try done.
      intros w' Hw'. eapply decide_mark_handler_fails; try done. by rewrite Hw'.
Qed.

Lemma old_body_books uid w :
  processedJobs (snd (old_body uid w))
    = processedJobs (snd (decide_mark fetchSubject jobHandler uid w)).
Proof.
  unfold process_uid, bind.
  destruct (decide_mark fetchSubject jobHandler uid w) as [[[|]|e] w1]; try done.
  unfold try_catch, bind, markAsRead, modify, ret. by destruct (addSeenFlag uid).
Qed.

(** X8: the watcher with retry counters records a job as processed only
    when the handler reported success for it; and a message whose job is
    already recorded is marked read without regard to the handler: any two
    handlers give the same result. *)
Theorem X8_books_only_on_success (uid : N) (w : Watcher) :
  (processedJobs (snd (old_body uid w)) <> processedJobs w ->
     exists subject details r,
       fetchSubject uid = Returned subject /\
       parseJobDetailsFromText subject = Some details /\
       jobHandler details = Returned r /\ reports_success r = true /\
       processedJobs (snd (old_body uid w))
         = markJobAsProcessed (jobKey_of details) (processedJobs w)) /\
  (forall subject details (otherHandler : JobRecord -> outcome HandlerReturn),
     fetchSubject uid = Returned subject ->
     parseJobDetailsFromText subject = Some details ->
     isJobAlreadyProcessed (jobKey_of details) (processedJobs w) = true ->
     old_body uid w = process_uid fetchSubject otherHandler addSeenFlag uid w /\
     (addSeenFlag uid = Returned tt -> uid ∈ seen (snd (old_body uid w)))).
Proof.
  split.
  - rewrite old_body_books.
    unfold decide_mark, try_catch, bind, lift.
    destruct (fetchSubject uid) as [subject|e] eqn:Hf.
    2:{ destruct (retry_returns 2 uid w) as (b & w' & -> & Hp & _). lazy beta iota zeta delta [snd]. rewrite Hp. intros H. exfalso. by apply H. }
    destruct (parseJobDetailsFromText subject) as [details|] eqn:Hparse.
    2:{ destruct (retry_returns 2 uid w) as (b & w' & -> & Hp & _). lazy beta iota zeta delta [snd]. rewrite Hp. intros H. exfalso. by apply H. }
    destruct (isJobAlreadyProcessed _ _).
    { intros H. exfalso. by apply H. }
    destruct (jobHandler details) as [r|e] eqn:Hh.
    2:{ destruct (retry_returns 2 uid w) as (b & w' & -> & Hp & _). lazy beta iota zeta delta [snd]. rewrite Hp. intros H. exfalso. by apply H. }
    destruct (reports_success r) eqn:Hs.
    + intros _. exists subject, details, r. split_and!; [done|done|done|done|reflexivity].
    + destruct (retry_returns 3 uid w) as (b & w' & -> & Hp & _). lazy beta iota zeta delta [snd]. rewrite Hp. intros H. exfalso. by apply H.
  - intros subject details other Hf Hp Hdup.
    unfold process_uid, decide_mark, try_catch, bind, lift, ret.
    rewrite Hf, Hp, Hdup. split; [done|].
    intros Hflag. unfold markAsRead, modify. rewrite Hflag. cbn.
    apply elem_of_union. left. by apply elem_of_singleton.
Qed.

End LoopFacts.

Lemma X5_loops_never_throw_witness :
  7 ∈ seen (snd (checkForNewEmails subject_fails_on_5 handler_ok flag_ok [5; 7] fresh)).
Proof.
  destruct (X5_loops_never_throw subject_fails_on_5 handler_ok flag_ok latin_letters
              2025 (fun _ => 0) [5; 7] fresh) as [(w' & E & _ & _ & _ & H) _].
  rewrite E. cbn [snd].
  apply (H 7 scenario_A record_A (Some (Some (MkResults [jobKey_of record_A] [])))).
  - apply elem_of_cons. right. apply elem_of_cons. by left.
  - reflexivity.
  - vm_compute. reflexivity.
  - reflexivity.
  - reflexivity.
  - reflexivity.
Defined.

Lemma X7_gives_up_after_retries_witness :
  (7 ∉ seen (polls subject_unreadable handler_ok flag_ok 2 7 fresh)) /\
  7 ∈ seen (polls subject_unreadable handler_ok flag_ok 3 7 fresh) /\
  (7 ∉ seen (polls subject_A failing_handler flag_ok 3 7 fresh)) /\
  7 ∈ seen (polls subject_A failing_handler flag_ok 4 7 fresh).
Proof.
  assert (H0 : 7 ∉ seen fresh) by (cbn; apply not_elem_of_empty).
  pose proof (X7_gives_up_after_retries subject_unreadable handler_ok flag_ok 7 fresh
                (lit "Hallo") eq_refl eq_refl eq_refl H0) as H1.
  pose proof (X7_gives_up_after_retries subject_A failing_handler flag_ok 7 fresh
                scenario_A eq_refl eq_refl eq_refl H0) as H2.
  cbv beta zeta in H1, H2. destruct H1 as [H1 _]. destruct H2 as [_ H2].
  destruct (H1 eq_refl) as (A1 & A2 & _).
  destruct (H2 record_A) as [_ H3]; [vm_compute; reflexivity|reflexivity|].
  destruct (H3 _ eq_refl eq_refl) as (B1 & B2 & _).
  exact (conj A1 (conj A2 (conj B1 B2))).
Defined.

Lemma X8_books_only_on_success_witness :
  7 ∈ seen (snd (process_uid subject_A failing_handler flag_ok 7
                   (MkWatcher [jobKey_of record_A] ∅ ∅))).
Proof.
  destruct (X8_books_only_on_success subject_A failing_handler flag_ok 7
              (MkWatcher [jobKey_of record_A] ∅ ∅)) as [_ H].
  destruct (H scenario_A record_A handler_ok eq_refl) as [_ H'].
  - vm_compute. reflexivity.
  - reflexivity.
  - by apply H'.
Defined.

End WatcherLoops.

(** * More about the automator: what applyToJob and processJobs return *)

Section AutomatorReturns.

Import Automator.

Section AutomatorFacts.

Context {W : Type} (entries : W -> list Entry) (hasText : str -> Entry -> bool)
  (click_and_navigate : Locator -> M W unit) (debug_mode : bool)
  (screenshot : M W unit) (goToMeineJobs : M W unit).

Abbreviation the_loop :=
  (processJobs_loop entries hasText click_and_navigate debug_mode screenshot
     goToMeineJobs).

Lemma maybeScreenshot_returns w :
  exists w', maybeScreenshot debug_mode screenshot w = (Returned tt, w').
Proof.
  unfold maybeScreenshot, try_catch, ret. destruct debug_mode; [|by eauto].
  destruct (screenshot w) as [[[]|e] w']; eauto.
Qed.

Lemma caught_returns (m : M W bool) w :
  exists b w',
    try_catch m (fun _ => maybeScreenshot debug_mode screenshot;; ret false) w
      = (Returned b, w').
Proof.
  unfold try_catch, bind, ret. destruct (m w) as [[b|e] w1]; [by eauto|].
  destruct (maybeScreenshot_returns w1) as (w2 & ->). eauto.
Qed.

(** X9: applyToJob and applyToJobByDetails of automator-simple.js never
    throw, whatever the browser does: every error of the navigation, the
    lookup or the click is caught, and the result is then false. *)
Theorem X9_apply_never_throws (jobId : str) (job : JobRecord) (w : W) :
  (exists b w',
     applyToJob entries hasText click_and_navigate debug_mode screenshot
       goToMeineJobs jobId w = (Returned b, w')) /\
  (exists b w',
     applyToJobByDetails_old entries hasText click_and_navigate debug_mode screenshot
       goToMeineJobs job w = (Returned b, w')) /\
  (forall e w1, goToMeineJobs w = (Thrown e, w1) ->
     fst (applyToJob entries hasText click_and_navigate debug_mode screenshot
            goToMeineJobs jobId w) = Returned false /\
     fst (applyToJobByDetails_old entries hasText click_and_navigate debug_mode
            screenshot goToMeineJobs job w) = Returned false).
Proof.
  split_and!.
  - apply caught_returns.
  - apply caught_returns.
  - intros e w1 Hgo. unfold applyToJob, applyToJobByDetails_old, try_catch, bind.
    rewrite Hgo. destruct (maybeScreenshot_returns w1) as (w2 & ->). done.
Qed.

Lemma the_loop_partition jobIds : forall r0 w,
  exists r w' s f,
    the_loop jobIds r0 w = (Returned r, w') /\
    successful r = successful r0 ++ s /\ failed r = failed r0 ++ f /\
    s ++ f ≡ₚ jobIds /\ s `sublist_of` jobIds /\ f `sublist_of` jobIds.
Proof.
  induction jobIds as [|j rest IH]; intros r0 w.
  - exists r0, w, [], []. rewrite !app_nil_r. done.
  - rewrite loop_cons.
    assert (Hs : forall w1,
      exists r w' s f,
        the_loop rest (push_successful j r0) w1 = (Returned r, w') /\
        successful r = successful r0 ++ s /\ failed r = failed r0 ++ f /\
        s ++ f ≡ₚ j :: rest /\ s `sublist_of` j :: rest /\ f `sublist_of` j :: rest).
    { intros w1. destruct (IH (push_successful j r0) w1)
        as (r & w' & s & f & E & E1 & E2 & Hp & H1 & H2).
      exists r, w', (j :: s), f. cbn in E1, E2. rewrite <- app_assoc in E1.
      split_and!; try done.
      - cbn. by rewrite Hp.
      - by apply sublist_skip.
      - by apply sublist_cons. }
    assert (Hf : forall w1,
      exists r w' s f,
        the_loop rest (push_failed j r0) w1 = (Returned r, w') /\
        successful r = successful r0 ++ s /\ failed r = failed r0 ++ f /\
        s ++ f ≡ₚ j :: rest /\ s `sublist_of` j :: rest /\ f `sublist_of` j :: rest).
    { intros w1. destruct (IH (push_failed j r0) w1)
        as (r & w' & s & f & E & E1 & E2 & Hp & H1 & H2).
      exists r, w', s, (j :: f). cbn in E1, E2. rewrite <- app_assoc in E2.
      split_and!; try done.
      - rewrite <- Hp. symmetry. apply Permutation_middle.
      - by apply sublist_cons.
      - by apply sublist_skip. }
    destruct (is_test_id j); [apply Hs|].
    destruct (applyToJob _ _ _ _ _ _ j w) as [[[|]|e] w1]; [apply Hs|apply Hf|apply Hf].
Qed.

(** X10: once past its guard, processJobs returns, and it reports every id
    it was given exactly once: the successful and the failed ids together
    are the ids it was given, each list in the order the ids came in. *)
Theorem X10_processJobs_reports_each_id_once (jobIds : list str) (w : W) :
  exists results w',
    processJobs entries hasText click_and_navigate debug_mode screenshot goToMeineJobs
      true true jobIds w = (Returned results, w') /\
    successful results ++ failed results ≡ₚ jobIds /\
    successful results `sublist_of` jobIds /\
    failed results `sublist_of` jobIds /\
    (length (successful results) + length (failed results) = length jobIds)%nat.
Proof.
  unfold processJobs. cbn [negb orb].
  destruct (the_loop_partition jobIds (MkResults [] []) w)
    as (r & w' & s & f & E & E1 & E2 & Hp & H1 & H2).
  cbn in E1, E2. subst s f.
  exists r, w'. split_and!; try done.
  rewrite <- length_app. by rewrite Hp.
Qed.

End AutomatorFacts.

Lemma X9_apply_never_throws_witness :
  fst (applyToJob (fun w : list Entry => w) (fun _ _ => false) (fun _ => ret tt) true
         (throw (lit "no page")) (throw (lit "net::ERR_TIMED_OUT")) (lit "12345") [])
    = Returned false /\
  fst (applyToJobByDetails_old (fun w : list Entry => w) (fun _ _ => false)
         (fun _ => ret tt) true (throw (lit "no page"))
         (throw (lit "net::ERR_TIMED_OUT")) record_A [])
    = Returned false.
Proof.
  apply (proj2 (proj2 (X9_apply_never_throws (fun w : list Entry => w) (fun _ _ => false)
                         (fun _ => ret tt) true (throw (lit "no page"))
                         (throw (lit "net::ERR_TIMED_OUT")) (lit "12345") record_A []))
           (lit "net::ERR_TIMED_OUT") []).
  reflexivity.
Defined.

End AutomatorReturns.

(** * More about the batch service: batches and statistics *)

Section ServiceBooks.

Import Service Ledger.

Lemma enter_accounted ids s :
  accounted (enter (Some ids) s) ≡ₚ
    accounted s ++ match ids with [] => [] | _ => [ids] end.
Proof.
  unfold accounted, enter. destruct ids as [|j ids]; [by rewrite app_nil_r|].
  destruct (isProcessing s); cbn [in_flight timers finished].
  - rewrite <- !app_assoc. do 2 f_equiv. apply Permutation_app_comm.
  - rewrite map_app. cbn [map act_jobIds]. rewrite <- !app_assoc. f_equiv.
    rewrite (app_assoc _ (map terminal_ids _)). apply Permutation_app_comm.
Qed.

Lemma enter_timers ids s :
  timers_hold_batches s -> timers_hold_batches (enter ids s).
Proof.
  unfold timers_hold_batches, enter. intros H.
  destruct ids as [[|j ids]|]; try done.
  destruct (isProcessing s); cbn [timers]; [|done].
  apply Forall_app. split; [done|]. by apply Forall_singleton.
Qed.

Lemma step_timers s ev : timers_hold_batches s -> timers_hold_batches (step s ev).
Proof.
  intros H. destruct ev as [ids|i|i r|i]; unfold step.
  - by apply enter_timers.
  - destruct (timers s !! i) as [ids|]; [|done]. apply enter_timers.
    unfold timers_hold_batches in *. cbn [timers]. by apply Forall_delete.
  - destruct (in_flight s !! i) as [[ids [| |]]|]; try done.
    destruct r as [results|e]; [destruct (0 <? _)%nat|]; done.
  - by destruct (in_flight s !! i) as [[ids [| |]]|].
Qed.

Lemma leave_accounted i ids ph t s :
  in_flight s !! i = Some (MkActivation ids ph) -> terminal_ids t = ids ->
  accounted (leave i t s) ≡ₚ accounted s.
Proof.
  intros Hi Ht. unfold accounted, leave. cbn [in_flight timers finished].
  rewrite map_app. cbn [map]. rewrite Ht.
  rewrite (delete_Permutation (in_flight s) i _ Hi) at 2. cbn [map act_jobIds].
  rewrite !app_assoc. rewrite <- Permutation_cons_append. done.
Qed.

Lemma set_phase_accounted i ids ph ph' st s :
  in_flight s !! i = Some (MkActivation ids ph) ->
  accounted (set_phase i (MkActivation ids ph') st s) = accounted s.
Proof.
  intros Hi. unfold accounted, set_phase. cbn [in_flight timers finished].
  rewrite list_fmap_insert. cbn [act_jobIds].
  rewrite list_insert_id; [done|]. by rewrite list_lookup_fmap, Hi.
Qed.

Lemma step_accounted s ev :
  timers_hold_batches s ->
  accounted (step s ev) ≡ₚ accounted s ++ submitted [ev].
Proof.
  intros Ht. destruct ev as [ids|i|i r|i]; unfold step; cbn [submitted].
  - destruct ids as [[|j ids]|]; [by rewrite app_nil_r| |by rewrite app_nil_r].
    apply (enter_accounted (j :: ids)).
  - rewrite app_nil_r. destruct (timers s !! i) as [ids|] eqn:Ei; [|done].
    rewrite enter_accounted.
    assert (Hne : ids <> []).
    { unfold timers_hold_batches in Ht. rewrite Forall_lookup in Ht. by eapply Ht. }
    destruct ids as [|j ids]; [done|].
    unfold accounted. cbn [in_flight timers finished].
    rewrite (delete_Permutation (timers s) i _ Ei) at 2.
    rewrite <- !app_assoc. f_equiv. rewrite app_assoc.
    by rewrite <- Permutation_cons_append.
  - rewrite app_nil_r.
    destruct (in_flight s !! i) as [[ids [| |]]|] eqn:Ei; try done.
    destruct r as [results|e]; [destruct (0 <? _)%nat|].
    + by erewrite set_phase_accounted.
    + by erewrite leave_accounted.
    + by erewrite set_phase_accounted.
  - rewrite app_nil_r.
    destruct (in_flight s !! i) as [[ids [| |]]|] eqn:Ei; try done;
      by erewrite leave_accounted.
Qed.

Lemma submitted_app evs1 evs2 : submitted (evs1 ++ evs2) = submitted evs1 ++ submitted evs2.
Proof.
  induction evs1 as [|ev evs1 IH]; [done|].
  destruct ev as [[[|j ids]|]| | |]; cbn; by rewrite ?IH.
Qed.

Lemma run_events_accounted evs : forall s,
  timers_hold_batches s ->
  timers_hold_batches (run_events s evs) /\
  accounted (run_events s evs) ≡ₚ accounted s ++ submitted evs.
Proof.
  induction evs as [|ev evs IH]; intros s Ht.
  - cbn. by rewrite app_nil_r.
  - cbn [run_events foldl]. destruct (IH (step s ev)) as [H1 H2];
      [by apply step_timers|].
    split; [done|]. unfold run_events in H2. rewrite H2, step_accounted by done.
    rewrite <- app_assoc. f_equiv.
    change (ev :: evs) with ([ev] ++ evs). by rewrite submitted_app.
Qed.

(** X11: no batch is lost and none is doubled.  After any sequence of
    calls, timer firings and settled promises, the batches in flight, the
    batches waiting on a timer and the finished batches together are exactly
    the batches handleNewJobs was called with (those that were not empty),
    each as often as it was submitted. *)
Theorem X11_no_batch_lost (evs : list event) :
  accounted (run_events init evs) ≡ₚ submitted evs.
Proof.
  destruct (run_events_accounted evs init) as [_ H].
  - unfold timers_hold_batches. cbn. constructor.
  - by rewrite H.
Qed.

Ltac stats_eq :=
  repeat match goal with
  | a : Stats |- _ => destruct a
  end;
  unfold add_stats; cbn [totalJobsProcessed successCount failCount];
  f_equal; lia.

Lemma add_stats_comm a b : add_stats a b = add_stats b a.
Proof. stats_eq. Qed.

Lemma add_stats_assoc a b c : add_stats a (add_stats b c) = add_stats (add_stats a b) c.
Proof. stats_eq. Qed.

Lemma add_stats_zero a : add_stats (MkStats 0 0 0) a = a.
Proof. by destruct a. Qed.

Lemma sum_stats_app l1 l2 : sum_stats (l1 ++ l2) = add_stats (sum_stats l1) (sum_stats l2).
Proof.
  induction l1 as [|a l1 IH]; cbn.
  - by rewrite add_stats_zero.
  - unfold sum_stats in *. by rewrite IH, add_stats_assoc.
Qed.

Lemma sum_stats_delete l i a :
  l !! i = Some a -> sum_stats l = add_stats a (sum_stats (delete i l)).
Proof.
  intros Hi. rewrite <- (take_drop_middle l i a Hi) at 1.
  rewrite delete_take_drop, !sum_stats_app. cbn.
  fold (sum_stats (drop (S i) l)).
  rewrite !add_stats_assoc. f_equal. apply add_stats_comm.
Qed.

Lemma sum_stats_insert l i a b :
  l !! i = Some a -> add_stats a (sum_stats (<[i := b]> l)) = add_stats b (sum_stats l).
Proof.
  intros Hi. rewrite <- (take_drop_middle l i a Hi) at 2.
  rewrite insert_take_drop by (by eapply lookup_lt_Some).
  rewrite !sum_stats_app. cbn. fold (sum_stats (drop (S i) l)).
  generalize (sum_stats (take i l)), (sum_stats (drop (S i) l)). intros. stats_eq.
Qed.

Lemma enter_books ids s : books_agree s -> books_agree (enter ids s).
Proof.
  unfold books_agree, tally, enter. intros H.
  destruct ids as [[|j ids]|]; try done.
  destruct (isProcessing s); cbn [stats in_flight finished]; [done|].
  rewrite map_app, sum_stats_app. cbn. rewrite H. unfold tally.
  generalize (sum_stats (map tally_activation (in_flight s))),
    (sum_stats (map tally_terminal (finished s))). intros. stats_eq.
Qed.

Lemma step_books s ev : books_agree s -> books_agree (step s ev).
Proof.
  intros H. destruct ev as [ids|i|i r|i]; unfold step.
  - by apply enter_books.
  - destruct (timers s !! i); [|done]. by apply enter_books.
  - destruct (in_flight s !! i) as [[ids ph]|] eqn:Ei; [|done].
    assert (Hi : map tally_activation (in_flight s) !! i = Some (tally_phase ids ph)).
    { by rewrite list_lookup_fmap, Ei. }
    destruct ph; try done.
    unfold books_agree, tally in *.
    destruct r as [results|e]; [destruct (0 <? _)%nat|];
      unfold set_phase, leave; cbn [stats in_flight finished].
    + rewrite list_fmap_insert.
      change (tally_activation <$> in_flight s) with (map tally_activation (in_flight s)).
      pose proof (sum_stats_insert _ i _
        (tally_activation (MkActivation ids (AwaitSuccessMail results))) Hi) as E.
      change (tally_phase ids AwaitProcessJobs) with (MkStats 0 0 0) in E.
      rewrite add_stats_zero in E. rewrite E, H. cbn [tally_activation tally_phase act_jobIds act_phase].
      generalize (sum_stats (map tally_activation (in_flight s))),
        (sum_stats (map tally_terminal (finished s))). intros. stats_eq.
    + rewrite map_app, sum_stats_app, list_fmap_delete.
      change (tally_activation <$> in_flight s) with (map tally_activation (in_flight s)).
      pose proof (sum_stats_delete _ i _ Hi) as E.
      change (tally_phase ids AwaitProcessJobs) with (MkStats 0 0 0) in E.
      rewrite add_stats_zero in E. rewrite <- E, H. cbn.
      generalize (sum_stats (map tally_activation (in_flight s))),
        (sum_stats (map tally_terminal (finished s))). intros. stats_eq.
    + rewrite list_fmap_insert.
      change (tally_activation <$> in_flight s) with (map tally_activation (in_flight s)).
      pose proof (sum_stats_insert _ i _
        (tally_activation (MkActivation ids (AwaitErrorMail e))) Hi) as E.
      change (tally_phase ids AwaitProcessJobs) with (MkStats 0 0 0) in E.
      rewrite add_stats_zero in E. rewrite E, H. cbn [tally_activation tally_phase act_jobIds act_phase].
      generalize (sum_stats (map tally_activation (in_flight s))),
        (sum_stats (map tally_terminal (finished s))). intros. stats_eq.
  - destruct (in_flight s !! i) as [[ids ph]|] eqn:Ei; [|done].
    assert (Hi : map tally_activation (in_flight s) !! i = Some (tally_phase ids ph)).
    { by rewrite list_lookup_fmap, Ei. }
    destruct ph; try done; unfold books_agree, tally, leave in *;
      cbn [stats in_flight finished];
      rewrite map_app, sum_stats_app, list_fmap_delete, H;
      change (tally_activation <$> in_flight s) with (map tally_activation (in_flight s));
      rewrite (sum_stats_delete _ i _ Hi); cbn;
      generalize (sum_stats (delete i (map tally_activation (in_flight s)))),
        (sum_stats (map tally_terminal (finished s))); intros; stats_eq.
Qed.

(** X12: the statistics agree with the batches.  After any sequence of
    calls, timer firings and settled promises, totalJobsProcessed counts the
    jobs of exactly the batches whose processJobs returned, successCount
    the successes those batches reported, and failCount the failures they
    reported together with all jobs of every batch whose processJobs
    threw. *)
Theorem X12_stats_agree_with_batches (evs : list event) :
  stats (run_events init evs) = tally (run_events init evs).
Proof.
  assert (H : forall s, books_agree s -> books_agree (run_events s evs)).
  { induction evs as [|ev evs IH]; intros s Hs; [done|].
    cbn [run_events foldl]. apply IH. by apply step_books. }
  apply H. reflexivity.
Qed.

End ServiceBooks.

(** * Normal forms: spacing, the shape of a record, the normalisers *)

Import Space Shape Normalize.

(** *** The greedy class takes the longest run first *)

Lemma take_drop_while p s : take_while p s ++ drop_while p s = s.
Proof.
  induction s as [|c r IH]; [done|]. cbn. destruct (p c); [|done].
  cbn. by rewrite IH.
Qed.

Lemma rep_greedy0_head p s :
  exists tl, rep_choices p 0 None true s = (take_while p s, drop_while p s) :: tl.
Proof.
  induction s as [|c r [tl IH]]; [by exists []|].
  cbn [rep_choices take_while drop_while Nat.pred nat_pred_opt].
  destruct (p c); [|by exists []]. rewrite IH. cbn. eauto.
Qed.

Lemma rep_greedy1_head p c r :
  p c = true ->
  exists tl, rep_choices p 1 None true (c :: r)
             = (c :: take_while p r, drop_while p r) :: tl.
Proof.
  intros Hc. cbn [rep_choices Nat.pred nat_pred_opt]. rewrite Hc.
  destruct (rep_greedy0_head p r) as [tl ->]. cbn. eauto.
Qed.

Lemma replace_all_skip r repl : forall u pre rest,
  replace_all_from r repl (length u) pre (u ++ rest)
    = replace_all_from r repl 0 (rev u ++ pre) rest.
Proof.
  induction u as [|c u IH]; intros pre rest; [done|].
  cbn [length app replace_all_from]. rewrite IH. cbn [rev]. by rewrite <- app_assoc.
Qed.

(** *** Collapsing white space, step by step *)

Lemma collapse_space pre (c : char) (r : list char) :
  is_space c = true ->
  replace_all_from rx_ws [32] 0 pre (c :: r)
    = 32 :: replace_all_from rx_ws [32] 0 (rev (take_while is_space r) ++ c :: pre)
              (drop_while is_space r).
Proof.
  intros Hc. cbn [replace_all_from]. unfold rx_ws at 1. cbn [run after].
  destruct (rep_greedy1_head is_space c r Hc) as [tl ->]. cbn [map fst snd app].
  transitivity
    (32 :: replace_all_from rx_ws [32] (length (take_while is_space r)) (c :: pre)
             (take_while is_space r ++ drop_while is_space r)).
  - by rewrite take_drop_while.
  - by rewrite replace_all_skip.
Qed.

Lemma collapse_other pre (c : char) (r : list char) :
  is_space c = false ->
  replace_all_from rx_ws [32] 0 pre (c :: r)
    = c :: replace_all_from rx_ws [32] 0 (c :: pre) r.
Proof. intros Hc. cbn [replace_all_from]. by rewrite run_ws_none. Qed.

Lemma drop_while_length p s : (length (drop_while p s) <= length s)%nat.
Proof.
  induction s as [|c r IH]; [done|]. cbn. destruct (p c); cbn; lia.
Qed.

Lemma drop_while_next s : next_not_space (drop_while is_space s).
Proof.
  induction s as [|c r IH]; [done|]. cbn. by destruct (is_space c) eqn:E.
Qed.

Lemma collapse_next pre s :
  next_not_space s -> next_not_space (replace_all_from rx_ws [32] 0 pre s).
Proof.
  destruct s as [|c r]; [done|]. cbn [next_not_space]. intros Hc.
  by rewrite collapse_other.
Qed.

Lemma collapse_single_spaced n : forall s pre,
  (length s <= n)%nat -> single_spaced (replace_all_from rx_ws [32] 0 pre s).
Proof.
  induction n as [|n IH]; intros s pre Hn.
  - destruct s; [done|cbn in Hn; lia].
  - destruct s as [|c r]; [done|]. cbn in Hn.
    destruct (is_space c) eqn:Hc.
    + rewrite collapse_space by done. cbn [single_spaced]. split.
      * right. split; [done|]. apply collapse_next, drop_while_next.
      * apply IH. pose proof (drop_while_length is_space r). lia.
    + rewrite collapse_other by done. cbn [single_spaced]. split; [by left|].
      apply IH. lia.
Qed.

(** *** Trimming *)

Lemma single_spaced_suffix a b : single_spaced (a ++ b) -> single_spaced b.
Proof. induction a as [|c a IH]; [done|]. intros [_ H]. by apply IH. Qed.

Lemma single_spaced_prefix a b : single_spaced (a ++ b) -> single_spaced a.
Proof.
  induction a as [|c a IH]; [done|]. cbn. intros [Hc H]. split; [|by apply IH].
  destruct Hc as [?|[-> Hn]]; [by left|right]. split; [done|]. by destruct a.
Qed.

Lemma drop_while_suffix p s : exists a, s = a ++ drop_while p s.
Proof. exists (take_while p s). by rewrite take_drop_while. Qed.

Lemma trim_prefix_suffix s : exists a b, s = a ++ trim s ++ b.
Proof.
  unfold trim. destruct (drop_while_suffix is_space s) as [a Ha].
  destruct (drop_while_suffix is_space (rev (drop_while is_space s))) as [b Hb].
  exists a, (rev b). rewrite <- rev_app_distr, <- Hb, rev_involutive. done.
Qed.

Lemma trim_single_spaced s : single_spaced s -> single_spaced (trim s).
Proof.
  intros H. destruct (trim_prefix_suffix s) as (a & b & E). rewrite E in H.
  by eapply single_spaced_prefix, single_spaced_suffix.
Qed.

Lemma drop_while_snoc a (x : char) :
  is_space x = false ->
  drop_while is_space (a ++ [x]) = drop_while is_space a ++ [x].
Proof.
  intros Hx. induction a as [|c a IH]; cbn; [by rewrite Hx|].
  by destruct (is_space c).
Qed.

Lemma trim_next s : next_not_space (trim s).
Proof.
  unfold trim. pose proof (drop_while_next s) as H.
  destruct (drop_while is_space s) as [|x r]; [done|]. cbn in H.
  cbn [rev]. rewrite drop_while_snoc by done. by rewrite rev_app_distr.
Qed.

Lemma trim_rev_next s : next_not_space (rev (trim s)).
Proof. unfold trim. rewrite rev_involutive. apply drop_while_next. Qed.

(** Normalising twice is normalising once. *)
Lemma normalise_idem s : normalise (normalise s) = normalise s.
Proof.
  unfold normalise at 1. unfold replace_all.
  rewrite replace_all_single_spaced.
  - apply trim_id; [apply trim_next|apply trim_rev_next].
  - apply trim_single_spaced. by eapply collapse_single_spaced.
Qed.

Lemma parse_normalised table y s t :
  parseJobDetailsFromSubject table y s t
    = parseJobDetailsFromSubject table y (normalise s) t.
Proof.
  destruct s as [|c r]; [reflexivity|].
  unfold parseJobDetailsFromSubject at 2.
  destruct (normalise (c :: r)) as [|c' r'] eqn:E.
  - unfold parseJobDetailsFromSubject. fold (normalise (c :: r)). rewrite E.
    reflexivity.
  - fold (normalise (c' :: r')). rewrite <- E, normalise_idem. reflexivity.
Qed.

(** X13: the subject parser does not look at how a subject is spaced.  Two
    subjects that differ only in their white space (runs of spaces, tabs,
    line breaks, no-break spaces, and white space at either end) are parsed
    alike, and parsing a subject that was normalised before gives what
    parsing it as it came gives. *)
Theorem X13_parser_ignores_spacing (table : char -> bool) (y : N) (s1 s2 : str)
    (t1 t2 : N) :
  parseJobDetailsFromSubject table y (normalise s1) t1
    = parseJobDetailsFromSubject table y s1 t2 /\
  (normalise s1 = normalise s2 ->
   parseJobDetailsFromSubject table y s1 t1 = parseJobDetailsFromSubject table y s2 t2).
Proof.
  split.
  - rewrite (parse_normalised table y s1 t2). reflexivity.
  - intros E. rewrite (parse_normalised table y s1), (parse_normalised table y s2), E.
    reflexivity.
Qed.

Lemma X13_parser_ignores_spacing_witness :
  parseJobDetailsFromSubject latin_letters 2025 scenario_A_spaced 0
    = parseJobDetailsFromSubject latin_letters 2025 scenario_A 0.
Proof.
  apply (proj2 (X13_parser_ignores_spacing latin_letters 2025 scenario_A_spaced
                  scenario_A 0 0)).
  vm_compute. reflexivity.
Defined.

Lemma date_year_groups s m :
  exec rx_date_year s = Some m ->
  one_or_two_digits (group 1 m) /\ one_or_two_digits (group 2 m) /\
  n_digits 4 (group 3 m).
Proof.
  intros H. start_sound H m. split_and!; tok_side.
Qed.

Lemma uint_digits_digits u : digits (uint_digits u).
Proof. induction u; cbn; try constructor; done. Qed.

Lemma of_number_digits n : digits (of_number n).
Proof. apply uint_digits_digits. Qed.

Lemma z2_two_digits h : one_or_two_digits h -> n_digits 2 (z2 h).
Proof.
  intros H. destruct (z2_hour h H) as (a & b & -> & Ha & Hb).
  split; [|done]. by repeat constructor.
Qed.

Lemma parse_date_shape y s d :
  parse_date y s = Some d ->
  exists dd mm yyyy, date_parts d dd mm yyyy /\
    (length yyyy = 4%nat \/ yyyy = of_number y).
Proof.
  unfold parse_date. destruct (exec rx_date_year s) as [m|] eqn:E1.
  - intros [= <-]. destruct (date_year_groups s m E1) as (H1 & H2 & H3 & H4).
    exists (z2 (group 1 m)), (z2 (group 2 m)), (group 3 m).
    split; [|by left]. split_and!; try done; by apply z2_two_digits.
  - destruct (exec rx_date_noyear s) as [m|] eqn:E2; [|done].
    intros [= <-]. apply date_noyear_sound in E2.
    destruct E2 as (pre & t & post & _ & _ & H1 & H2 & _).
    exists (z2 (group 1 m)), (z2 (group 2 m)), (of_number y).
    split; [|by right].
    split_and!; try done; try (by apply z2_two_digits). apply of_number_digits.
Qed.

Lemma try_time_keeps re gh gm fx s hm :
  time_block hm ->
  (forall m, exec re s = Some m ->
     one_or_two_digits (group gh m) /\
     n_digits 2 (match fx with Some mm => mm | None => group gm m end)) ->
  time_block (try_time re gh gm fx s hm).
Proof.
  intros [-> | (h & m & -> & Hh & Hm)] Hre; unfold try_time; cbn [fst truthy].
  - destruct (exec re s) as [m|] eqn:E; [|by left].
    destruct (Hre m eq_refl) as [H1 H2]. right.
    exists (group gh m), (match fx with Some mm => mm | None => group gm m end).
    split; [by destruct fx|done].
  - destruct h as [|c h]; [destruct Hh as [_ Hl]; cbn in Hl; lia|].
    right. by exists (c :: h), m.
Qed.

Lemma parse_time_block s : time_block (parse_time s).
Proof.
  unfold parse_time. repeat apply try_time_keeps.
  - destruct (exec rx_time_colon s) as [m|] eqn:E; [|by left].
    apply time_colon_sound in E.
    destruct E as (pre & k & sp & post & _ & _ & _ & _ & H1 & H2 & _).
    right. by exists (group 1 m), (group 2 m).
  - intros m E. apply time_dot_sound in E.
    by destruct E as (pre & k & sp & post & _ & _ & _ & _ & H1 & H2 & _).
  - intros m E. apply time_hour_sound in E.
    destruct E as (pre & k & sp & u & post & _ & _ & _ & _ & H1 & _).
    split; [done|]. split; [by repeat constructor|done].
  - intros m E. apply bare_colon_sound in E.
    by destruct E as (pre & post & _ & _ & H1 & H2 & _).
  - intros m E. apply bare_dot_sound in E.
    by destruct E as (pre & post & _ & _ & H1 & H2 & _).
Qed.

Lemma drop_while_forall (P : char -> Prop) p s :
  Forall P s -> Forall P (drop_while p s).
Proof.
  induction s as [|c r IH]; [done|]. intros H. cbn. destruct (p c); [|done].
  apply IH. by apply Forall_cons in H as [_ ?].
Qed.

Lemma collapse_forall (P : char -> Prop) n : forall s pre,
  P 32 -> Forall P s -> (length s <= n)%nat ->
  Forall P (replace_all_from rx_ws [32] 0 pre s).
Proof.
  induction n as [|n IH]; intros s pre H32 Hs Hn.
  - destruct s; [constructor|cbn in Hn; lia].
  - destruct s as [|c r]; [constructor|]. cbn in Hn.
    apply Forall_cons in Hs as [Hc Hr]. destruct (is_space c) eqn:E.
    + rewrite collapse_space by done. apply Forall_cons. split; [done|].
      apply IH; [done|by apply drop_while_forall|].
      pose proof (drop_while_length is_space r). lia.
    + rewrite collapse_other by done. apply Forall_cons. split; [done|].
      apply IH; [done|done|lia].
Qed.

Lemma normalise_forall (P : char -> Prop) s :
  P 32 -> Forall P s -> Forall P (normalise s).
Proof.
  intros H32 Hs. unfold normalise.
  destruct (trim_prefix_suffix (replace_all rx_ws [32] s)) as (a & b & E).
  assert (H : Forall P (replace_all rx_ws [32] s)).
  { unfold replace_all. by eapply collapse_forall. }
  rewrite E in H. apply Forall_app in H as [_ H]. by apply Forall_app in H as [H _].
Qed.

Lemma record_shape (table : char -> bool) (y : N) (subject : str) (t : N)
    (r : JobRecord) :
  parseJobDetailsFromSubject table y subject t = Some r ->
  (exists dd mm yyyy, date_parts (date r) dd mm yyyy /\
     (length yyyy = 4%nat \/ yyyy = of_number y)) /\
  time_shape (time r) /\
  n_digits 5 (zip r) /\
  all_in (city_char table) (city r) /\ normalise (city r) = city r.
Proof.
  intros H. apply parse_some_inv in H as (hh & mm & loc & Hd & Ht & Hh & Htime & Hl & Hz & Hc).
  split_and!.
  - by eapply parse_date_shape.
  - destruct (parse_time_block (prepared subject)) as [E | (h & m & E & H1 & H2)];
      rewrite Ht in E.
    + injection E as -> ->. done.
    + injection E as -> ->. rewrite Htime. cbn [default from_option id].
      exists (z2 h), m. split_and!; [|by apply z2_two_digits|done].
      destruct m as [|c m]; [destruct H2 as [_ Hm]; done|done].
  - rewrite Hz. apply loc_sound in Hl.
    by destruct Hl as (pre & sp & tl & post & _ & _ & ? & _).
  - rewrite Hc. apply loc_sound in Hl.
    destruct Hl as (pre & sp & tl & post & _ & _ & _ & _ & _ & Hall & _).
    by apply (normalise_forall (fun c => city_char table c = true)).
  - rewrite Hc. apply normalise_idem.
Qed.

(** X14: every record the subject parser returns has a fixed shape.  Its
    date is two digits, a dot, two digits, a dot and a year of digits, the
    year being four digits from the subject or the year of the clock; its
    time is two digits, a colon and two digits; its zip is five digits; its
    city holds only letters, "-", ".", "'", "(", ")", "/" and single
    spaces, and no white space at either end. *)
Theorem X14_record_shape (table : char -> bool) (y : N) (subject : str) (t : N)
    (r : JobRecord) :
  parseJobDetailsFromSubject table y subject t = Some r ->
  (exists dd mm yyyy, date_parts (date r) dd mm yyyy /\
     (length yyyy = 4%nat \/ yyyy = of_number y)) /\
  time_shape (time r) /\
  n_digits 5 (zip r) /\
  all_in (city_char table) (city r) /\ normalise (city r) = city r.
Proof. apply record_shape. Qed.

Lemma X14_record_shape_witness :
  time_shape (lit "09:00") /\ n_digits 5 (lit "58452").
Proof.
  destruct (X14_record_shape latin_letters 2031 scenario_B 0
              (Job (lit "23.08.2031") (lit "09:00") (lit "58452") (lit "Witten")))
    as (_ & H1 & H2 & _).
  - vm_compute. reflexivity.
  - done.
Defined.

(** *** What the patterns of the normalisers capture *)

Lemma hm_groups s m :
  exec rx_hm s = Some m -> one_or_two_digits (group 1 m) /\ n_digits 2 (group 2 m).
Proof.
  unfold rx_hm. intros H. start_sound H m. split_and!; tok_side.
Qed.

Lemma h_groups s m : exec rx_h s = Some m -> one_or_two_digits (group 1 m).
Proof.
  unfold rx_h. intros H. start_sound H m. tok_side.
Qed.

Lemma hhmm_groups s m :
  exec rx_hhmm s = Some m -> n_digits 2 (group 1 m) /\ n_digits 2 (group 2 m).
Proof.
  unfold rx_hhmm. intros H. start_sound H m. split_and!; tok_side.
Qed.

Lemma dmy_groups s m :
  exec rx_dmy s = Some m ->
  one_or_two_digits (group 1 m) /\ one_or_two_digits (group 2 m) /\
  n_digits 4 (group 3 m).
Proof.
  unfold rx_dmy. intros H. start_sound H m. split_and!; tok_side.
Qed.

Lemma zip_whole s : test rx_zip s = true -> n_digits 5 s.
Proof.
  unfold test. destruct (exec rx_zip s) as [m|] eqn:H; [intros _|done].
  unfold rx_zip in H. start_sound H m.
  match goal with H : rev _ = [] |- _ =>
    apply (f_equal (@rev _)) in H; rewrite rev_involutive in H; cbn in H; subst end.
  cbn [app]. rewrite !app_nil_r. tok_side.
Qed.

Lemma time_shape_intro hh mi :
  n_digits 2 hh -> n_digits 2 mi -> time_shape (hh ++ [58] ++ mi).
Proof. intros H1 H2. by exists hh, mi. Qed.

Lemma normalizeTime_shape raw t : normalizeTime raw = Some t -> time_shape t.
Proof.
  unfold normalizeTime. destruct raw as [|c0 r0]; [done|].
  set (t0 := replace_all_with rx_heal dollar1 0 [] (normalise (c0 :: r0))).
  cbv zeta.
  destruct (exec rx_hm t0) as [m|] eqn:E1.
  { intros [= <-]. destruct (hm_groups _ _ E1) as [H1 H2].
    apply time_shape_intro; [by apply z2_two_digits|done]. }
  destruct (exec rx_h t0) as [m|] eqn:E2.
  { intros [= <-]. pose proof (h_groups _ _ E2) as H1.
    apply (time_shape_intro _ [48; 48]); [by apply z2_two_digits|].
    split; [by repeat constructor|done]. }
  destruct (exec rx_hhmm t0) as [m|] eqn:E3; [|done].
  intros [= <-]. destruct (hhmm_groups _ _ E3) as [H1 H2].
  by apply time_shape_intro.
Qed.

Lemma normalizeDate_shape raw d : normalizeDate raw = Some d -> date_shape d.
Proof.
  unfold normalizeDate. destruct raw as [|c0 r0]; [done|]. cbv zeta.
  destruct (exec rx_dmy _) as [m|] eqn:E; [|done].
  intros [= <-]. destruct (dmy_groups _ _ E) as (H1 & H2 & H3 & H4).
  exists (z2 (group 1 m)), (z2 (group 2 m)), (group 3 m).
  split; [|done]. split_and!; try done; by apply z2_two_digits.
Qed.

Lemma normalizeZip_shape raw z : normalizeZip raw = Some z -> n_digits 5 z.
Proof.
  unfold normalizeZip. cbv zeta. destruct (test rx_zip (trim raw)) eqn:E; [|done].
  intros [= <-]. by apply zip_whole.
Qed.

Lemma normalizeDetails_some d n :
  normalizeDetails d = Some n ->
  normalizeDate (date d) = Some (date n) /\ normalizeTime (time d) = Some (time n) /\
  normalizeZip (zip d) = Some (zip n) /\ city n = normalise (city d).
Proof.
  unfold normalizeDetails. cbv zeta.
  destruct (normalizeDate (date d)) as [[|a x]|]; [done| |done].
  destruct (normalizeTime (time d)) as [[|b y]|]; [done| |done].
  destruct (normalizeZip (zip d)) as [[|c z]|]; [done| |done].
  cbn. by intros [= <-].
Qed.

(** *** Text without white space passes the normalisers unchanged *)

Lemma strip_ws_id repl s : forall pre,
  Forall (fun c => is_space c = false) s -> replace_all_from rx_ws repl 0 pre s = s.
Proof.
  induction s as [|c r IH]; intros pre Hs; [done|].
  apply Forall_cons in Hs as [Hc Hr]. cbn [replace_all_from].
  rewrite run_ws_none by done. by rewrite IH.
Qed.

Lemma trim_no_space s : Forall (fun c => is_space c = false) s -> trim s = s.
Proof.
  intros Hs. apply trim_id.
  - destruct s; [done|]. by apply Forall_cons in Hs as [Hc _].
  - apply List.Forall_rev in Hs. destruct (rev s); [done|].
    by apply Forall_cons in Hs as [Hc _].
Qed.

Lemma normalise_no_space s : Forall (fun c => is_space c = false) s -> normalise s = s.
Proof.
  intros Hs. unfold normalise, replace_all. rewrite strip_ws_id by done.
  by apply trim_no_space.
Qed.

Lemma run_heal_none b (c : char) (r : list char) cs :
  Forall (fun c => is_space c = false) r -> run rx_heal (MState b (c :: r) cs) = [].
Proof.
  intros Hr. unfold rx_heal. cbn [run after consume caps set_cap flat_map map app].
  destruct (is_digit c); [|done]. cbn [flat_map map app after fst snd].
  destruct r as [|x r]; [done|]. apply Forall_cons in Hr as [Hx _].
  cbn [after set_cap consume rep_choices]. by rewrite Hx.
Qed.

Lemma heal_id s : forall pre,
  Forall (fun c => is_space c = false) s -> replace_all_with rx_heal dollar1 0 pre s = s.
Proof.
  induction s as [|c r IH]; intros pre Hs.
  - cbn [replace_all_with]. unfold rx_heal. by cbn.
  - apply Forall_cons in Hs as [Hc Hr]. cbn [replace_all_with].
    rewrite run_heal_none by done. by rewrite IH.
Qed.

Lemma digits_no_space w : digits w -> Forall (fun c => is_space c = false) w.
Proof.
  intros H. eapply Forall_impl; [exact H|]. intros c Hc. by apply dt_space.
Qed.

(** *** Text of the normal shape is a fixed point *)

Lemma two_digits_inv w :
  n_digits 2 w -> exists a b, w = [a; b] /\ is_digit a = true /\ is_digit b = true.
Proof.
  intros [Hd Hl]. destruct w as [|a [|b [|c l]]]; try done.
  apply Forall_cons in Hd as [Ha Hd]. apply Forall_cons in Hd as [Hb _]. by exists a, b.
Qed.

Lemma four_digits_inv w :
  digits w -> length w = 4%nat ->
  exists a b c d, w = [a; b; c; d] /\ is_digit a = true /\ is_digit b = true /\
    is_digit c = true /\ is_digit d = true.
Proof.
  intros Hd Hl. destruct w as [|a [|b [|c [|d [|e l]]]]]; try done.
  apply Forall_cons in Hd as [Ha Hd]. apply Forall_cons in Hd as [Hb Hd].
  apply Forall_cons in Hd as [Hc Hd]. apply Forall_cons in Hd as [Hd' _].
  by exists a, b, c, d.
Qed.

Lemma five_digits_inv w :
  n_digits 5 w ->
  exists a b c d e, w = [a; b; c; d; e] /\ is_digit a = true /\ is_digit b = true /\
    is_digit c = true /\ is_digit d = true /\ is_digit e = true.
Proof.
  intros [Hd Hl]. destruct w as [|a [|b [|c [|d [|e [|f l]]]]]]; try done.
  apply Forall_cons in Hd as [Ha Hd]. apply Forall_cons in Hd as [Hb Hd].
  apply Forall_cons in Hd as [Hc Hd]. apply Forall_cons in Hd as [Hd' Hd].
  apply Forall_cons in Hd as [He _].
  by exists a, b, c, d, e.
Qed.

Ltac no_space_list :=
  repeat (apply Forall_cons; split; [first [by apply dt_space | reflexivity]|]);
  constructor.

Ltac norm_eval :=
  unfold exec, exec_from;
  unfold rx_hm, rx_h, rx_hhmm, rx_dmy, rx_zip; rx_unfold;
  repeat (progress (run_eval; unfold dot_or_colon)).

Lemma normalizeTime_fixed t : time_shape t -> normalizeTime t = Some t.
Proof.
  intros (hh & mi & -> & Hh & Hm).
  apply two_digits_inv in Hh as (a & b & -> & Ha & Hb).
  apply two_digits_inv in Hm as (c & d & -> & Hc & Hd).
  cbn [app]. unfold normalizeTime.
  rewrite normalise_no_space by no_space_list.
  rewrite heal_id by no_space_list. cbv zeta.
  norm_eval. reflexivity.
Qed.

Lemma normalizeDate_fixed d : date_shape d -> normalizeDate d = Some d.
Proof.
  intros (dd & mm & yyyy & (-> & Hd & Hm & Hy) & Hl).
  apply two_digits_inv in Hd as (a & b & -> & Ha & Hb).
  apply two_digits_inv in Hm as (c & e & -> & Hc & He).
  destruct (four_digits_inv _ Hy Hl) as (y1 & y2 & y3 & y4 & -> & H1 & H2 & H3 & H4).
  cbn [app]. unfold normalizeDate, replace_all.
  rewrite strip_ws_id by no_space_list.
  rewrite trim_no_space by no_space_list. cbv zeta.
  norm_eval. reflexivity.
Qed.

Lemma normalizeZip_fixed z : n_digits 5 z -> normalizeZip z = Some z.
Proof.
  intros H. apply five_digits_inv in H as (a & b & c & d & e & -> & Ha & Hb & Hc & Hd & He).
  unfold normalizeZip. rewrite trim_no_space by no_space_list. cbv zeta.
  unfold test. norm_eval. reflexivity.
Qed.

Lemma normalizeDetails_fixed r :
  date_shape (date r) -> time_shape (time r) -> n_digits 5 (zip r) ->
  normalise (city r) = city r ->
  normalizeDetails r = Some r.
Proof.
  intros Hd Ht Hz Hc. unfold normalizeDetails, normalizeCity.
  rewrite (normalizeDate_fixed _ Hd), (normalizeTime_fixed _ Ht),
    (normalizeZip_fixed _ Hz), Hc. cbv zeta.
  destruct Hd as (dd & mm & yy & (Ed & _) & _).
  destruct Ht as (hh & mi & Et & Hh & _).
  apply five_digits_inv in Hz as (a & b & c & d & e & Ez & _).
  apply two_digits_inv in Hh as (h1 & h2 & -> & _).
  destruct r as [rd rt rz rc]. cbn in *. subst rd rt rz.
  destruct dd; reflexivity.
Qed.

Lemma normalizeDetails_idem d n :
  normalizeDetails d = Some n -> normalizeDetails n = Some n.
Proof.
  intros H. apply normalizeDetails_some in H as (Hd & Ht & Hz & Hc).
  apply normalizeDetails_fixed;
    [by eapply normalizeDate_shape|by eapply normalizeTime_shape
    |by eapply normalizeZip_shape|].
  rewrite Hc. apply normalise_idem.
Qed.

(** X15: whatever [normalizeDetails] accepts comes out in one shape: the
    date is "DD.MM.YYYY", the time "HH:MM", the zip code five digits, and
    the city is the given city with its white space collapsed and trimmed. *)
Theorem X15_normalizeDetails_shape (d n : JobRecord) :
  normalizeDetails d = Some n ->
  date_shape (date n) /\ time_shape (time n) /\ n_digits 5 (zip n) /\
  city n = normalise (city d).
Proof.
  intros H. apply normalizeDetails_some in H as (Hd & Ht & Hz & Hc).
  split_and!; [by eapply normalizeDate_shape|by eapply normalizeTime_shape
              |by eapply normalizeZip_shape|done].
Qed.

Lemma X15_normalizeDetails_shape_witness :
  date_shape (lit "03.08.2025") /\ time_shape (lit "10:30") /\
  n_digits 5 (lit "58452") /\
  lit "Bad Oeynhausen" = normalise (lit "  Bad   Oeynhausen ").
Proof.
  apply (X15_normalizeDetails_shape
           (Job (lit "3. 8 .2025") (lit "10.3 0") (lit " 58452 ") (lit "  Bad   Oeynhausen "))
           (Job (lit "03.08.2025") (lit "10:30") (lit "58452") (lit "Bad Oeynhausen"))).
  vm_compute. reflexivity.
Defined.

(** X16: [normalizeDetails] is idempotent: details it has accepted it
    accepts again, and returns them as they are. *)
Theorem X16_normalizeDetails_idempotent (d n : JobRecord) :
  normalizeDetails d = Some n -> normalizeDetails n = Some n.
Proof. apply normalizeDetails_idem. Qed.

Lemma X16_normalizeDetails_idempotent_witness :
  normalizeDetails (Job (lit "03.08.2025") (lit "10:30") (lit "58452") (lit "Bad Oeynhausen"))
    = Some (Job (lit "03.08.2025") (lit "10:30") (lit "58452") (lit "Bad Oeynhausen")).
Proof.
  apply (X16_normalizeDetails_idempotent
           (Job (lit "3. 8 .2025") (lit "10.3 0") (lit " 58452 ") (lit "  Bad   Oeynhausen "))).
  vm_compute. reflexivity.
Defined.

(** X17: the subject parser and the service agree on the format.  While the
    year of the clock has four digits, every record the subject parser
    returns is accepted by [normalizeDetails] and passes through it
    unchanged. *)
Theorem X17_parsed_record_is_normal (table : char -> bool) (y : N) (subject : str)
    (t : N) (r : JobRecord) :
  length (of_number y) = 4%nat ->
  parseJobDetailsFromSubject table y subject t = Some r ->
  normalizeDetails r = Some r.
Proof.
  intros Hy H.
  destruct (record_shape table y subject t r H)
    as ((dd & mm & yyyy & Hd & Hl) & Ht & Hz & _ & Hc).
  apply normalizeDetails_fixed; try done.
  exists dd, mm, yyyy. split; [done|]. destruct Hl as [Hl | ->]; done.
Qed.

Lemma X17_parsed_record_is_normal_witness :
  normalizeDetails (Job (lit "23.08.2025") (lit "15:00") (lit "58452") (lit "Witten"))
    = Some (Job (lit "23.08.2025") (lit "15:00") (lit "58452") (lit "Witten")).
Proof.
  apply (X17_parsed_record_is_normal latin_letters 2025 scenario_A 0).
  - reflexivity.
  - vm_compute. reflexivity.
Defined.

(** *** The three patterns of [normalizeTime], on the whole text *)

Ltac whole_text :=
  match goal with H : rev _ = [] |- _ =>
    apply (f_equal (@rev _)) in H; rewrite rev_involutive in H; cbn in H; subst end;
  cbn [app]; rewrite ?app_nil_r.

Lemma hm_whole s m :
  exec rx_hm s = Some m ->
  exists sep : char, s = group 1 m ++ [sep] ++ group 2 m /\ (sep = 46 \/ sep = 58) /\
    one_or_two_digits (group 1 m) /\ n_digits 2 (group 2 m).
Proof.
  unfold rx_hm. intros H. start_sound H m. whole_text.
  match goal with H : dot_or_colon ?c = true |- _ =>
    exists c; unfold dot_or_colon in H; apply orb_true_iff in H;
    rewrite !N.eqb_eq in H end.
  split_and!; [list_eq| |tok_side|tok_side].
  match goal with H : _ \/ _ |- _ => destruct H as [<- | <-]; [by left|by right] end.
Qed.

Lemma h_whole s m : exec rx_h s = Some m -> s = group 1 m /\ one_or_two_digits (group 1 m).
Proof.
  unfold rx_h. intros H. start_sound H m. whole_text. split; tok_side.
Qed.

Lemma hhmm_whole s m :
  exec rx_hhmm s = Some m ->
  s = group 1 m ++ [58] ++ group 2 m /\ n_digits 2 (group 1 m) /\ n_digits 2 (group 2 m).
Proof.
  unfold rx_hhmm. intros H. start_sound H m. whole_text. split_and!; tok_side.
Qed.

Lemma one_or_two_inv h :
  one_or_two_digits h ->
  (exists a, h = [a] /\ is_digit a = true) \/
  (exists a b, h = [a; b] /\ is_digit a = true /\ is_digit b = true).
Proof.
  intros [Hd Hl]. destruct h as [|a [|b [|c l]]]; simpl in Hl; try lia.
  - apply Forall_cons in Hd as [Ha _]. left. by exists a.
  - apply Forall_cons in Hd as [Ha Hd]. apply Forall_cons in Hd as [Hb _].
    right. by exists a, b.
Qed.

Lemma hm_found (h : str) (sep : char) (mi : str) :
  one_or_two_digits h -> sep = 46 \/ sep = 58 -> n_digits 2 mi ->
  exists m, exec rx_hm (h ++ [sep] ++ mi) = Some m /\ group 1 m = h /\ group 2 m = mi.
Proof.
  intros Hh Hs Hm. apply two_digits_inv in Hm as (c & d & -> & Hc & Hd).
  apply one_or_two_inv in Hh as [(a & -> & Ha) | (a & b & -> & Ha & Hb)];
    destruct Hs as [-> | ->]; cbn [app]; norm_eval; eexists; done.
Qed.

Lemma h_found h :
  one_or_two_digits h ->
  exec rx_hm h = None /\ exists m, exec rx_h h = Some m /\ group 1 m = h.
Proof.
  intros Hh.
  apply one_or_two_inv in Hh as [(a & -> & Ha) | (a & b & -> & Ha & Hb)];
    (split; [by norm_eval|norm_eval; eexists; done]).
Qed.

Lemma normalizeTime_unfold c r :
  normalizeTime (c :: r) =
    match exec rx_hm (healed (c :: r)) with
    | Some m => Some (z2 (group 1 m) ++ [58] ++ group 2 m)
    | None =>
      match exec rx_h (healed (c :: r)) with
      | Some m => Some (z2 (group 1 m) ++ lit ":00")
      | None =>
        match exec rx_hhmm (healed (c :: r)) with
        | Some m => Some (group 1 m ++ [58] ++ group 2 m)
        | None => None
        end
      end
    end.
Proof. reflexivity. Qed.

(** X18: what [normalizeTime] reads.  It returns a time exactly when the
    given text is not empty and, with its white space collapsed, trimmed and
    removed between digits, is an hour of one or two digits, alone or
    followed by "." or ":" and two digits of minutes; the time returned is
    the hour padded to two digits, ":" and the minutes, or "00" for an hour
    alone.  The third pattern of the function never decides: what it
    matches the first has matched. *)
Theorem X18_normalizeTime_reads (raw t : str) :
  normalizeTime raw = Some t <->
  raw <> [] /\
  exists h : str, one_or_two_digits h /\
    ((healed raw = h /\ t = z2 h ++ lit ":00") \/
     (exists (sep : char) (mi : str), healed raw = h ++ [sep] ++ mi /\ (sep = 46 \/ sep = 58) /\
        n_digits 2 mi /\ t = z2 h ++ [58] ++ mi)).
Proof.
  destruct raw as [|c r].
  { split; [done|]. by intros [? _]. }
  rewrite normalizeTime_unfold. split.
  - intros H. split; [done|].
    destruct (exec rx_hm (healed (c :: r))) as [m|] eqn:E1.
    { injection H as <-. destruct (hm_whole _ _ E1) as (sep & Es & Hs & Hh & Hm).
      exists (group 1 m). split; [done|]. right. by exists sep, (group 2 m). }
    destruct (exec rx_h (healed (c :: r))) as [m|] eqn:E2.
    { injection H as <-. destruct (h_whole _ _ E2) as (Es & Hh).
      exists (group 1 m). split; [done|]. by left. }
    destruct (exec rx_hhmm (healed (c :: r))) as [m|] eqn:E3; [|done].
    exfalso. destruct (hhmm_whole _ _ E3) as (Es & Hh & Hm).
    destruct (hm_found (group 1 m) 58 (group 2 m)) as (m' & E & _); [|by right|done|].
    { destruct Hh as [? Hl]. split; [done|]. rewrite Hl. lia. }
    assert (E' : exec rx_hm (healed (c :: r)) = Some m') by (rewrite Es; exact E).
    congruence.
  - intros (_ & h & Hh & [[E ->] | (sep & mi & E & Hs & Hm & ->)]); rewrite E.
    + destruct (h_found h Hh) as (-> & m & -> & ->). done.
    + destruct (hm_found h sep mi Hh Hs Hm) as (m & -> & -> & ->). done.
Qed.

(** *** What the pattern of the earlier parser captures *)

Lemma subject_groups s m :
  exec subjectPattern s = Some m ->
  date_as_written (group 2 m) /\
  (exists h mi, group 3 m = h ++ [58] ++ mi /\ one_or_two_digits h /\ n_digits 2 mi) /\
  n_digits 5 (group 4 m) /\ all_in city_char_de (group 5 m).
Proof.
  unfold subjectPattern. intros H. start_sound H m.
  split_and!.
  - eexists _, _, _. split_and!; [reflexivity|tok_side..].
  - eexists _, _. split_and!; [reflexivity|tok_side..].
  - tok_side.
  - done.
Qed.

Lemma split_colon_last (mi : str) : forall cur,
  Forall (fun c => (c =? 58) = false) mi -> split_colon cur mi = [rev cur ++ mi].
Proof.
  induction mi as [|c r IH]; intros cur H; cbn [split_colon].
  - by rewrite app_nil_r.
  - apply Forall_cons in H as [Hc Hr]. rewrite Hc, IH by done.
    cbn [rev]. by rewrite <- app_assoc.
Qed.

Lemma split_colon_two (h mi : str) : forall cur,
  Forall (fun c => (c =? 58) = false) h -> Forall (fun c => (c =? 58) = false) mi ->
  split_colon cur (h ++ 58 :: mi) = [rev cur ++ h; mi].
Proof.
  induction h as [|c r IH]; intros cur Hh Hm.
  - cbn. rewrite split_colon_last by done. by rewrite app_nil_r.
  - apply Forall_cons in Hh as [Hc Hr]. cbn [app split_colon]. rewrite Hc.
    rewrite (IH (c :: cur)) by done. cbn [rev]. by rewrite <- app_assoc.
Qed.

Lemma digits_no_colon w : digits w -> Forall (fun c => (c =? 58) = false) w.
Proof.
  intros H. eapply Forall_impl; [exact H|]. intros c Hc. cbv beta.
  rewrite N.eqb_sym. by apply dt_colon.
Qed.

Lemma trim_forall (P : char -> Prop) s : Forall P s -> Forall P (trim s).
Proof.
  intros H. destruct (trim_prefix_suffix s) as (a & b & E). rewrite E in H.
  apply Forall_app in H as [_ H]. by apply Forall_app in H as [H _].
Qed.

Lemma replace_first_forall (P : char -> Prop) r s :
  Forall P s -> Forall P (replace_first r [] s).
Proof.
  intros H. unfold replace_first. destruct (exec r s) as [m|] eqn:E; [|done].
  apply exec_some in E as [E _]. rewrite E in H.
  apply Forall_app in H as [H1 H]. apply Forall_app in H as [_ H2].
  cbn [app]. by apply Forall_app.
Qed.

Lemma text_record_shape text r :
  parseJobDetailsFromText text = Some r ->
  date_as_written (date r) /\ time_shape (time r) /\ n_digits 5 (zip r) /\
  all_in city_char_de (city r) /\ trim (city r) = city r.
Proof.
  unfold parseJobDetailsFromText. destruct text as [|c0 r0]; [done|]. cbv zeta.
  destruct (exec subjectPattern _) as [m|] eqn:E; [|done].
  intros [= <-]. cbn [date time zip city].
  destruct (subject_groups _ _ E) as (Hd & (h & mi & Et & Hh & Hm) & Hz & Hc).
  split_and!; try done.
  - assert (Hs : split_colon [] (group 3 m) = [h; mi]).
    { rewrite Et. apply (split_colon_two h mi []); apply digits_no_colon.
      - by destruct Hh.
      - by destruct Hm. }
    rewrite Hs.
    exists (padStart2 h), mi. split_and!; [done| |done]. by apply z2_two_digits.
  - by apply trim_forall, replace_first_forall, replace_first_forall, trim_forall.
  - apply trim_id; [apply trim_next|apply trim_rev_next].
Qed.

(** X23: every record the earlier subject parser ([parseJobDetailsFromText])
    returns has its date as the subject wrote it, day and month of one or
    two digits and not padded, and a year of four digits; its time is
    "HH:MM" with the hour padded; its zip is five digits; its city holds
    only letters, "-", "." and white space, and no white space at either
    end. *)
Theorem X23_text_record_shape (text : str) (r : JobRecord) :
  parseJobDetailsFromText text = Some r ->
  date_as_written (date r) /\ time_shape (time r) /\ n_digits 5 (zip r) /\
  all_in city_char_de (city r) /\ trim (city r) = city r.
Proof. apply text_record_shape. Qed.

Lemma X23_text_record_shape_witness :
  date_as_written (date record_A) /\ time_shape (time record_A) /\
  n_digits 5 (zip record_A) /\
  all_in city_char_de (city record_A) /\ trim (city record_A) = city record_A.
Proof.
  apply (X23_text_record_shape scenario_A record_A).
  vm_compute. reflexivity.
Defined.


(** * The details-only service: one job at a time, and the queue *)

Section DetailsService.

Import Details.

(** *** [handleNewJob] up to its first await, case by case *)

Lemma enter_cases d s :
  (exists r, enter d s = answer r s /\
     (d ≫= normalizeDetails = None \/
      exists norm, d ≫= normalizeDetails = Some norm /\
        r = Resolved (MkResults [jobKey_of norm] []) false None /\
        jobKey_of norm ∈ processedJobs s)) \/
  (exists norm, d ≫= normalizeDetails = Some norm /\ (jobKey_of norm ∉ processedJobs s) /\
     ((isProcessing s = true /\
       enter d s =
         answer (Resolved (MkResults [] []) true None)
           (MkService true (processedJobs s ++ [jobKey_of norm]) (jobQueue s ++ [norm])
                      (stats s) (in_flight s) (timers s) (applied s) (replies s))) \/
      (isProcessing s = false /\
       enter d s =
         MkService true (processedJobs s ++ [jobKey_of norm]) (jobQueue s) (stats s)
                   (in_flight s ++ [MkActivation norm AwaitApply]) (timers s)
                   (applied s ++ [norm]) (replies s)))).
Proof.
  unfold enter. destruct (d ≫= normalizeDetails) as [norm|] eqn:E.
  - cbv zeta. destruct (set_has (jobKey_of norm) (processedJobs s)) eqn:Hk.
    + left. eexists. split; [done|]. right. exists norm.
      split_and!; [done|done|by apply set_has_true].
    + right. exists norm. apply set_has_false in Hk as Hk'.
      split_and!; [done|done|]. unfold set_add. rewrite Hk.
      destruct (isProcessing s) eqn:Hp; [left|right]; done.
  - left. eexists. split; [done|by left].
Qed.

(** *** One activation at a time *)

Lemma enter_single d s : single_flight s -> single_flight (enter d s).
Proof.
  unfold single_flight. intros H.
  destruct (enter_cases d s) as [(r & -> & _) | (norm & _ & _ & [[Hp ->] | [Hp ->]])];
    cbn; [done|by rewrite Hp in H|].
  rewrite Hp in H. rewrite length_app, H. done.
Qed.

Lemma processQueuedJobs_flight s :
  isProcessing (processQueuedJobs s) = isProcessing s /\
  in_flight (processQueuedJobs s) = in_flight s.
Proof.
  unfold processQueuedJobs. destruct (jobQueue s); [done|].
  by destruct (negb (isProcessing s)).
Qed.

Lemma leave_single i r s a :
  single_flight s -> in_flight s !! i = Some a -> single_flight (leave i r s).
Proof.
  unfold single_flight, leave. intros H Hi. cbn [answer isProcessing in_flight].
  destruct (processQueuedJobs_flight
    (MkService false (processedJobs s) (jobQueue s) (stats s) (delete i (in_flight s))
               (timers s) (applied s) (replies s))) as [-> ->].
  cbn. apply lookup_lt_Some in Hi as Hlt. rewrite length_delete by eauto.
  destruct (isProcessing s); lia.
Qed.

Lemma set_phase_single i a st s : single_flight s -> single_flight (set_phase i a st s).
Proof. unfold single_flight. cbn. by rewrite length_insert. Qed.

Lemma step_single s ev : single_flight s -> single_flight (step s ev).
Proof.
  intros H. destruct ev as [d|i|i r|i r|]; cbn [step].
  - by apply enter_single.
  - destruct (timers s !! i); [|done]. by apply enter_single.
  - destruct (in_flight s !! i) as [[norm []]|] eqn:Hi; try done.
    destruct r as [[]|e]; cbv zeta; cbn [successful failed length Nat.ltb Nat.leb].
    + by apply set_phase_single.
    + by eapply (leave_single i _ (MkService _ _ _ _ _ _ _ _)).
    + by apply set_phase_single.
  - destruct (in_flight s !! i) as [[norm []]|] eqn:Hi; try done; destruct r;
      first [by apply set_phase_single | by eapply leave_single].
  - done.
Qed.

Lemma run_single evs : forall s, single_flight s -> single_flight (run_events s evs).
Proof.
  induction evs as [|ev evs IH]; intros s H; [done|].
  apply IH. by apply step_single.
Qed.

(** X19: the details-only service applies for one job at a time.  Whatever
    calls, timers, automator results, mails and cleanings come in whatever
    order, the flag [isProcessing] is set exactly while one activation of
    [handleNewJob] is inside its try block, and there is never a second
    one. *)
Theorem X19_one_application_at_a_time (evs : list event) :
  single_flight (run_events init evs).
Proof. by apply run_single. Qed.

(** *** What waits is remembered *)

Lemma answer_settled n r s : settled n s -> settled n (answer r s).
Proof. done. Qed.

Lemma enter_settled n d s : settled n s -> settled (S n) (enter d s).
Proof.
  intros (Hk & Hw & Hn & Hl).
  destruct (enter_cases d s) as [(r & -> & _) | (norm & E & Hnew & [[Hp ->] | [Hp ->]])].
  - apply answer_settled. split_and!; try done. lia.
  - apply answer_settled. unfold settled, keys_remembered, waiting_normal, applied_keys in *.
    cbn [processedJobs jobQueue timers applied].
    destruct d as [d|]; [cbn in E|done]. apply normalizeDetails_idem in E.
    rewrite !Forall_app in *. rewrite length_app. cbn [length].
    split_and!; try tauto; try lia.
    + eapply Forall_impl; [apply Hk|]. intros x Hx. apply elem_of_app. by left.
    + apply Forall_singleton, elem_of_app. right. by apply list_elem_of_singleton.
    + eapply Forall_impl; [apply Hk|]. intros x Hx. apply elem_of_app. by left.
    + eapply Forall_impl; [apply Hk|]. intros x Hx. apply elem_of_app. by left.
    + by apply Forall_singleton.
  - unfold settled, keys_remembered, waiting_normal, applied_keys in *.
    cbn [processedJobs jobQueue timers applied].
    rewrite !Forall_app in *. rewrite length_app, map_app. cbn [length map].
    split_and!; try tauto; try lia.
    + eapply Forall_impl; [apply Hk|]. intros x Hx. apply elem_of_app. by left.
    + eapply Forall_impl; [apply Hk|]. intros x Hx. apply elem_of_app. by left.
    + eapply Forall_impl; [apply Hk|]. intros x Hx. apply elem_of_app. by left.
    + apply Forall_singleton, elem_of_app. right. by apply list_elem_of_singleton.
    + apply NoDup_app. split_and!; [done| |apply NoDup_singleton].
      intros k Hin Hk'. apply list_elem_of_singleton in Hk'. subst k.
      apply Hnew. apply list_elem_of_fmap in Hin as (x & Ex & Hx).
      destruct Hk as (_ & _ & Ha). rewrite Forall_forall in Ha. rewrite Ex. by apply Ha.
Qed.

Lemma processQueuedJobs_settled n s : settled n s -> settled n (processQueuedJobs s).
Proof.
  unfold processQueuedJobs. destruct (jobQueue s) as [|x rest] eqn:Eq; [done|].
  destruct (negb (isProcessing s)); [|done].
  unfold settled, keys_remembered, waiting_normal, applied_keys.
  cbn [processedJobs jobQueue timers applied]. rewrite Eq.
  rewrite !Forall_app, !Forall_cons, ?Forall_nil. tauto.
Qed.

Lemma leave_settled n i r s : settled n s -> settled n (leave i r s).
Proof.
  intros H. unfold leave. apply answer_settled, processQueuedJobs_settled. exact H.
Qed.

Lemma cleanup_small ps : (length ps <= 1000)%nat -> cleanupProcessedJobs ps = ps.
Proof.
  intros H. unfold cleanupProcessedJobs.
  destruct (Nat.ltb_spec 1000 (length ps)); [lia|done].
Qed.

Lemma settled_more n m s : (n <= m)%nat -> settled n s -> settled m s.
Proof. intros H (?&?&?&?). split_and!; try done. lia. Qed.

Lemma timer_gone_settled n i s :
  settled n s ->
  settled n (MkService (isProcessing s) (processedJobs s) (jobQueue s) (stats s)
                       (in_flight s) (delete i (timers s)) (applied s) (replies s)).
Proof.
  unfold settled, keys_remembered, waiting_normal, applied_keys.
  cbn [processedJobs jobQueue timers applied]. rewrite !Forall_app.
  intros ((?&?&?)&(?&?)&?&?). split_and!; try done; by apply Forall_delete.
Qed.

Lemma step_settled n s ev : (n < 1000)%nat -> settled n s -> settled (S n) (step s ev).
Proof.
  intros Hn H. destruct ev as [d|i|i r|i r|]; cbn [step].
  - by apply enter_settled.
  - destruct (timers s !! i); [|by eapply settled_more; [|exact H]; lia].
    by apply enter_settled, timer_gone_settled.
  - apply (settled_more n); [lia|].
    destruct (in_flight s !! i) as [[norm []]|] eqn:Hi; try done.
    destruct r as [[]|e]; cbv zeta; cbn [successful failed length Nat.ltb Nat.leb]; try done.
    by apply (leave_settled n i _ (MkService _ _ _ _ _ _ _ _)).
  - apply (settled_more n); [lia|].
    destruct (in_flight s !! i) as [[norm []]|] eqn:Hi; try done; destruct r;
      first [done | by apply leave_settled].
  - apply (settled_more n); [lia|]. destruct H as (Hk & Hw & Hd & Hl).
    unfold settled, keys_remembered, waiting_normal, applied_keys in *.
    cbn [processedJobs jobQueue timers applied]. rewrite cleanup_small by lia. done.
Qed.

Lemma run_settled evs : forall n s,
  (n + length evs <= 1000)%nat -> settled n s ->
  settled (n + length evs) (run_events s evs).
Proof.
  induction evs as [|ev evs IH]; intros n s Hn H; cbn [length run_events foldl].
  - by rewrite Nat.add_0_r.
  - cbn [length] in Hn. replace (n + S (length evs))%nat with (S n + length evs)%nat by lia.
    apply IH; [lia|]. apply step_settled; [lia|done].
Qed.

Lemma init_settled : settled 0 init.
Proof.
  unfold settled, keys_remembered, waiting_normal, applied_keys. cbn.
  split_and!; try done. constructor.
Qed.

Lemma reachable_settled evs :
  (length evs <= 1000)%nat -> settled (length evs) (run_events init evs).
Proof. intros H. apply (run_settled evs 0 init); [done|apply init_settled]. Qed.

Lemma timer_fires_dropped n s i job :
  settled n s -> timers s !! i = Some job ->
  step s (TimerFires i)
    = timer_dropped i (Resolved (MkResults [jobKey_of job] []) false None) s.
Proof.
  intros (Hk & Hw & _) Hi. cbn [step]. rewrite Hi.
  unfold keys_remembered, waiting_normal in *. rewrite !Forall_app in *.
  destruct Hk as (_ & Hk & _). destruct Hw as (_ & Hw).
  rewrite Forall_lookup in Hk, Hw. specialize (Hk i job Hi). specialize (Hw i job Hi).
  unfold enter. cbn [mbind option_bind]. rewrite Hw. cbv zeta.
  cbn [processedJobs]. apply set_has_true in Hk. rewrite Hk. reflexivity.
Qed.

(** X20: a job that was queued is dropped, not applied for.  Within the
    first thousand events of the service, when the timer that
    [processQueuedJobs] set for a queued job fires, [handleNewJob] finds the
    job's key in [processedJobs], where it was put when the job was queued,
    and answers that the job was already processed: the timer is gone,
    the reply is given, and nothing else changes: the automator is not
    called. *)
Theorem X20_queued_job_is_dropped (evs : list event) (i : nat) (job : JobRecord) :
  (length evs <= 1000)%nat ->
  timers (run_events init evs) !! i = Some job ->
  step (run_events init evs) (TimerFires i)
    = timer_dropped i (Resolved (MkResults [jobKey_of job] []) false None)
        (run_events init evs).
Proof.
  intros Hn Hi. eapply timer_fires_dropped; [|done]. by apply reachable_settled.
Qed.

(** X21: within the first thousand events of the service the automator is
    never called twice for the same key "date_time_zip". *)
Theorem X21_no_key_applied_twice (evs : list event) :
  (length evs <= 1000)%nat -> NoDup (applied_keys (run_events init evs)).
Proof.
  intros Hn. by destruct (reachable_settled evs Hn) as (_ & _ & H & _).
Qed.

Lemma X20_queued_job_is_dropped_witness :
  step (run_events init [Call (Some job_at_ten); Call (Some job_at_eleven);
                         ApplySettles 0 (Returned false)]) (TimerFires 0)
    = timer_dropped 0
        (Resolved (MkResults [lit "03.08.2025_11:00_58452"] []) false None)
        (run_events init [Call (Some job_at_ten); Call (Some job_at_eleven);
                          ApplySettles 0 (Returned false)]).
Proof.
  apply (X20_queued_job_is_dropped
           [Call (Some job_at_ten); Call (Some job_at_eleven);
            ApplySettles 0 (Returned false)] 0
           (Job (lit "03.08.2025") (lit "11:00") (lit "58452") (lit "Witten"))).
  - cbn. lia.
  - vm_compute. reflexivity.
Defined.

Lemma X21_no_key_applied_twice_witness :
  NoDup (applied_keys (run_events init
    [Call (Some job_at_ten); ApplySettles 0 (Returned true); MailSettles 0 (Returned tt);
     Call (Some job_at_ten); Call (Some job_at_eleven)])).
Proof.
  apply (X21_no_key_applied_twice
    [Call (Some job_at_ten); ApplySettles 0 (Returned true); MailSettles 0 (Returned tt);
     Call (Some job_at_ten); Call (Some job_at_eleven)]).
  cbn. lia.
Defined.

(** *** A key in the set stays out of the automator *)

Lemma leave_keeps i r s :
  processedJobs (leave i r s) = processedJobs s /\ applied (leave i r s) = applied s.
Proof.
  unfold leave, processQueuedJobs. cbn [answer processedJobs applied jobQueue isProcessing].
  destruct (jobQueue s); [done|]. done.
Qed.

Lemma step_kept n s ev key :
  (n < 1000)%nat -> settled n s ->
  key ∈ processedJobs s -> key ∉ applied_keys s ->
  key ∈ processedJobs (step s ev) /\ key ∉ applied_keys (step s ev).
Proof.
  intros Hn (_ & _ & _ & Hl) Hin Hout.
  assert (Henter : forall d s', processedJobs s' = processedJobs s -> applied s' = applied s ->
            key ∈ processedJobs (enter d s') /\ key ∉ applied_keys (enter d s')).
  { intros d s' Ep Ea.
    destruct (enter_cases d s') as [(r & -> & _) | (norm & _ & Hnew & [[Hp ->] | [Hp ->]])];
      unfold applied_keys; cbn [answer processedJobs applied]; rewrite ?Ep, ?Ea.
    - done.
    - split; [|done]. apply elem_of_app. by left.
    - split; [apply elem_of_app; by left|].
      rewrite map_app. intros H. apply elem_of_app in H as [H|H]; [done|].
      cbn in H. apply list_elem_of_singleton in H. subst key. apply Hnew. by rewrite Ep. }
  destruct ev as [d|i|i r|i r|]; cbn [step].
  - by apply Henter.
  - destruct (timers s !! i); [|done]. by apply Henter.
  - destruct (in_flight s !! i) as [[norm []]|] eqn:Hi; try done.
    destruct r as [[]|e]; cbv zeta; cbn [successful failed length Nat.ltb Nat.leb]; try done.
    unfold applied_keys.
    by destruct (leave_keeps i (Resolved (MkResults [] [jobKey_of norm]) false None)
      (MkService (isProcessing s) (processedJobs s) (jobQueue s)
         (MkStats (totalJobsProcessed (stats s) + 1) (successCount (stats s) + 0)
            (failCount (stats s) + 1)) (in_flight s) (timers s) (applied s) (replies s)))
      as [-> ->].
  - destruct (in_flight s !! i) as [[norm []]|] eqn:Hi; try done; destruct r; try done;
      unfold applied_keys;
      match goal with |- context [leave ?i ?r ?s] =>
        by destruct (leave_keeps i r s) as [-> ->] end.
  - unfold applied_keys. cbn [processedJobs applied]. by rewrite cleanup_small by lia.
Qed.

Lemma run_kept evs key : forall n s,
  (n + length evs <= 1000)%nat -> settled n s ->
  key ∈ processedJobs s -> key ∉ applied_keys s ->
  key ∉ applied_keys (run_events s evs).
Proof.
  induction evs as [|ev evs IH]; intros n s Hn Hs Hin Hout; [done|].
  cbn [length] in Hn. cbn [run_events foldl].
  destruct (step_kept n s ev key) as [H1 H2]; [lia|done..|].
  apply (IH (S n)); [lia| |done|done]. apply step_settled; [lia|done].
Qed.

Lemma run_events_app s evs1 evs2 :
  run_events s (evs1 ++ evs2) = run_events (run_events s evs1) evs2.
Proof. apply foldl_app. Qed.

(** X22: a job that arrives while the service is busy is never applied
    for.  If [handleNewJob] is called with valid details while another
    application is in flight, and the automator has not been called for the
    job's key before, then it is not called for that key afterwards either,
    whatever happens next (within the first thousand events). *)
Theorem X22_job_arriving_while_busy_is_never_applied (evs1 evs2 : list event)
    (d norm : JobRecord) :
  (length (evs1 ++ Call (Some d) :: evs2) <= 1000)%nat ->
  isProcessing (run_events init evs1) = true ->
  normalizeDetails d = Some norm ->
  jobKey_of norm ∉ applied_keys (run_events init evs1) ->
  jobKey_of norm ∉ applied_keys (run_events init (evs1 ++ Call (Some d) :: evs2)).
Proof.
  rewrite length_app. cbn [length]. intros Hn Hp Hd Hout.
  rewrite run_events_app. cbn [run_events foldl]. fold (run_events (step (run_events init evs1) (Call (Some d))) evs2).
  pose proof (reachable_settled evs1 ltac:(lia)) as Hs.
  set (s1 := run_events init evs1) in *.
  apply (run_kept evs2 _ (S (length evs1))); [lia|apply step_settled; [lia|done]|..];
    cbn [step];
    destruct (enter_cases (Some d) s1)
      as [(r & -> & [E | (n' & E & _ & Hin)]) | (n' & E & Hnew & [[_ ->] | [Hp' _]])];
    cbn in E; rewrite Hd in E; try done; try injection E as <-;
    unfold applied_keys; cbn [answer processedJobs applied]; try done;
    try congruence.
  apply elem_of_app. right. by apply list_elem_of_singleton.
Qed.

Lemma X22_job_arriving_while_busy_is_never_applied_witness :
  set_has (lit "03.08.2025_11:00_58452")
    (applied_keys (run_events init
      ([Call (Some job_at_ten)] ++ Call (Some job_at_eleven) ::
       [ApplySettles 0 (Returned true); MailSettles 0 (Returned tt); TimerFires 0;
        Call (Some job_at_eleven)])))
    = false.
Proof.
  apply (proj2 (set_has_false _ _)).
  apply (X22_job_arriving_while_busy_is_never_applied
           [Call (Some job_at_ten)]
           [ApplySettles 0 (Returned true); MailSettles 0 (Returned tt); TimerFires 0;
            Call (Some job_at_eleven)]
           job_at_eleven
           (Job (lit "03.08.2025") (lit "11:00") (lit "58452") (lit "Witten"))).
  - cbn. lia.
  - vm_compute. reflexivity.
  - vm_compute. reflexivity.
  - apply (proj1 (set_has_false _ _)). vm_compute. reflexivity.
Defined.

End DetailsService.

(** * The text the automator looks for *)

Section Needle.

Import Automator.

(** *** The text the automator looks for *)

Lemma nbsp_replace_id repl s : forall pre,
  Forall (fun c => (c_nbsp =? c) = false) s ->
  replace_all_from rx_nbsp repl 0 pre s = s.
Proof.
  induction s as [|c r IH]; intros pre Hs; [done|].
  apply Forall_cons in Hs as [Hc Hr]. cbn [replace_all_from].
  unfold rx_nbsp at 1, Chr. cbn [run after]. rewrite Hc. by rewrite IH.
Qed.

Lemma norm_id s :
  Forall (fun c => (c_nbsp =? c) = false) s -> single_spaced s ->
  next_not_space s -> next_not_space (rev s) -> norm s = s.
Proof.
  intros H1 H2 H3 H4. unfold norm, replace_all.
  rewrite nbsp_replace_id by done. rewrite replace_all_single_spaced by done.
  by apply trim_id.
Qed.

Lemma dt_nbsp d : is_digit d = true -> (c_nbsp =? d) = false.
Proof. revert d. apply digit_fact. reflexivity. Qed.

Lemma needle_of_normal job :
  date_shape (date job) -> time_shape (time job) -> n_digits 5 (zip job) ->
  needle_of job
    = lit "Am " ++ date job ++ lit " um " ++ time job ++ lit " in " ++ zip job.
Proof.
  intros (dd & mm & yyyy & (Ed & Hd & Hm & Hy) & Hl) (hh & mi & Et & Hh & Hi) Hz.
  apply two_digits_inv in Hd as (d1 & d2 & -> & ? & ?).
  apply two_digits_inv in Hm as (m1 & m2 & -> & ? & ?).
  destruct (four_digits_inv _ Hy Hl) as (y1 & y2 & y3 & y4 & -> & ? & ? & ? & ?).
  apply two_digits_inv in Hh as (h1 & h2 & -> & ? & ?).
  apply two_digits_inv in Hi as (i1 & i2 & -> & ? & ?).
  apply five_digits_inv in Hz as (z1 & z2 & z3 & z4 & z5 & Ez & ? & ? & ? & ? & ?).
  unfold needle_of. rewrite Ed, Et, Ez. eval_lits. cbn [app].
  apply norm_id.
  - repeat (apply Forall_cons; split; [first [by apply dt_nbsp | reflexivity]|]).
    constructor.
  - cbn [single_spaced next_not_space].
    repeat (split; [first [ left; first [by apply dt_space | reflexivity]
                          | right; split; [reflexivity|first [by apply dt_space | reflexivity]] ]|]).
    exact I.
  - reflexivity.
  - cbn [rev app next_not_space]. by apply dt_space.
Qed.

(** X24: the service hands the automator a job whose text on the listings
    page is fixed.  For every job [normalizeDetails] has accepted, the text
    [applyToJobByDetails] of automator-simple-new.js looks for in an entry
    is exactly "Am DD.MM.YYYY um HH:MM in ZZZZZ", built from the job's
    date, time and zip; its own normalisation changes nothing. *)
Theorem X24_needle_of_normal_job (d n : JobRecord) :
  normalizeDetails d = Some n ->
  needle_of n = lit "Am " ++ date n ++ lit " um " ++ time n ++ lit " in " ++ zip n.
Proof.
  intros H. apply normalizeDetails_some in H as (Hd & Ht & Hz & _).
  apply needle_of_normal;
    [by eapply normalizeDate_shape|by eapply normalizeTime_shape
    |by eapply normalizeZip_shape].
Qed.

Lemma X24_needle_of_normal_job_witness :
  needle_of (Job (lit "03.08.2025") (lit "09:30") (lit "58452") (lit "Witten"))
    = lit "Am " ++ lit "03.08.2025" ++ lit " um " ++ lit "09:30" ++ lit " in "
        ++ lit "58452".
Proof.
  apply (X24_needle_of_normal_job
           (Job (lit "3.8.2025") (lit "9.30") (lit "58452 ") (lit " Witten"))
           (Job (lit "03.08.2025") (lit "09:30") (lit "58452") (lit "Witten"))).
  vm_compute. reflexivity.
Defined.

End Needle.

(** * The watcher that reads job ids *)

Section IdWatcherFacts.

Import Watcher IdWatcher.

(** *** Every text [matchAll] yields is a group of a match *)

Lemma match_all_from_sound r n : forall rest skip pre g,
  g ∈ match_all_from r n skip pre rest ->
  exists b a w st,
    (w, st) ∈ run r (MState b a []) /\
    g = match assoc n (caps st) with Some g => g | None => [] end.
Proof.
  induction rest as [|c rest IH]; intros skip pre g.
  - destruct skip as [|k]; cbn [match_all_from]; [|by intros H%elem_of_nil].
    destruct (run r (MState pre [] [])) as [|[w st] tl] eqn:E; [by intros H%elem_of_nil|].
    intros H%list_elem_of_singleton. exists pre, [], w, st.
    split; [rewrite E; left|done].
  - destruct skip as [|k]; cbn [match_all_from]; [|by apply IH].
    destruct (run r (MState pre (c :: rest) [])) as [|[w st] tl] eqn:E; [by apply IH|].
    intros H. apply elem_of_cons in H as [-> | H].
    + exists pre, (c :: rest), w, st. split; [rewrite E; left|done].
    + destruct w; by eapply IH.
Qed.

Lemma id_caps b w a cs :
  semc rx_id b w a cs -> exists g, assoc 1 cs = Some g /\ digits g /\ (4 <= length g <= 7)%nat.
Proof.
  unfold rx_id, d4_7, Chr. intros H. eval_lits. cbn [semc LitCI Lit] in H.
  unfold within in H. break; cbn [assoc app Nat.eqb]; eexists; split; try reflexivity; done.
Qed.

Lemma url_caps b w a cs :
  semc rx_url b w a cs -> exists g, assoc 1 cs = Some g /\ digits g /\ (4 <= length g <= 7)%nat.
Proof.
  unfold rx_url, d4_7, Chr. intros H. eval_lits. cbn [semc LitCI Lit] in H.
  unfold within in H. break; cbn [assoc app Nat.eqb]; eexists; split; try reflexivity; done.
Qed.

Lemma match_all_ids r s g :
  (forall b w a cs, semc r b w a cs ->
     exists g, assoc 1 cs = Some g /\ digits g /\ (4 <= length g <= 7)%nat) ->
  g ∈ match_all r 1 s -> digits g /\ (4 <= length g <= 7)%nat.
Proof.
  intros Hr H. apply match_all_from_sound in H as (b & a & w & st & Hin & ->).
  apply run_spec in Hin as (a' & cs & -> & _ & Hs).
  destruct (Hr _ _ _ _ Hs) as (g & Eg & Hg). cbn [st_after caps].
  rewrite app_nil_r, Eg. done.
Qed.

Lemma foldl_set_add_elem l : forall acc x,
  x ∈ foldl (fun a j => set_add j a) acc l -> x ∈ acc \/ x ∈ l.
Proof.
  induction l as [|y l IH]; intros acc x H; [by left|].
  cbn [foldl] in H. apply IH in H as [H|H].
  - unfold set_add in H. destruct (set_has y acc); [by left|].
    apply elem_of_app in H as [H|H]; [by left|].
    apply list_elem_of_singleton in H. subst. right. left.
  - right. by right.
Qed.

Lemma foldl_set_add_NoDup l : forall acc,
  NoDup acc -> NoDup (foldl (fun a j => set_add j a) acc l).
Proof.
  induction l as [|y l IH]; intros acc H; [done|].
  cbn [foldl]. by apply IH, set_add_NoDup.
Qed.

Lemma extractJobIds_ids buffer :
  NoDup (extractJobIds buffer) /\
  forall id, id ∈ extractJobIds buffer -> digits id /\ (4 <= length id <= 7)%nat.
Proof.
  unfold extractJobIds. cbv zeta. split.
  - apply foldl_set_add_NoDup, foldl_set_add_NoDup. constructor.
  - intros id H. apply foldl_set_add_elem in H as [H|H].
    + apply foldl_set_add_elem in H as [H|H]; [by apply elem_of_nil in H|].
      eapply match_all_ids; [|exact H]. apply id_caps.
    + eapply match_all_ids; [|exact H]. apply url_caps.
Qed.

(** X25: whatever text a message holds, the job ids [extractJobIdsFromEmail]
    reads from it are strings of four to seven digits, and no id is
    returned twice. *)
Theorem X25_job_ids_are_numbers (buffer : str) :
  NoDup (extractJobIds buffer) /\
  forall id, id ∈ extractJobIds buffer -> digits id /\ (4 <= length id <= 7)%nat.
Proof. apply extractJobIds_ids. Qed.

Lemma X25_job_ids_are_numbers_witness :
  digits (lit "49768") /\ (4 <= length (lit "49768") <= 7)%nat.
Proof.
  apply (proj2 (X25_job_ids_are_numbers mail_with_ids) (lit "49768")).
  vm_compute. left.
Defined.

Section IdLoop.

Context (fetchText : N -> outcome str) (jobHandler : list str -> outcome unit)
  (addSeenFlag : N -> outcome unit).

Abbreviation ids_body := (process_uid_ids fetchText jobHandler addSeenFlag).

(** What makes this watcher mark a message. *)
Abbreviation ids_ok uid :=
  (exists buffer, fetchText uid = Returned buffer /\
     (extractJobIds buffer = [] \/ jobHandler (extractJobIds buffer) = Returned tt) /\
     addSeenFlag uid = Returned tt).

Lemma ids_body_cases uid w :
  (ids_body uid w = (Returned tt, set_seen uid w) /\ ids_ok uid) \/
  (ids_body uid w = (Returned tt, w) /\ ~ ids_ok uid).
Proof.
  unfold process_uid_ids, try_catch, bind, lift, markAsRead, ret.
  destruct (fetchText uid) as [buffer|e] eqn:Ef.
  2:{ right. split; [done|]. intros (b & ? & _). congruence. }
  cbv zeta. destruct (extractJobIds buffer) as [|i l] eqn:Ei; cbn [length Nat.ltb Nat.leb].
  - destruct (addSeenFlag uid) as [[]|e] eqn:Ea.
    + left. split; [done|]. exists buffer. rewrite Ei. split_and!; [done|by left|done].
    + right. split; [done|]. intros (b & _ & _ & ?). congruence.
  - destruct (jobHandler (i :: l)) as [[]|e] eqn:Eh.
    + destruct (addSeenFlag uid) as [[]|e] eqn:Ea.
      * left. split; [done|]. exists buffer. rewrite Ei. split_and!; [done|by right|done].
      * right. split; [done|]. intros (b & _ & _ & ?). congruence.
    + right. split; [done|]. intros (b & E1 & [E2 | E2] & _);
        injection E1 as <-; rewrite Ei in E2; congruence.
Qed.

Lemma ids_loop_marks uids w :
  exists w', checkForNewEmails_ids fetchText jobHandler addSeenFlag uids w = (Returned tt, w') /\
    processedJobs w' = processedJobs w /\ emailRetryCount w' = emailRetryCount w /\
    forall uid, uid ∈ seen w' <-> uid ∈ seen w \/ (uid ∈ uids /\ ids_ok uid).
Proof.
  apply (for_each_marks ids_body (fun uid => ids_ok uid)). apply ids_body_cases.
Qed.

(** With no id in any message the handler plays no part. *)
Lemma ids_loop_without_ids (otherHandler : list str -> outcome unit) uids :
  (forall uid buffer, uid ∈ uids -> fetchText uid = Returned buffer ->
     extractJobIds buffer = []) ->
  forall w,
  checkForNewEmails_ids fetchText otherHandler addSeenFlag uids w
    = checkForNewEmails_ids fetchText jobHandler addSeenFlag uids w.
Proof.
  unfold checkForNewEmails_ids. induction uids as [|u rest IH]; intros Hno w; [done|].
  cbn [for_each]. unfold bind.
  assert (Eb : forall w0, process_uid_ids fetchText otherHandler addSeenFlag u w0
                 = ids_body u w0).
  { intros w0. unfold process_uid_ids, try_catch, bind, lift.
    destruct (fetchText u) as [buffer|e] eqn:Ef; [|done].
    cbv zeta. rewrite (Hno u buffer); [done|by left|done]. }
  rewrite Eb. destruct (ids_body u w) as [[[]|e] w1]; [|done].
  apply IH. intros uid buffer Hu. apply Hno. by right.
Qed.

(** X26: the loop of the watcher that reads job ids never throws and keeps
    no books, and in one pass it marks exactly those messages of the search
    result read whose text could be fetched, whose handler, if there were
    ids to hand over, returned, and for which the server accepted the flag;
    an error on one message changes nothing for the others.  A message
    without any id is marked read without the handler being called: when no
    message holds an id, the pass is the same under any handler. *)
Theorem X26_id_watcher_marks (uids : list N) (w : Watcher) :
  (exists w',
     checkForNewEmails_ids fetchText jobHandler addSeenFlag uids w = (Returned tt, w') /\
     processedJobs w' = processedJobs w /\ emailRetryCount w' = emailRetryCount w /\
     forall uid,
       uid ∈ seen w' <->
       uid ∈ seen w \/
       (uid ∈ uids /\
        exists buffer, fetchText uid = Returned buffer /\
          (extractJobIds buffer = [] \/ jobHandler (extractJobIds buffer) = Returned tt) /\
          addSeenFlag uid = Returned tt)) /\
  forall otherHandler : list str -> outcome unit,
    (forall uid buffer, uid ∈ uids -> fetchText uid = Returned buffer ->
       extractJobIds buffer = []) ->
    checkForNewEmails_ids fetchText otherHandler addSeenFlag uids w
      = checkForNewEmails_ids fetchText jobHandler addSeenFlag uids w.
Proof.
  split; [apply ids_loop_marks|].
  intros otherHandler Hno. by apply ids_loop_without_ids.
Qed.

Lemma polls_ids_stuck uid w buffer e n :
  fetchText uid = Returned buffer -> extractJobIds buffer <> [] ->
  jobHandler (extractJobIds buffer) = Thrown e ->
  polls_ids fetchText jobHandler addSeenFlag n uid w = w.
Proof.
  intros Ef Hne Eh. unfold polls_ids. induction n as [|n IH]; [done|].
  rewrite Nat.iter_succ, IH.
  destruct (ids_body_cases uid w) as [[_ (b' & Ef' & Hh & _)] | [-> _]]; [|done].
  exfalso. rewrite Ef in Ef'. injection Ef' as <-. destruct Hh; congruence.
Qed.

(** X27: the watcher that reads job ids has no retry limit.  A message whose
    handler throws is left exactly as it was by every poll: after any
    number of polls it is still unread, and the watcher has recorded
    nothing about it. *)
Theorem X27_id_watcher_never_gives_up (uid : N) (w : Watcher) (buffer e : str) (n : nat) :
  fetchText uid = Returned buffer -> extractJobIds buffer <> [] ->
  jobHandler (extractJobIds buffer) = Thrown e ->
  polls_ids fetchText jobHandler addSeenFlag n uid w = w.
Proof. apply polls_ids_stuck. Qed.

End IdLoop.

Lemma X26_id_watcher_marks_witness :
  checkForNewEmails_ids text_without_ids (fun _ => Thrown (lit "browser closed"))
      flag_ok [5; 7] fresh
    = checkForNewEmails_ids text_without_ids (fun _ => Returned tt) flag_ok [5; 7] fresh.
Proof.
  apply (proj2 (X26_id_watcher_marks text_without_ids (fun _ => Returned tt) flag_ok
                  [5; 7] fresh)).
  intros uid buffer _ E. injection E as <-. vm_compute. reflexivity.
Defined.

Lemma X27_id_watcher_never_gives_up_witness :
  polls_ids (fun _ => Returned mail_with_ids) (fun _ => Thrown (lit "browser closed"))
    flag_ok 50 7 fresh = fresh.
Proof.
  apply (X27_id_watcher_never_gives_up (fun _ => Returned mail_with_ids)
           (fun _ => Thrown (lit "browser closed")) flag_ok 7 fresh mail_with_ids
           (lit "browser closed") 50).
  - reflexivity.
  - vm_compute. discriminate.
  - reflexivity.
Defined.

End IdWatcherFacts.
